(** * consul-loadbalancer: the zone-aware balancer and its smooth weighted round-robin

    A shallow embedding of [balancer] (the resolver, its refresh pipeline and
    [SelectNode]) and of [util.IntPseudoRandom].

    Modelling conventions.
    - A Go method on [*ConsulResolver] is a function in the monad [M]: it
      threads the resolver and either returns normally or panics (nil
      dereference, write to a nil map, index out of range, [rand.Intn] on a
      non-positive bound).  A Go [error] result is an [option error].
    - [float64] is modelled by the exact rationals [Q]: the arithmetic and the
      comparisons of the code are kept, rounding, infinities and NaN are not.
    - Go maps are [gmap]s; the unspecified iteration order of [range] over a
      map is supplied by the [World].
    - The registry client, the JSON decoder, [strconv.ParseFloat], the random
      source and the logger are external: what they answer during one refresh
      cycle is the [World] the cycle runs in.
    - The mutexes are not modelled: every function is run to completion. *)

From Stdlib Require Import QArith Qabs Lqa ZArith Lia Ascii.
From stdpp Require Import base option list gmap strings fin_maps.

Local Open Scope Q_scope.

(** ** Data model *)

Abbreviation float64 := Q (only parsing).
Definition error : Type := string.

Definition BALANCEFACTOR_MAX_LOCAL : float64 := 3000.
Definition BALANCEFACTOR_MIN_LOCAL : float64 := 200.
Definition BALANCEFACTOR_MAX_CROSS : float64 := 1000.
Definition BALANCEFACTOR_MIN_CROSS : float64 := 1.
Definition BALANCEFACTOR_START_CROSS : float64 := 50.
Definition BALANCEFACTOR_CROSS_RATE : float64 := 0.1.

(** [a < b] on [float64], as a boolean. *)
Definition flt (a b : float64) : bool := negb (Qle_bool b a).

(** Go's [int] (64 bits, two's complement). *)
Definition wrap_int (z : Z) : Z := ((z + 2 ^ 63) mod 2 ^ 64 - 2 ^ 63)%Z.

Record ConsulResolverMetric := {
  candidatePoolSize : Z;
  crossZoneNum : Z;
  selectNum : Z
}.

Record OnlineLab := {
  CrossZone : bool;
  CrossZoneRate : float64;
  FactorCacheExpire : Z;
  FactorStartRate : float64;
  LearningRate : float64;
  RateThreshold : float64
}.

Module ServiceNode.
Record t := {
  PublicIP : string;
  InstanceID : string;
  Host : string;
  Port : Z;
  Zone : string;
  BalanceFactor : float64;
  CurrentFactor : float64;
  WorkLoad : float64
}.

Definition set_WorkLoad (w : float64) (n : t) : t :=
  {| PublicIP := PublicIP n; InstanceID := InstanceID n; Host := Host n; Port := Port n;
     Zone := Zone n; BalanceFactor := BalanceFactor n; CurrentFactor := CurrentFactor n;
     WorkLoad := w |}.

Definition set_CurrentFactor (f : float64) (n : t) : t :=
  {| PublicIP := PublicIP n; InstanceID := InstanceID n; Host := Host n; Port := Port n;
     Zone := Zone n; BalanceFactor := BalanceFactor n; CurrentFactor := f;
     WorkLoad := WorkLoad n |}.
End ServiceNode.

Module ServiceZone.
Record t := {
  Nodes : list ServiceNode.t;
  Zone : string;
  WorkLoad : float64
}.
End ServiceZone.

Module CandidatePool.
Record t := {
  Nodes : list ServiceNode.t;
  Factors : list float64;
  Weights : list float64;
  FactorSum : float64
}.

(** [new(CandidatePool)]. *)
Definition new : t := {| Nodes := []; Factors := []; Weights := []; FactorSum := 0 |}.
End CandidatePool.

Record CPUThreshold := { CThreshold : float64 }.

Module ZoneCPUUtilizationRatio.
Record t := { Updated : Z; Date : list (gmap string float64) }.
End ZoneCPUUtilizationRatio.

Module InstanceMetaInfo.
Record t := { PublicIP : string; InstanceID : string; CPUUtilization : float64; Zone : string }.
End InstanceMetaInfo.

Module InstanceFactor.
Record t := { Updated : Z; Date : list InstanceMetaInfo.t }.
End InstanceFactor.

(** [util.Logger]: an interface value; what its methods print is outside the model. *)
Inductive Logger := TheLogger.

(** The resolver.  [client], [done] and the two mutexes are handles of the runtime and
    are left out; a pointer field is an [option] ([None] is nil), and so is the one map
    the code writes to before it is sure to exist.  [localZone] is held by value: the
    code reads only its [Zone] and [WorkLoad], which never change once the zone is built.
    The one field written through a node pointer is [CurrentFactor]; the write is applied
    to the node in the pool, the alias a caller of [SelectNode] sees, and not to the
    copies in [serviceZones] and [localZone], which are rebuilt before they are read. *)
Record ConsulResolver := {
  address : string;
  service : string;
  lastIndex : Z;
  zone : string;
  candidatePool : option CandidatePool.t;
  localZone : option ServiceZone.t;
  serviceZones : list ServiceZone.t;
  zoneCPUMap : gmap string float64;
  instanceFactorMap : option (gmap string float64);
  balanceFactorCache : gmap string float64;
  interval : Z;
  timeout : Z;
  cpuThreshold : float64;
  onlineLab : option OnlineLab;
  cpuThresholdKey : string;
  instanceFactorKey : string;
  onlineLabKey : string;
  zoneCPUKey : string;
  metric : option ConsulResolverMetric;
  zoneCPUUpdated : bool;
  logger : option Logger
}.

Definition set_lastIndex (v : Z) (r : ConsulResolver) : ConsulResolver :=
  {| address := address r; service := service r; lastIndex := v; zone := zone r; candidatePool
  := candidatePool r; localZone := localZone r; serviceZones := serviceZones r; zoneCPUMap :=
  zoneCPUMap r; instanceFactorMap := instanceFactorMap r; balanceFactorCache :=
  balanceFactorCache r; interval := interval r; timeout := timeout r; cpuThreshold :=
  cpuThreshold r; onlineLab := onlineLab r; cpuThresholdKey := cpuThresholdKey r;
  instanceFactorKey := instanceFactorKey r; onlineLabKey := onlineLabKey r; zoneCPUKey :=
  zoneCPUKey r; metric := metric r; zoneCPUUpdated := zoneCPUUpdated r; logger := logger r |}.

Definition set_zone (v : string) (r : ConsulResolver) : ConsulResolver :=
  {| address := address r; service := service r; lastIndex := lastIndex r; zone := v;
  candidatePool := candidatePool r; localZone := localZone r; serviceZones := serviceZones r;
  zoneCPUMap := zoneCPUMap r; instanceFactorMap := instanceFactorMap r; balanceFactorCache :=
  balanceFactorCache r; interval := interval r; timeout := timeout r; cpuThreshold :=
  cpuThreshold r; onlineLab := onlineLab r; cpuThresholdKey := cpuThresholdKey r;
  instanceFactorKey := instanceFactorKey r; onlineLabKey := onlineLabKey r; zoneCPUKey :=
  zoneCPUKey r; metric := metric r; zoneCPUUpdated := zoneCPUUpdated r; logger := logger r |}.

Definition set_candidatePool (v : option CandidatePool.t) (r : ConsulResolver) : ConsulResolver :=
  {| address := address r; service := service r; lastIndex := lastIndex r; zone := zone r;
  candidatePool := v; localZone := localZone r; serviceZones := serviceZones r; zoneCPUMap :=
  zoneCPUMap r; instanceFactorMap := instanceFactorMap r; balanceFactorCache :=
  balanceFactorCache r; interval := interval r; timeout := timeout r; cpuThreshold :=
  cpuThreshold r; onlineLab := onlineLab r; cpuThresholdKey := cpuThresholdKey r;
  instanceFactorKey := instanceFactorKey r; onlineLabKey := onlineLabKey r; zoneCPUKey :=
  zoneCPUKey r; metric := metric r; zoneCPUUpdated := zoneCPUUpdated r; logger := logger r |}.

Definition set_localZone (v : option ServiceZone.t) (r : ConsulResolver) : ConsulResolver :=
  {| address := address r; service := service r; lastIndex := lastIndex r; zone := zone r;
  candidatePool := candidatePool r; localZone := v; serviceZones := serviceZones r; zoneCPUMap
  := zoneCPUMap r; instanceFactorMap := instanceFactorMap r; balanceFactorCache :=
  balanceFactorCache r; interval := interval r; timeout := timeout r; cpuThreshold :=
  cpuThreshold r; onlineLab := onlineLab r; cpuThresholdKey := cpuThresholdKey r;
  instanceFactorKey := instanceFactorKey r; onlineLabKey := onlineLabKey r; zoneCPUKey :=
  zoneCPUKey r; metric := metric r; zoneCPUUpdated := zoneCPUUpdated r; logger := logger r |}.

Definition set_serviceZones (v : list ServiceZone.t) (r : ConsulResolver) : ConsulResolver :=
  {| address := address r; service := service r; lastIndex := lastIndex r; zone := zone r;
  candidatePool := candidatePool r; localZone := localZone r; serviceZones := v; zoneCPUMap :=
  zoneCPUMap r; instanceFactorMap := instanceFactorMap r; balanceFactorCache :=
  balanceFactorCache r; interval := interval r; timeout := timeout r; cpuThreshold :=
  cpuThreshold r; onlineLab := onlineLab r; cpuThresholdKey := cpuThresholdKey r;
  instanceFactorKey := instanceFactorKey r; onlineLabKey := onlineLabKey r; zoneCPUKey :=
  zoneCPUKey r; metric := metric r; zoneCPUUpdated := zoneCPUUpdated r; logger := logger r |}.

Definition set_zoneCPUMap (v : gmap string float64) (r : ConsulResolver) : ConsulResolver :=
  {| address := address r; service := service r; lastIndex := lastIndex r; zone := zone r;
  candidatePool := candidatePool r; localZone := localZone r; serviceZones := serviceZones r;
  zoneCPUMap := v; instanceFactorMap := instanceFactorMap r; balanceFactorCache :=
  balanceFactorCache r; interval := interval r; timeout := timeout r; cpuThreshold :=
  cpuThreshold r; onlineLab := onlineLab r; cpuThresholdKey := cpuThresholdKey r;
  instanceFactorKey := instanceFactorKey r; onlineLabKey := onlineLabKey r; zoneCPUKey :=
  zoneCPUKey r; metric := metric r; zoneCPUUpdated := zoneCPUUpdated r; logger := logger r |}.

Definition set_instanceFactorMap (v : option (gmap string float64)) (r : ConsulResolver) : ConsulResolver :=
  {| address := address r; service := service r; lastIndex := lastIndex r; zone := zone r;
  candidatePool := candidatePool r; localZone := localZone r; serviceZones := serviceZones r;
  zoneCPUMap := zoneCPUMap r; instanceFactorMap := v; balanceFactorCache := balanceFactorCache
  r; interval := interval r; timeout := timeout r; cpuThreshold := cpuThreshold r; onlineLab
  := onlineLab r; cpuThresholdKey := cpuThresholdKey r; instanceFactorKey := instanceFactorKey
  r; onlineLabKey := onlineLabKey r; zoneCPUKey := zoneCPUKey r; metric := metric r;
  zoneCPUUpdated := zoneCPUUpdated r; logger := logger r |}.

Definition set_balanceFactorCache (v : gmap string float64) (r : ConsulResolver) : ConsulResolver :=
  {| address := address r; service := service r; lastIndex := lastIndex r; zone := zone r;
  candidatePool := candidatePool r; localZone := localZone r; serviceZones := serviceZones r;
  zoneCPUMap := zoneCPUMap r; instanceFactorMap := instanceFactorMap r; balanceFactorCache :=
  v; interval := interval r; timeout := timeout r; cpuThreshold := cpuThreshold r; onlineLab
  := onlineLab r; cpuThresholdKey := cpuThresholdKey r; instanceFactorKey := instanceFactorKey
  r; onlineLabKey := onlineLabKey r; zoneCPUKey := zoneCPUKey r; metric := metric r;
  zoneCPUUpdated := zoneCPUUpdated r; logger := logger r |}.

Definition set_cpuThreshold (v : float64) (r : ConsulResolver) : ConsulResolver :=
  {| address := address r; service := service r; lastIndex := lastIndex r; zone := zone r;
  candidatePool := candidatePool r; localZone := localZone r; serviceZones := serviceZones r;
  zoneCPUMap := zoneCPUMap r; instanceFactorMap := instanceFactorMap r; balanceFactorCache :=
  balanceFactorCache r; interval := interval r; timeout := timeout r; cpuThreshold := v;
  onlineLab := onlineLab r; cpuThresholdKey := cpuThresholdKey r; instanceFactorKey :=
  instanceFactorKey r; onlineLabKey := onlineLabKey r; zoneCPUKey := zoneCPUKey r; metric :=
  metric r; zoneCPUUpdated := zoneCPUUpdated r; logger := logger r |}.

Definition set_onlineLab (v : option OnlineLab) (r : ConsulResolver) : ConsulResolver :=
  {| address := address r; service := service r; lastIndex := lastIndex r; zone := zone r;
  candidatePool := candidatePool r; localZone := localZone r; serviceZones := serviceZones r;
  zoneCPUMap := zoneCPUMap r; instanceFactorMap := instanceFactorMap r; balanceFactorCache :=
  balanceFactorCache r; interval := interval r; timeout := timeout r; cpuThreshold :=
  cpuThreshold r; onlineLab := v; cpuThresholdKey := cpuThresholdKey r; instanceFactorKey :=
  instanceFactorKey r; onlineLabKey := onlineLabKey r; zoneCPUKey := zoneCPUKey r; metric :=
  metric r; zoneCPUUpdated := zoneCPUUpdated r; logger := logger r |}.

Definition set_metric (v : option ConsulResolverMetric) (r : ConsulResolver) : ConsulResolver :=
  {| address := address r; service := service r; lastIndex := lastIndex r; zone := zone r;
  candidatePool := candidatePool r; localZone := localZone r; serviceZones := serviceZones r;
  zoneCPUMap := zoneCPUMap r; instanceFactorMap := instanceFactorMap r; balanceFactorCache :=
  balanceFactorCache r; interval := interval r; timeout := timeout r; cpuThreshold :=
  cpuThreshold r; onlineLab := onlineLab r; cpuThresholdKey := cpuThresholdKey r;
  instanceFactorKey := instanceFactorKey r; onlineLabKey := onlineLabKey r; zoneCPUKey :=
  zoneCPUKey r; metric := v; zoneCPUUpdated := zoneCPUUpdated r; logger := logger r |}.

Definition set_logger (v : option Logger) (r : ConsulResolver) : ConsulResolver :=
  {| address := address r; service := service r; lastIndex := lastIndex r; zone := zone r;
  candidatePool := candidatePool r; localZone := localZone r; serviceZones := serviceZones r;
  zoneCPUMap := zoneCPUMap r; instanceFactorMap := instanceFactorMap r; balanceFactorCache :=
  balanceFactorCache r; interval := interval r; timeout := timeout r; cpuThreshold :=
  cpuThreshold r; onlineLab := onlineLab r; cpuThresholdKey := cpuThresholdKey r;
  instanceFactorKey := instanceFactorKey r; onlineLabKey := onlineLabKey r; zoneCPUKey :=
  zoneCPUKey r; metric := metric r; zoneCPUUpdated := zoneCPUUpdated r; logger := v |}.

(** ** The outside world of one refresh cycle *)

Module api.
(** The one field of [api.KVPair] that is read. *)
Record KVPair := { Value : string }.
(** What is read of an [api.ServiceEntry]: [entry.Service.Meta], [.Address], [.Port]. *)
Record ServiceEntry := { Meta : gmap string string; Address : string; Port : Z }.
End api.

Record World := {
  (** [r.client.KV().Get(key, nil)]: an error, or the pair (nil when the key is missing). *)
  KV_Get : string → error + option api.KVPair;
  (** [jsoniter...Unmarshal(value, &x)], one per target type. *)
  Unmarshal_CPUThreshold : string → error + CPUThreshold;
  Unmarshal_ZoneCPUUtilizationRatio : string → error + ZoneCPUUtilizationRatio.t;
  Unmarshal_OnlineLab : string → error + OnlineLab;
  Unmarshal_InstanceFactor : string → error + InstanceFactor.t;
  (** [r.client.Health().Service(service, "", true, &qm)] for a wait index and a wait
      time: an error, or the entries with [meta.LastIndex]. *)
  Health_Service : string → Z → Z → error + (list api.ServiceEntry * Z);
  (** The value [strconv.ParseFloat(s, 64)] returns (its error is dropped by the caller). *)
  ParseFloat : string → float64;
  (** [rand.New(rand.NewSource(time.Now().UnixNano())).Intn(n)] for [0 < n]. *)
  Intn : Z → Z;
  (** The order in which [range] visits the entries of the zone map. *)
  range_map : list (string * ServiceZone.t) → list (string * ServiceZone.t)
}.

(** ** The monad of resolver methods *)

Inductive exec (A : Type) : Type :=
| Normal (a : A) (r : ConsulResolver)
| Panic.
Arguments Normal {A} a r.
Arguments Panic {A}.

Definition M (A : Type) : Type := ConsulResolver → exec A.

#[global] Instance M_ret : MRet M := λ A a r, Normal a r.
#[global] Instance M_bind : MBind M := λ A B k m r,
  match m r with
  | Normal a r' => k a r'
  | Panic => Panic
  end.

Definition panic {A} : M A := λ _, Panic.
Definition gets {A} (f : ConsulResolver → A) : M A := λ r, Normal (f r) r.
Definition modify (f : ConsulResolver → ConsulResolver) : M unit := λ r, Normal tt (f r).

(** Reading through a pointer: nil panics. *)
Definition deref {A} (p : option A) : M A :=
  match p with
  | Some a => mret a
  | None => panic
  end.

(** [for _, x := range l { s = f(s, x) }]. *)
Fixpoint forM {A S} (f : S → A → M S) (l : list A) (s : S) : M S :=
  match l with
  | [] => mret s
  | x :: l' => s' ← f s x; forM f l' s'
  end.

(** Any call of a method of [r.logger]: a nil interface panics. *)
Definition log : M unit := lg ← gets logger; _ ← deref lg; mret tt.
Definition the_onlineLab : M OnlineLab := ol ← gets onlineLab; deref ol.

(** ** util *)

Definition IntPseudoRandom (w : World) (min max : Z) : M Z :=
  let n := wrap_int (wrap_int (max - min) + 1) in
  if (n <=? 0)%Z then panic else mret (wrap_int (Intn w n + min)).

(** ** Construction and setters *)

(** [NewConsulResolver]: [NewClient] is what [api.NewClient(config)] answers and [Zone]
    what [util.Zone()] returns. *)
Definition NewConsulResolver (NewClient : option error) (Zone : string)
    (address service cpuThresholdKey zoneCPUKey instanceFactorKey onlineLabKey : string)
    (interval timeout : Z) : error + ConsulResolver :=
  match NewClient with
  | Some err => inl err
  | None =>
      inr {| address := address; service := service; lastIndex := 0; zone := Zone;
             candidatePool := None; localZone := None; serviceZones := []; zoneCPUMap := ∅;
             instanceFactorMap := None; balanceFactorCache := ∅; interval := interval;
             timeout := timeout; cpuThreshold := 0; onlineLab := None;
             cpuThresholdKey := cpuThresholdKey; instanceFactorKey := instanceFactorKey;
             onlineLabKey := onlineLabKey; zoneCPUKey := zoneCPUKey; metric := None;
             zoneCPUUpdated := false; logger := None |}
  end.

Definition SetLogger (l : option Logger) : M unit := modify (set_logger l).
Definition SetZone (z : string) : M unit := modify (set_zone z).

(** ** ConfigStore reader *)

(** The common shape of the four readers: get the key, decode the value.  [res.Value]
    on a missing key is a nil dereference. *)
Definition fetch {A} (w : World) (key : string) (unmarshal : string → error + A)
    (store : A → M unit) : M (option error) :=
  match KV_Get w key with
  | inl err => mret (Some err)
  | inr res =>
      kv ← deref res;
      match unmarshal (api.Value kv) with
      | inl err => mret (Some err)
      | inr x => store x;; log;; mret None
      end
  end.

Definition updateCPUThreshold (w : World) : M (option error) :=
  key ← gets cpuThresholdKey;
  fetch w key (Unmarshal_CPUThreshold w) (λ ct, modify (set_cpuThreshold (CThreshold ct))).

(** The map [updateZoneCPUMap] builds: both loops, over [zc.Date] and over each map in it. *)
Definition zoneCPUMapOf (zc : ZoneCPUUtilizationRatio.t) : gmap string float64 :=
  foldl (λ m v, map_fold (λ k vv m, <[k := vv]> m) m v) ∅ (ZoneCPUUtilizationRatio.Date zc).

Definition updateZoneCPUMap (w : World) : M (option error) :=
  key ← gets zoneCPUKey;
  fetch w key (Unmarshal_ZoneCPUUtilizationRatio w) (λ zc,
    let m := zoneCPUMapOf zc in
    modify (set_zoneCPUMap m)).

Definition updateOnlineLabFactor (w : World) : M (option error) :=
  key ← gets onlineLabKey;
  fetch w key (Unmarshal_OnlineLab w) (λ ol, modify (set_onlineLab (Some ol))).

(** The map [updateInstanceFactorMap] builds from [i.Date]. *)
Definition instanceFactorMapOf (i : InstanceFactor.t) : gmap string float64 :=
  foldl (λ m v, <[InstanceMetaInfo.InstanceID v := InstanceMetaInfo.CPUUtilization v]> m)
        ∅ (InstanceFactor.Date i).

Definition updateInstanceFactorMap (w : World) : M (option error) :=
  key ← gets instanceFactorKey;
  fetch w key (Unmarshal_InstanceFactor w) (λ i,
    let m := instanceFactorMapOf i in
    modify (set_instanceFactorMap (Some m))).

(** ** TopologySnapshot *)

(** The node built from one registry entry (first loop of [updateServiceZone]). *)
Definition entryNode (w : World) (entry : api.ServiceEntry) : ServiceNode.t :=
  let meta := api.Meta entry in
  {| ServiceNode.Zone := default "" (meta !! "zone");
     ServiceNode.BalanceFactor := ParseFloat w (default "" (meta !! "balanceFactor"));
     ServiceNode.InstanceID := default "" (meta !! "instanceID");
     ServiceNode.PublicIP := default "" (meta !! "publicIP");
     ServiceNode.Host := api.Address entry;
     ServiceNode.Port := api.Port entry;
     ServiceNode.CurrentFactor := 0;
     ServiceNode.WorkLoad := 0 |}.

(** The body of the grouping loop, for the loop variable [v] and the zone map [m]. *)
Definition groupNode (m : gmap string ServiceZone.t) (v : ServiceNode.t)
    : M (gmap string ServiceZone.t) :=
  ifm ← gets instanceFactorMap;
  let lookup := default ∅ ifm !! ServiceNode.InstanceID v in
  let workload := default 0 lookup in
  let v := if lookup is Some _ then v else ServiceNode.set_WorkLoad 100 v in
  ifm ← deref ifm;
  modify (set_instanceFactorMap (Some (<[ServiceNode.InstanceID v := workload]> ifm)));;
  match m !! ServiceNode.Zone v with
  | None =>
      zoneCPUMap ← gets zoneCPUMap;
      let z := {| ServiceZone.Zone := ServiceNode.Zone v;
                  ServiceZone.WorkLoad := default 100 (zoneCPUMap !! ServiceNode.Zone v);
                  ServiceZone.Nodes := [v] |} in
      log;;
      mret (<[ServiceNode.Zone v := z]> m)
  | Some sz =>
      let sz := {| ServiceZone.Zone := ServiceZone.Zone sz;
                   ServiceZone.WorkLoad := ServiceZone.WorkLoad sz;
                   ServiceZone.Nodes := ServiceZone.Nodes sz ++ [v] |} in
      log;;
      mret (<[ServiceNode.Zone v := sz]> m)
  end.

(** The body of the last loop: collect the zone, and remember it when it is the local one. *)
Definition collectZone (serviceZones : list ServiceZone.t) (kv : string * ServiceZone.t)
    : M (list ServiceZone.t) :=
  let v := kv.2 in
  zone ← gets zone;
  (if String.eqb (ServiceZone.Zone v) zone then modify (set_localZone (Some v)) else mret tt);;
  mret (serviceZones ++ [v]).

Definition updateServiceZone (w : World) : M (option error) :=
  service ← gets service;
  lastIndex ← gets lastIndex;
  timeout ← gets timeout;
  match Health_Service w service lastIndex timeout with
  | inl err => mret (Some err)
  | inr (res, LastIndex) =>
      modify (set_lastIndex LastIndex);;
      let serviceNodes := entryNode w <$> res in
      m ← forM groupNode serviceNodes ∅;
      serviceZones ← forM collectZone (range_map w (map_to_list m)) [];
      modify (set_serviceZones serviceZones);;
      mret None
  end.

(** ** Cache expiry *)

Definition expireBalanceFactorCache (w : World) : M unit :=
  ol ← the_onlineLab;
  x ← IntPseudoRandom w 1 (FactorCacheExpire ol);
  if (1 =? x)%Z then modify (set_balanceFactorCache ∅);; log else mret tt.

(** ** Balance predicates *)

Definition nodeBalanced (node : ServiceNode.t) (zone : ServiceZone.t) : M bool :=
  ol ← the_onlineLab;
  mret (flt (Qabs (ServiceNode.WorkLoad node - ServiceZone.WorkLoad zone) / 100)
            (RateThreshold ol)).

Definition zoneBalanced (localZone crossZone : ServiceZone.t) : M bool :=
  ol ← the_onlineLab;
  mret (flt (Qabs (ServiceZone.WorkLoad localZone - ServiceZone.WorkLoad crossZone) / 100)
            (RateThreshold ol * 2)).

(** ** CandidatePool builder *)

(** [candidatePool.Nodes = append(.., node)] and [candidatePool.Weights = append(.., 0)]. *)
Definition appendNode (node : ServiceNode.t) (p : CandidatePool.t) : CandidatePool.t :=
  {| CandidatePool.Nodes := CandidatePool.Nodes p ++ [node];
     CandidatePool.Weights := CandidatePool.Weights p ++ [0];
     CandidatePool.Factors := CandidatePool.Factors p;
     CandidatePool.FactorSum := CandidatePool.FactorSum p |}.

(** The write [node.CurrentFactor = bf] as seen through the pool: [node] is the pointer
    appended last. *)
Definition writeCurrentFactor (bf : float64) (nodes : list ServiceNode.t) : list ServiceNode.t :=
  match reverse nodes with
  | [] => []
  | node :: before => reverse before ++ [ServiceNode.set_CurrentFactor bf node]
  end.

(** [node.CurrentFactor = bf], [Factors = append(.., bf)] and [FactorSum += bf]. *)
Definition appendFactor (bf : float64) (p : CandidatePool.t) : CandidatePool.t :=
  {| CandidatePool.Nodes := writeCurrentFactor bf (CandidatePool.Nodes p);
     CandidatePool.Weights := CandidatePool.Weights p;
     CandidatePool.Factors := CandidatePool.Factors p ++ [bf];
     CandidatePool.FactorSum := CandidatePool.FactorSum p + bf |}.

(** The end of both node loops: record the factor in the pool and in the cache. *)
Definition commitFactor (node : ServiceNode.t) (bf : float64) (p : CandidatePool.t)
    : M CandidatePool.t :=
  let p := appendFactor bf p in
  cache ← gets balanceFactorCache;
  modify (set_balanceFactorCache (<[ServiceNode.InstanceID node := bf]> cache));;
  log;;
  mret p.

Definition clampLocal (balanceFactor : float64) : M float64 :=
  if flt BALANCEFACTOR_MAX_LOCAL balanceFactor then log;; mret BALANCEFACTOR_MAX_LOCAL
  else if flt balanceFactor BALANCEFACTOR_MIN_LOCAL then log;; mret BALANCEFACTOR_MIN_LOCAL
  else mret balanceFactor.

Definition clampCross (balanceFactor : float64) : M float64 :=
  if flt BALANCEFACTOR_MAX_CROSS balanceFactor then log;; mret BALANCEFACTOR_MAX_CROSS
  else if flt balanceFactor BALANCEFACTOR_MIN_CROSS then log;; mret BALANCEFACTOR_MIN_CROSS
  else mret balanceFactor.

(** The starting factor of a local node: cached, warm-started or declared. *)
Definition localStart (factorCached : bool) (localAvgFactor : float64) (node : ServiceNode.t)
    : M float64 :=
  let balanceFactor := ServiceNode.BalanceFactor node in
  if factorCached then
    cache ← gets balanceFactorCache;
    match cache !! ServiceNode.InstanceID node with
    | Some bf => log;; mret bf
    | None =>
        if flt 0 localAvgFactor then log;; mret localAvgFactor
        else
          ol ← the_onlineLab;
          log;; mret (ServiceNode.BalanceFactor node * FactorStartRate ol)
    end
  else mret balanceFactor.

(** The node-level nudge of the local zone. *)
Definition localNudge (serviceZone : ServiceZone.t) (node : ServiceNode.t)
    (balanceFactor : float64) : M float64 :=
  balanced ← nodeBalanced node serviceZone;
  zoneCPUUpdated ← gets zoneCPUUpdated;
  if negb balanced && zoneCPUUpdated then
    ol ← the_onlineLab;
    if flt (ServiceZone.WorkLoad serviceZone) (ServiceNode.WorkLoad node) then
      log;; mret (balanceFactor - balanceFactor * LearningRate ol)
    else
      log;; mret (balanceFactor + balanceFactor * LearningRate ol)
  else mret balanceFactor.

(** The body of the loop over the nodes of the local zone. *)
Definition localNode (factorCached : bool) (localAvgFactor : float64)
    (serviceZone : ServiceZone.t) (candidatePool : CandidatePool.t) (node : ServiceNode.t)
    : M CandidatePool.t :=
  let candidatePool := appendNode node candidatePool in
  balanceFactor ← localStart factorCached localAvgFactor node;
  balanceFactor ← localNudge serviceZone node balanceFactor;
  balanceFactor ← clampLocal balanceFactor;
  commitFactor node balanceFactor candidatePool.

(** The spill gate, evaluated as the code does (left to right, short-circuit). *)
Definition spillGate (localZone : option ServiceZone.t) (serviceZone : ServiceZone.t) : M bool :=
  lz ← deref localZone;
  balanced ← zoneBalanced lz serviceZone;
  cpuThreshold ← gets cpuThreshold;
  mret (negb balanced && flt cpuThreshold (ServiceZone.WorkLoad lz)
        && flt (ServiceZone.WorkLoad serviceZone) (ServiceZone.WorkLoad lz)).

(** The starting factor of a cross-zone node: cached or declared, then gated. *)
Definition crossStart (localZone : option ServiceZone.t) (serviceZone : ServiceZone.t)
    (node : ServiceNode.t) : M float64 :=
  let balanceFactor := ServiceNode.BalanceFactor node in
  cache ← gets balanceFactorCache;
  balanceFactor ← (match cache !! ServiceNode.InstanceID node with
                   | Some bf => log;; mret bf
                   | None => mret balanceFactor
                   end) : M float64;
  spill ← spillGate localZone serviceZone;
  if spill : bool then log;; mret (balanceFactor * BALANCEFACTOR_CROSS_RATE)
  else log;; mret BALANCEFACTOR_MIN_CROSS.

(** The node-level nudge of a cross zone (the inner [if !r.nodeBalanced ...]). *)
Definition crossNodeNudge (serviceZone : ServiceZone.t) (node : ServiceNode.t)
    (balanceFactor : float64) : M float64 :=
  balanced ← nodeBalanced node serviceZone;
  if negb balanced then
    ol ← the_onlineLab;
    if flt (ServiceZone.WorkLoad serviceZone) (ServiceNode.WorkLoad node) then
      log;; mret (balanceFactor + balanceFactor * LearningRate ol)
    else
      log;; mret (balanceFactor - balanceFactor * LearningRate ol)
  else mret balanceFactor.

(** What a cross-zone node goes through under [if r.zoneCPUUpdated]. *)
Definition crossNudge (localZone : option ServiceZone.t) (serviceZone : ServiceZone.t)
    (node : ServiceNode.t) (balanceFactor : float64) : M float64 :=
  zoneCPUUpdated ← gets zoneCPUUpdated;
  if zoneCPUUpdated : bool then
    spill ← spillGate localZone serviceZone;
    balanceFactor ←
      (if spill : bool then
         balanceFactor ←
           (if flt balanceFactor BALANCEFACTOR_START_CROSS
            then log;; mret BALANCEFACTOR_START_CROSS
            else mret balanceFactor) : M float64;
         ol ← the_onlineLab;
         log;; mret (balanceFactor + balanceFactor * LearningRate ol)
       else
         ol ← the_onlineLab;
         log;; mret (balanceFactor - balanceFactor * LearningRate ol)) : M float64;
    crossNodeNudge serviceZone node balanceFactor
  else mret balanceFactor.

(** The body of the loop over the nodes of a cross zone. *)
Definition crossNode (localZone : option ServiceZone.t) (serviceZone : ServiceZone.t)
    (candidatePool : CandidatePool.t) (node : ServiceNode.t) : M CandidatePool.t :=
  let candidatePool := appendNode node candidatePool in
  balanceFactor ← crossStart localZone serviceZone node;
  balanceFactor ← crossNudge localZone serviceZone node balanceFactor;
  balanceFactor ← clampCross balanceFactor;
  commitFactor node balanceFactor candidatePool.

(** [r.localZone], for where a local variable of the same name is in scope. *)
Definition r_localZone : M (option ServiceZone.t) := gets localZone.

(** The body of the loop over the zones; the loop state is the pool under construction
    and [localAvgFactor]. *)
Definition zoneStep (localZone : option ServiceZone.t) (factorCached : bool)
    (st : CandidatePool.t * float64) (serviceZone : ServiceZone.t)
    : M (CandidatePool.t * float64) :=
  let '(candidatePool, localAvgFactor) := st in
  rlz ← r_localZone;
  rlz ← deref rlz;
  if String.eqb (ServiceZone.Zone rlz) (ServiceZone.Zone serviceZone) then
    log;;
    candidatePool ← forM (localNode factorCached localAvgFactor serviceZone)
                         (ServiceZone.Nodes serviceZone) candidatePool;
    if (0 <? length (CandidatePool.Factors candidatePool))%nat then
      let localAvgFactor :=
        CandidatePool.FactorSum candidatePool
        / inject_Z (Z.of_nat (length (CandidatePool.Factors candidatePool))) in
      log;; mret (candidatePool, localAvgFactor)
    else mret (candidatePool, localAvgFactor)
  else
    ol ← the_onlineLab;
    if CrossZone ol then
      log;;
      candidatePool ← forM (crossNode localZone serviceZone)
                           (ServiceZone.Nodes serviceZone) candidatePool;
      mret (candidatePool, localAvgFactor)
    else mret (candidatePool, localAvgFactor).

Definition updateCandidatePool : M unit :=
  localZone ← gets localZone;
  serviceZones ← gets serviceZones;
  cache ← gets balanceFactorCache;
  let candidatePool := CandidatePool.new in
  let factorCached := bool_decide (0 < size cache)%nat in
  '(candidatePool, _) ← forM (zoneStep localZone factorCached) serviceZones (candidatePool, 0);
  let candidatePoolSize := Z.of_nat (length (CandidatePool.Nodes candidatePool)) in
  metric ← gets metric;
  match metric with
  | Some cm =>
      modify (set_metric (Some {| candidatePoolSize := candidatePoolSize;
                                  crossZoneNum := crossZoneNum cm;
                                  selectNum := selectNum cm |}))
  | None =>
      modify (set_metric (Some {| candidatePoolSize := candidatePoolSize;
                                  crossZoneNum := 0; selectNum := 0 |}));;
      log
  end;;
  modify (set_candidatePool (Some candidatePool)).

(** ** Refresh driver *)

Definition updateAll (w : World) : M (option error) :=
  log;;
  err ← updateCPUThreshold w;
  if err is Some _ then mret err else
  err ← updateZoneCPUMap w;
  if err is Some _ then mret err else
  err ← updateOnlineLabFactor w;
  if err is Some _ then mret err else
  err ← updateInstanceFactorMap w;
  if err is Some _ then mret err else
  err ← updateServiceZone w;
  if err is Some _ then mret err else
  expireBalanceFactorCache w;;
  updateCandidatePool;;
  log;;
  mret None.

(** [Start], up to the point where the background task is spawned.  The log that
    follows a successful refresh is guarded by [r.logger != nil] and does nothing here. *)
Definition Start (w : World) : M (option error) :=
  err ← updateAll w;
  if err is Some _ then mret err else mret None.

(** One firing of the ticker in the background task. *)
Definition backgroundCycle (w : World) : M unit :=
  err ← updateAll w;
  if err is Some _ then log else mret tt.

(** ** Selector *)

(** One turn of the loop of [SelectNode]; the loop state is [Weights], [idx] and [max]. *)
Definition selectTurn (factors : list float64) (st : list float64 * nat * float64) (i : nat)
    : M (list float64 * nat * float64) :=
  let '(weights, idx, max) := st in
  f ← deref (factors !! i);
  wi ← deref (weights !! i);
  let weights := <[i := wi + f]> weights in
  if flt max (wi + f) then mret (weights, i, wi + f) else mret (weights, idx, max).

Definition SelectNode : M (option ServiceNode.t) :=
  cp ← gets candidatePool;
  cp ← deref cp;
  if (length (CandidatePool.Nodes cp) =? 0)%nat then mret None else
  '(weights, idx, _) ← forM (selectTurn (CandidatePool.Factors cp))
                            (seq 0 (length (CandidatePool.Factors cp)))
                            (CandidatePool.Weights cp, 0%nat, 0);
  log;;
  node ← deref (CandidatePool.Nodes cp !! idx);
  log;;
  widx ← deref (weights !! idx);
  let weights := <[idx := widx - CandidatePool.FactorSum cp]> weights in
  modify (set_candidatePool
            (Some {| CandidatePool.Nodes := CandidatePool.Nodes cp;
                     CandidatePool.Factors := CandidatePool.Factors cp;
                     CandidatePool.Weights := weights;
                     CandidatePool.FactorSum := CandidatePool.FactorSum cp |}));;
  metric ← gets metric;
  cm ← deref metric;
  zone ← gets zone;
  let crossZoneNum' :=
    if negb (String.eqb (ServiceNode.Zone node) zone)
    then wrap_int (crossZoneNum cm + 1) else crossZoneNum cm in
  modify (set_metric (Some {| candidatePoolSize := candidatePoolSize cm;
                              crossZoneNum := crossZoneNum';
                              selectNum := wrap_int (selectNum cm + 1) |}));;
  log;;
  mret (Some node).

(** ** Specification vocabulary *)

(** The factor range of a pool entry, by the side of the zone test it was built on. *)
Definition inRange (isLocal : bool) (f : float64) : Prop :=
  if isLocal
  then BALANCEFACTOR_MIN_LOCAL <= f ∧ f <= BALANCEFACTOR_MAX_LOCAL
  else BALANCEFACTOR_MIN_CROSS <= f ∧ f <= BALANCEFACTOR_MAX_CROSS.

(** [p'] is [p] with one more entry: [node] with factor [bf] and weight 0. *)
Definition appended (p p' : CandidatePool.t) (node : ServiceNode.t) (bf : float64) : Prop :=
  CandidatePool.Nodes p' = CandidatePool.Nodes p ++ [ServiceNode.set_CurrentFactor bf node]
  ∧ CandidatePool.Factors p' = CandidatePool.Factors p ++ [bf]
  ∧ CandidatePool.Weights p' = CandidatePool.Weights p ++ [0]
  ∧ CandidatePool.FactorSum p' = CandidatePool.FactorSum p + bf.


(** The left-to-right sum the builder accumulates in [FactorSum]. *)
Definition sumFactors (l : list float64) : float64 := foldl Qplus 0 l.

(** The invariant of the pool under construction: parallel sequences whose entries
    satisfy [P], zero weights, and [FactorSum] the sum of the factors so far. *)
Record poolInv (P : ServiceNode.t → float64 → Prop) (p : CandidatePool.t) : Prop := {
  inv_entries : Forall2 P (CandidatePool.Nodes p) (CandidatePool.Factors p);
  inv_weights : CandidatePool.Weights p = replicate (length (CandidatePool.Nodes p)) 0;
  inv_sum : CandidatePool.FactorSum p = sumFactors (CandidatePool.Factors p)
}.


(** The range of an entry, whichever zone it came from. *)
Definition anyRange (node : ServiceNode.t) (f : float64) : Prop :=
  inRange true f ∨ inRange false f.

(** [range] over a map visits every entry once: the order is a permutation. *)
Definition range_ok (w : World) : Prop := ∀ l, range_map w l ≡ₚ l.

(** The invariant of the zone map of [updateServiceZone]: a zone sits under its own
    name, and so does every node listed in it. *)
Definition zoneMapInv (m : gmap string ServiceZone.t) : Prop :=
  ∀ k z, m !! k = Some z →
    ServiceZone.Zone z = k ∧ ∀ node, node ∈ ServiceZone.Nodes z → ServiceNode.Zone node = k.

(** What the world answers to one config fetch: the registry or the decoder fails, the
    key is missing, or a value is decoded. *)
Inductive fetched (A : Type) : Type :=
| FetchFailed (err : error)
| KeyMissing
| Fetched (a : A).
Arguments FetchFailed {A} err.
Arguments KeyMissing {A}.
Arguments Fetched {A} a.

Definition answer {A} (w : World) (key : string) (unmarshal : string → error + A) : fetched A :=
  match KV_Get w key with
  | inl err => FetchFailed err
  | inr None => KeyMissing
  | inr (Some kv) =>
      match unmarshal (api.Value kv) with
      | inl err => FetchFailed err
      | inr a => Fetched a
      end
  end.

(** The part of the resolver the four config fetches write, and the published pool. *)
Definition configState (r : ConsulResolver)
    : float64 * gmap string float64 * option OnlineLab * option (gmap string float64)
      * option CandidatePool.t :=
  (cpuThreshold r, zoneCPUMap r, onlineLab r, instanceFactorMap r, candidatePool r).

(** ** Scenarios *)

Module Scenario.
Definition node (id zone : string) (declared workload : float64) : ServiceNode.t :=
  {| ServiceNode.PublicIP := ""; ServiceNode.InstanceID := id; ServiceNode.Host := "10.0.0.1";
     ServiceNode.Port := 8080; ServiceNode.Zone := zone; ServiceNode.BalanceFactor := declared;
     ServiceNode.CurrentFactor := 0; ServiceNode.WorkLoad := workload |}.

Definition zoneOf (name : string) (workload : float64) (nodes : list ServiceNode.t)
    : ServiceZone.t :=
  {| ServiceZone.Nodes := nodes; ServiceZone.Zone := name; ServiceZone.WorkLoad := workload |}.

Definition lab : OnlineLab :=
  {| CrossZone := true; CrossZoneRate := 0; FactorCacheExpire := 1000;
     FactorStartRate := 0.5; LearningRate := 0.2; RateThreshold := 0.1 |}.

(** The resolver [NewConsulResolver] builds for zone "A". *)
Definition constructed : ConsulResolver :=
  {| address := "consul:8500"; service := "svc"; lastIndex := 0; zone := "A";
     candidatePool := None; localZone := None; serviceZones := []; zoneCPUMap := ∅;
     instanceFactorMap := None; balanceFactorCache := ∅; interval := 10; timeout := 5;
     cpuThreshold := 0; onlineLab := None; cpuThresholdKey := "cpu";
     instanceFactorKey := "instance"; onlineLabKey := "lab"; zoneCPUKey := "zonecpu";
     metric := None; zoneCPUUpdated := false; logger := None |}.

(** The same resolver after [SetLogger]. *)
Definition fresh : ConsulResolver := set_logger (Some TheLogger) constructed.

(** The same resolver in the middle of a refresh, about to build the pool. *)
Definition building (zones : list ServiceZone.t) (localZone : option ServiceZone.t)
    (cache : gmap string float64) (zoneCPUUpdated : bool) : ConsulResolver :=
  {| address := "consul:8500"; service := "svc"; lastIndex := 7; zone := "A";
     candidatePool := None; localZone := localZone; serviceZones := zones;
     zoneCPUMap := ∅; instanceFactorMap := Some ∅; balanceFactorCache := cache;
     interval := 10; timeout := 5; cpuThreshold := 70; onlineLab := Some lab;
     cpuThresholdKey := "cpu"; instanceFactorKey := "instance"; onlineLabKey := "lab";
     zoneCPUKey := "zonecpu"; metric := None; zoneCPUUpdated := zoneCPUUpdated;
     logger := Some TheLogger |}.

Definition entry (id zone declared : string) : api.ServiceEntry :=
  {| api.Meta := <["zone" := zone]> (<["balanceFactor" := declared]>
                   (<["instanceID" := id]> (<["publicIP" := "1.2.3.4"]> ∅)));
     api.Address := "10.0.0.1"; api.Port := 8080 |}.

(** A world whose registry answers every key, with the given decodings and entries. *)
Definition world (ct : error + CPUThreshold) (zc : error + ZoneCPUUtilizationRatio.t)
    (ol : error + OnlineLab) (ifa : error + InstanceFactor.t)
    (entries : list api.ServiceEntry) : World :=
  {| KV_Get := λ key, inr (Some {| api.Value := key |});
     Unmarshal_CPUThreshold := λ _, ct;
     Unmarshal_ZoneCPUUtilizationRatio := λ _, zc;
     Unmarshal_OnlineLab := λ _, ol;
     Unmarshal_InstanceFactor := λ _, ifa;
     Health_Service := λ _ _ _, inr (entries, 8%Z);
     ParseFloat := λ s, if String.eqb s "1000" then 1000 else 0;
     Intn := λ _, 1%Z;
     range_map := λ l, l |}.

Definition zoneCPU : ZoneCPUUtilizationRatio.t :=
  {| ZoneCPUUtilizationRatio.Updated := 1700000000;
     ZoneCPUUtilizationRatio.Date := [ {["A" := 95]}; {["B" := 40]} ] |}.

Definition instances : InstanceFactor.t :=
  {| InstanceFactor.Updated := 1700000000;
     InstanceFactor.Date :=
       [ {| InstanceMetaInfo.PublicIP := "1.2.3.4"; InstanceMetaInfo.InstanceID := "a1";
            InstanceMetaInfo.CPUUtilization := 50; InstanceMetaInfo.Zone := "A" |} ] |}.

(** Every fetch succeeds; the registry lists "a1" in zone "A" and "b1" in zone "B". *)
Definition healthy : World :=
  world (inr {| CThreshold := 70 |}) (inr zoneCPU) (inr lab) (inr instances)
        [entry "a1" "A" "1000"; entry "b1" "B" "1000"].

(** The resolver a computation leaves behind ([fresh] stands in after a panic). *)
Definition after {A} (e : exec A) : ConsulResolver :=
  match e with
  | Normal _ r => r
  | Panic => fresh
  end.

(** The published pool as (instance, factor) pairs, factors in lowest terms. *)
Definition published (r : ConsulResolver) : list (string * float64) :=
  match candidatePool r with
  | Some p => zip (ServiceNode.InstanceID <$> CandidatePool.Nodes p)
                  (Qred <$> CandidatePool.Factors p)
  | None => []
  end.

(** The workload each node of the topology snapshot carries. *)
Definition workloads (r : ConsulResolver) : list (string * float64) :=
  z ← serviceZones r;
  (λ n, (ServiceNode.InstanceID n, ServiceNode.WorkLoad n)) <$> ServiceZone.Nodes z.

(** The registry lists nothing. *)
Definition deserted : World :=
  world (inr {| CThreshold := 70 |}) (inr zoneCPU) (inr lab) (inr instances) [].

(** The threshold is fetched, then the zone CPU payload does not decode. *)
Definition brokenZoneCPU : World :=
  world (inr {| CThreshold := 85 |}) (inl "invalid character") (inr lab) (inr instances)
        [entry "a1" "A" "1000"].

(** Local zone "A" at 95%, remote zone "B" at 40% with a node running hotter than "B"
    and one running cooler; the CPU signals count as fresh. *)
Definition zoneA : ServiceZone.t := zoneOf "A" 95 [node "a1" "A" 1000 95].
Definition zoneB : ServiceZone.t :=
  zoneOf "B" 40 [node "b1" "B" 1000 40; node "b2" "B" 1000 80; node "b3" "B" 1000 10].
Definition spilling : ConsulResolver := building [zoneA; zoneB] (Some zoneA) ∅ true.

(** Scenario S5: "n1" is cached with factor 800, "n2" has just joined. *)
Definition zoneS5 : ServiceZone.t :=
  zoneOf "A" 50 [node "n1" "A" 1000 50; node "n2" "A" 1000 50].
Definition joining : ConsulResolver :=
  building [zoneS5] (Some zoneS5) {["n1" := 800]} false.

(** The resolver once the pool of [spilling] is published, and that pool: factors
    1000, 120, 144 and 96, all weights 0. *)
Definition serving : ConsulResolver := after (updateCandidatePool spilling).
Definition servingPool : CandidatePool.t :=
  default CandidatePool.new (candidatePool serving).
Definition servingMetric : ConsulResolverMetric :=
  {| candidatePoolSize := 4; crossZoneNum := 0; selectNum := 0 |}.
End Scenario.

(** ** Vocabulary of the selector *)

(** The scan of the loop of [SelectNode] over the updated weights [ws], from position
    [i] with the current [idx] and [max]. *)
Fixpoint firstMax (ws : list float64) (i idx : nat) (max : float64) : nat * float64 :=
  match ws with
  | [] => (idx, max)
  | w :: ws' => if flt max w then firstMax ws' (S i) i w else firstMax ws' (S i) idx max
  end.

(** [k] is the smallest index at which [ws] attains its maximum, [wk]. *)
Definition first_maximum (ws : list float64) (k : nat) (wk : float64) : Prop :=
  ws !! k = Some wk
  ∧ (∀ j wj, ws !! j = Some wj → wj <= wk)
  ∧ (∀ j wj, (j < k)%nat → ws !! j = Some wj → wj < wk).

Definition total (l : list float64) : float64 := foldr Qplus 0 l.

(** What every published pool satisfies, and every call of [SelectNode] keeps. *)
Record selectable (p : CandidatePool.t) : Prop := {
  sel_nodes : length (CandidatePool.Nodes p) = length (CandidatePool.Factors p);
  sel_weights : length (CandidatePool.Factors p) = length (CandidatePool.Weights p);
  sel_positive : Forall (λ f, 0 < f) (CandidatePool.Factors p);
  sel_sum : CandidatePool.FactorSum p == total (CandidatePool.Factors p);
  sel_credit : total (CandidatePool.Weights p) == 0
}.

(** The pool after a selection of index [k] with updated weight [wk]. *)
Definition selected (p : CandidatePool.t) (k : nat) (wk : float64) : CandidatePool.t :=
  {| CandidatePool.Nodes := CandidatePool.Nodes p;
     CandidatePool.Factors := CandidatePool.Factors p;
     CandidatePool.Weights :=
       <[k := wk - CandidatePool.FactorSum p]>
         (zip_with Qplus (CandidatePool.Weights p) (CandidatePool.Factors p));
     CandidatePool.FactorSum := CandidatePool.FactorSum p |}.

(** The metric after a selection of [node]. *)
Definition counted (zone : string) (node : ServiceNode.t) (cm : ConsulResolverMetric)
    : ConsulResolverMetric :=
  {| candidatePoolSize := candidatePoolSize cm;
     crossZoneNum := if negb (String.eqb (ServiceNode.Zone node) zone)
                     then wrap_int (crossZoneNum cm + 1) else crossZoneNum cm;
     selectNum := wrap_int (selectNum cm + 1) |}.

(** [n] calls of [SelectNode] in a row, with what each returned. *)
Fixpoint selectMany (n : nat) : M (list (option ServiceNode.t)) :=
  match n with
  | O => mret []
  | S n => node ← SelectNode; rest ← selectMany n; mret (node :: rest)
  end.

(** The indices [n] successive selections fall on, read off the pool alone. *)
Fixpoint picks (n : nat) (p : CandidatePool.t) : list nat :=
  match n with
  | O => []
  | S n =>
      let ws := zip_with Qplus (CandidatePool.Weights p) (CandidatePool.Factors p) in
      let k := (firstMax ws 0 0 0).1 in
      k :: picks n (selected p k (default 0 (ws !! k)))
  end.

(** How often index [i] occurs in [ks]. *)
Definition times (i : nat) (ks : list nat) : nat := length (filter (λ k, k = i) ks).

(** A natural number as a [float64]. *)
Definition ofNat (n : nat) : float64 := inject_Z (Z.of_nat n).

(** ** Frames *)

(** A computation that leaves the resolver as it found it. *)
Definition readonly {A} (m : M A) : Prop := ∀ r a r', m r = Normal a r' → r' = r.

(** A step that touches nothing but the factor cache. *)
Definition cache_only (r r' : ConsulResolver) : Prop :=
  r' = set_balanceFactorCache (balanceFactorCache r') r.

(** A step that touches nothing but the instance factor map. *)
Definition ifm_only (r r' : ConsulResolver) : Prop :=
  r' = set_instanceFactorMap (instanceFactorMap r') r.

(** A step that touches nothing but [localZone]. *)
Definition lz_only (r r' : ConsulResolver) : Prop := r' = set_localZone (localZone r') r.

(** The running credit of smooth weighted round-robin: after the selections [hist],
    weight [i] is the factor times the number of selections, less [S] for each time
    index [i] was chosen. *)
Definition credited (S : float64) (fs ws : list float64) (hist : list nat) : Prop :=
  ∀ i w f, ws !! i = Some w → fs !! i = Some f →
    w == ofNat (length hist) * f - S * ofNat (times i hist).

(** [m] returns from [r] without changing it. *)
Definition steady {A} (r : ConsulResolver) (m : M A) : Prop := ∃ a, m r = Normal a r.

(** What the builder needs of the resolver: a logger, the hyperparameters and a local
    zone. *)
Definition equipped (lg : Logger) (ol : OnlineLab) (lz : ServiceZone.t) (r : ConsulResolver)
    : Prop :=
  logger r = Some lg ∧ onlineLab r = Some ol ∧ localZone r = Some lz.

(** [zoneStep] with the warm-start input of the local nodes fixed at 0, the value
    [localAvgFactor] is declared with: the loop body as it would read if the branch
    [else if localAvgFactor > 0] were not there. *)
Definition zoneStepCold (localZone : option ServiceZone.t) (factorCached : bool)
    (st : CandidatePool.t * float64) (serviceZone : ServiceZone.t)
    : M (CandidatePool.t * float64) :=
  let '(candidatePool, localAvgFactor) := st in
  rlz ← r_localZone;
  rlz ← deref rlz;
  if String.eqb (ServiceZone.Zone rlz) (ServiceZone.Zone serviceZone) then
    log;;
    candidatePool ← forM (localNode factorCached 0 serviceZone)
                         (ServiceZone.Nodes serviceZone) candidatePool;
    if (0 <? length (CandidatePool.Factors candidatePool))%nat then
      let localAvgFactor :=
        CandidatePool.FactorSum candidatePool
        / inject_Z (Z.of_nat (length (CandidatePool.Factors candidatePool))) in
      log;; mret (candidatePool, localAvgFactor)
    else mret (candidatePool, localAvgFactor)
  else
    ol ← the_onlineLab;
    if CrossZone ol then
      log;;
      candidatePool ← forM (crossNode localZone serviceZone)
                           (ServiceZone.Nodes serviceZone) candidatePool;
      mret (candidatePool, localAvgFactor)
    else mret (candidatePool, localAvgFactor).

(** What the config fetches leave alone of what the topology refresh reads. *)
Definition topology_kept (r r' : ConsulResolver) : Prop :=
  localZone r' = localZone r ∧ zone r' = zone r ∧ service r' = service r
  ∧ lastIndex r' = lastIndex r ∧ timeout r' = timeout r.

(** * The rest of the code *)

(** ** util.Zone *)

Module util.
(** [strings.Split(s, sep)] for a separator of one byte. *)
Fixpoint Split (s : string) (sep : Ascii.ascii) : list string :=
  match s with
  | EmptyString => [EmptyString]
  | String a s' =>
      if Ascii.eqb a sep then EmptyString :: Split s' sep
      else match Split s' sep with
           | piece :: pieces => String a piece :: pieces
           | [] => [String a EmptyString]
           end
  end.

(** [out[:len(out)-1]] on a non-empty [out]. *)
Fixpoint dropLast (out : string) : string :=
  match out with
  | EmptyString => EmptyString
  | String _ EmptyString => EmptyString
  | String a out' => String a (dropLast out')
  end.

(** [Zone()], from what [exec.Command(...).Output()] answers.  [None] is the panic of
    slicing an empty output to [len(out)-1], or of indexing [kv]. *)
Definition Zone (Output : error + string) : option string :=
  match Output with
  | inl _ => Some "unknown"%string
  | inr out =>
      if (String.length out =? 0)%nat then None
      else
        let kv := Split (dropLast out) " "%char in
        if negb (length kv =? 2)%nat then Some "unknown"%string
        else kv !! 1%nat
  end.
End util.

(** The later version of the file: [Zone(cloud)] asks the metadata service of the
    cloud over HTTP. *)
Module util2.
Definition CLOUD_AWS : string := "aws".
Definition CLOUD_ALI : string := "aliyun".
Definition CLOUD_HW : string := "huawei".
Definition API_AWS_META_DATA : string :=
  "http://169.254.169.254/latest/meta-data/placement/availability-zone".
Definition API_ALI_META_DATA : string := "http://100.100.100.200/latest/meta-data/zone-id".
Definition API_HW_META_DATA : string :=
  "http://169.254.169.254/latest/meta-data/placement/availability-zone".

(** The [switch cloud] that picks the URL: the cases are tried in order, and the third
    case label is the URL constant [API_HW_META_DATA]. *)
Definition api (cloud : string) : string :=
  if String.eqb cloud CLOUD_AWS then API_AWS_META_DATA
  else if String.eqb cloud CLOUD_ALI then API_ALI_META_DATA
  else if String.eqb cloud API_HW_META_DATA then API_HW_META_DATA
  else API_AWS_META_DATA.

(** [Zone(cloud)], from what [http.DefaultClient.Do] answers for a URL: an error, or
    the body that [ioutil.ReadAll] returns. *)
Definition Zone (Do : string → error + string) (cloud : string) : string :=
  match Do (api cloud) with
  | inl _ => "unknown"
  | inr data => data
  end.
End util2.

(** Whether the byte [c] occurs in [s]. *)
Fixpoint occurs (c : Ascii.ascii) (s : string) : bool :=
  match s with
  | EmptyString => false
  | String a s' => Ascii.eqb a c || occurs c s'
  end.

(** [rand.Intn] answers within its bound. *)
Definition Intn_ok (w : World) : Prop := ∀ n, (0 < n)%Z → (0 <= Intn w n < n)%Z.

(** The world [w] with the random source answering [draw]. *)
Definition drawing (draw : Z → Z) (w : World) : World :=
  {| KV_Get := KV_Get w;
     Unmarshal_CPUThreshold := Unmarshal_CPUThreshold w;
     Unmarshal_ZoneCPUUtilizationRatio := Unmarshal_ZoneCPUUtilizationRatio w;
     Unmarshal_OnlineLab := Unmarshal_OnlineLab w;
     Unmarshal_InstanceFactor := Unmarshal_InstanceFactor w;
     Health_Service := Health_Service w;
     ParseFloat := ParseFloat w;
     Intn := draw;
     range_map := range_map w |}.

Module Fixture.
(** The hyperparameters a payload without [factorCacheExpire] decodes to. *)
Definition labWithoutExpire : OnlineLab :=
  {| CrossZone := true; CrossZoneRate := 0; FactorCacheExpire := 0;
     FactorStartRate := 0.5; LearningRate := 0.2; RateThreshold := 0.1 |}.

(** A world whose random source always answers its largest value. *)
Definition lucky : World := drawing (λ n, n - 1)%Z Scenario.healthy.

(** A registry that holds none of the keys. *)
Definition keyless : World :=
  {| KV_Get := λ _, inr None;
     Unmarshal_CPUThreshold := Unmarshal_CPUThreshold Scenario.healthy;
     Unmarshal_ZoneCPUUtilizationRatio := Unmarshal_ZoneCPUUtilizationRatio Scenario.healthy;
     Unmarshal_OnlineLab := Unmarshal_OnlineLab Scenario.healthy;
     Unmarshal_InstanceFactor := Unmarshal_InstanceFactor Scenario.healthy;
     Health_Service := Health_Service Scenario.healthy;
     ParseFloat := ParseFloat Scenario.healthy;
     Intn := Intn Scenario.healthy;
     range_map := range_map Scenario.healthy |}.

(** A resolver with a factor cache, about to run the cache expiry. *)
Definition cached : ConsulResolver :=
  Scenario.building [Scenario.zoneA; Scenario.zoneB] (Some Scenario.zoneA)
    {["a1" := 800]} false.

(** A resolver in the middle of a refresh, about to read the topology: the instance
    factor map knows "a1" only, the zone CPU map knows "A" only. *)
Definition refreshing : ConsulResolver :=
  set_zoneCPUMap {["A" := 95]}
    (set_instanceFactorMap (Some {["a1" := 50]}) (Scenario.building [] None ∅ false)).

End Fixture.

(** The last value a list of maps gives for [k]. *)
Definition lastValue (k : string) (maps : list (gmap string float64)) : option float64 :=
  last (omap (λ v : gmap string float64, v !! k) maps).

(** The last entry of an instance factor payload for [id]. *)
Definition lastEntry (id : string) (entries : list InstanceMetaInfo.t)
    : option InstanceMetaInfo.t :=
  last (filter (λ v, InstanceMetaInfo.InstanceID v = id) entries).

(** ** The grouping loop of [updateServiceZone], one step at a time *)

(** The node the grouping loop stores for the loop variable [v]: the workload 100 is
    written when the instance factor map has no entry for it. *)
Definition arrived (ifm : gmap string float64) (v : ServiceNode.t) : ServiceNode.t :=
  if ifm !! ServiceNode.InstanceID v is Some _ then v else ServiceNode.set_WorkLoad 100 v.

(** The zone the grouping loop stores under the name of [v]. *)
Definition grown (zoneCPUMap : gmap string float64) (found : option ServiceZone.t)
    (v : ServiceNode.t) : ServiceZone.t :=
  match found with
  | None =>
      {| ServiceZone.Zone := ServiceNode.Zone v;
         ServiceZone.WorkLoad := default 100 (zoneCPUMap !! ServiceNode.Zone v);
         ServiceZone.Nodes := [v] |}
  | Some sz =>
      {| ServiceZone.Zone := ServiceZone.Zone sz;
         ServiceZone.WorkLoad := ServiceZone.WorkLoad sz;
         ServiceZone.Nodes := ServiceZone.Nodes sz ++ [v] |}
  end.

(** The zone map and the instance factor map after the body of the grouping loop. *)
Definition groupStep (zoneCPUMap : gmap string float64)
    (st : gmap string ServiceZone.t * gmap string float64) (v : ServiceNode.t)
    : gmap string ServiceZone.t * gmap string float64 :=
  (<[ServiceNode.Zone v := grown zoneCPUMap (st.1 !! ServiceNode.Zone v) (arrived st.2 v)]> st.1,
   <[ServiceNode.InstanceID v := default 0 (st.2 !! ServiceNode.InstanceID v)]> st.2).

(** The nodes of a list of zones, zone after zone. *)
Definition allNodes (zones : list ServiceZone.t) : list ServiceNode.t :=
  mjoin (ServiceZone.Nodes <$> zones).

(** The invariant of the zone map: a zone sits under its own name, lists at least one
    node, carries the CPU figure of its name (100 when there is none), and every node
    it lists carries its name. *)
Definition grouped (zoneCPUMap : gmap string float64) (m : gmap string ServiceZone.t) : Prop :=
  ∀ k z, m !! k = Some z →
    ServiceZone.Zone z = k
    ∧ ServiceZone.Nodes z ≠ []
    ∧ ServiceZone.WorkLoad z = default 100 (zoneCPUMap !! k)
    ∧ ∀ node, node ∈ ServiceZone.Nodes z → ServiceNode.Zone node = k.

(** The zone names and the instance ids of the entries the registry answers. *)
Definition zoneOfEntry (w : World) (e : api.ServiceEntry) : string :=
  ServiceNode.Zone (entryNode w e).
Definition idOfEntry (w : World) (e : api.ServiceEntry) : string :=
  ServiceNode.InstanceID (entryNode w e).

(** ** The builder, entry by entry *)

(** Whether the builder takes the nodes of zone [z] into the pool. *)
Definition included (lz : ServiceZone.t) (ol : OnlineLab) (z : ServiceZone.t) : bool :=
  String.eqb (ServiceZone.Zone lz) (ServiceZone.Zone z) || CrossZone ol.

(** The nodes of [zones] in the order of the two nested loops, each with its zone. *)
Definition visited (zones : list ServiceZone.t) : list (ServiceZone.t * ServiceNode.t) :=
  zones ≫= λ z, (λ node, (z, node)) <$> ServiceZone.Nodes z.

(** The zones and nodes the builder visits on a resolver with local zone [lz] and
    hyperparameters [ol]. *)
Definition poolEntries (lz : ServiceZone.t) (ol : OnlineLab) (r : ConsulResolver)
    : list (ServiceZone.t * ServiceNode.t) :=
  visited (filter (λ z, included lz ol z = true) (serviceZones r)).

(** The cache after the writes [balanceFactorCache[node.InstanceID] = balanceFactor]
    of the entries, in order. *)
Definition cacheAfter (cache : gmap string float64)
    (entries : list (ServiceZone.t * ServiceNode.t * float64)) : gmap string float64 :=
  foldl (λ c e, <[ServiceNode.InstanceID e.1.2 := e.2]> c) cache entries.

(** [p'] is [p] with the entries appended. *)
Definition built (p p' : CandidatePool.t)
    (entries : list (ServiceZone.t * ServiceNode.t * float64)) : Prop :=
  CandidatePool.Nodes p'
  = CandidatePool.Nodes p ++ ((λ e, ServiceNode.set_CurrentFactor e.2 e.1.2) <$> entries)
  ∧ CandidatePool.Factors p' = CandidatePool.Factors p ++ entries.*2
  ∧ CandidatePool.Weights p' = CandidatePool.Weights p ++ replicate (length entries) 0
  ∧ CandidatePool.FactorSum p' = foldl Qplus (CandidatePool.FactorSum p) entries.*2.

(** Every entry satisfies [Q] on the resolver as it was when the entry was computed:
    the cache holds the writes of the entries before it. *)
Definition justified (Q : ServiceZone.t → ConsulResolver → ServiceNode.t → float64 → Prop)
    (r : ConsulResolver) (entries : list (ServiceZone.t * ServiceNode.t * float64)) : Prop :=
  ∀ i e, entries !! i = Some e →
    Q e.1.1 (set_balanceFactorCache (cacheAfter (balanceFactorCache r) (take i entries)) r)
      e.1.2 e.2.

(** The two clamps, as values. *)
Definition clampL (x : float64) : float64 :=
  if flt BALANCEFACTOR_MAX_LOCAL x then BALANCEFACTOR_MAX_LOCAL
  else if flt x BALANCEFACTOR_MIN_LOCAL then BALANCEFACTOR_MIN_LOCAL
  else x.

Definition clampC (x : float64) : float64 :=
  if flt BALANCEFACTOR_MAX_CROSS x then BALANCEFACTOR_MAX_CROSS
  else if flt x BALANCEFACTOR_MIN_CROSS then BALANCEFACTOR_MIN_CROSS
  else x.

(** The spill gate on the workload [local] of the local zone and the workload [other]
    of the zone at hand: the zones are not balanced, the local zone is above the
    threshold, and it is busier than the other one. *)
Definition gateOpen (ol : OnlineLab) (cpuThreshold : float64) (local other : float64) : bool :=
  negb (flt (Qabs (local - other) / 100) (RateThreshold ol * 2))
  && flt cpuThreshold local
  && flt other local.

(** What the builder computes for a node while [zoneCPUUpdated] is off.  In the local
    zone: the declared factor when the cache was empty at the start, the cached factor
    when the node has one, each clamped.  In another zone: a tenth of the cached (or
    else declared) factor, clamped, when the spill gate is open, and the minimum 1
    when it is closed. *)
Definition unlearned (lz : ServiceZone.t) (ol : OnlineLab) (factorCached : bool)
    (z : ServiceZone.t) (r : ConsulResolver) (node : ServiceNode.t) (bf : float64) : Prop :=
  zoneCPUUpdated r = false →
  if String.eqb (ServiceZone.Zone lz) (ServiceZone.Zone z)
  then (factorCached = false → bf = clampL (ServiceNode.BalanceFactor node))
       ∧ (∀ c, factorCached = true →
            balanceFactorCache r !! ServiceNode.InstanceID node = Some c → bf = clampL c)
  else bf = if gateOpen ol (cpuThreshold r) (ServiceZone.WorkLoad lz) (ServiceZone.WorkLoad z)
            then clampC (default (ServiceNode.BalanceFactor node)
                           (balanceFactorCache r !! ServiceNode.InstanceID node)
                         * BALANCEFACTOR_CROSS_RATE)
            else BALANCEFACTOR_MIN_CROSS.

(** What the builder starts a node of the local zone from when the cache is not empty
    and has no entry for the node, while [zoneCPUUpdated] is off: [localAvgFactor] as
    it is at that turn ([avg]) when it is positive, and otherwise the declared factor
    times [FactorStartRate]. *)
Definition seeded (lz : ServiceZone.t) (ol : OnlineLab) (factorCached : bool)
    (avg : float64) (z : ServiceZone.t) (r : ConsulResolver) (node : ServiceNode.t)
    (bf : float64) : Prop :=
  zoneCPUUpdated r = false →
  String.eqb (ServiceZone.Zone lz) (ServiceZone.Zone z) = true →
  factorCached = true →
  balanceFactorCache r !! ServiceNode.InstanceID node = None →
  bf = clampL (if flt 0 avg then avg
               else ServiceNode.BalanceFactor node * FactorStartRate ol).

(** What holds of every entry: the factor is within the range of its zone, and it is
    the unlearned one while [zoneCPUUpdated] is off. *)
Definition accounted (lz : ServiceZone.t) (ol : OnlineLab) (factorCached : bool)
    (z : ServiceZone.t) (r : ConsulResolver) (node : ServiceNode.t) (bf : float64) : Prop :=
  unlearned lz ol factorCached z r node bf
  ∧ inRange (String.eqb (ServiceZone.Zone lz) (ServiceZone.Zone z)) bf.

Definition explained (lz : ServiceZone.t) (ol : OnlineLab) (factorCached : bool)
    (avg : float64) (z : ServiceZone.t) (r : ConsulResolver) (node : ServiceNode.t)
    (bf : float64) : Prop :=
  accounted lz ol factorCached z r node bf ∧ seeded lz ol factorCached avg z r node bf.

(** The metric the builder leaves: the pool size, and the counters as they were. *)
Definition sized (n : nat) (metric : option ConsulResolverMetric) : ConsulResolverMetric :=
  {| candidatePoolSize := Z.of_nat n;
     crossZoneNum := default 0%Z (crossZoneNum <$> metric);
     selectNum := default 0%Z (selectNum <$> metric) |}.

(** The nodes the zone map lists under the name [k]. *)
Definition nodesAt (m : gmap string ServiceZone.t) (k : string) : list ServiceNode.t :=
  default [] (ServiceZone.Nodes <$> m !! k).

(** A node as its registry entry describes it: without the workload the topology
    refresh and the factor the builder write on it. *)
Definition unweighted (node : ServiceNode.t) : ServiceNode.t :=
  ServiceNode.set_CurrentFactor 0 (ServiceNode.set_WorkLoad 0 node).

(** The resolver once the four config fetches have stored what they decoded. *)
Definition configured (ct : CPUThreshold) (zc : ZoneCPUUtilizationRatio.t) (ol : OnlineLab)
    (ifa : InstanceFactor.t) (r : ConsulResolver) : ConsulResolver :=
  set_instanceFactorMap (Some (instanceFactorMapOf ifa))
    (set_onlineLab (Some ol)
       (set_zoneCPUMap (zoneCPUMapOf zc) (set_cpuThreshold (CThreshold ct) r))).

(** ** Sequences of calls *)

(** The calls a user of the resolver, and its background task, make on it. *)
Inductive call :=
| CallSetLogger (logger : option Logger)
| CallSetZone (zone : string)
| CallStart (w : World)
| CallTick (w : World)
| CallSelectNode.

Definition perform (c : call) : M unit :=
  match c with
  | CallSetLogger logger => SetLogger logger
  | CallSetZone zone => SetZone zone
  | CallStart w => _ ← Start w; mret tt
  | CallTick w => backgroundCycle w
  | CallSelectNode => _ ← SelectNode; mret tt
  end.

(** The calls one after the other. *)
Definition session (calls : list call) : M unit := forM (λ _ c, perform c) calls tt.

(** A computation that leaves the part [proj] of the resolver as it found it. *)
Definition keeps {A B} (proj : ConsulResolver → B) (m : M A) : Prop :=
  ∀ r a r', m r = Normal a r' → proj r' = proj r.

(** What the constructor is given, and the flag [zoneCPUUpdated]. *)
Definition fixedPart (r : ConsulResolver) :=
  (address r, service r, cpuThresholdKey r, zoneCPUKey r, instanceFactorKey r,
   onlineLabKey r, interval r, timeout r, zoneCPUUpdated r).

(** ** Runs of the selector *)

(** The pool after [n] selections, read off the pool alone. *)
Fixpoint poolAfter (n : nat) (p : CandidatePool.t) : CandidatePool.t :=
  match n with
  | O => p
  | S n =>
      let ws := zip_with Qplus (CandidatePool.Weights p) (CandidatePool.Factors p) in
      let k := (firstMax ws 0 0 0).1 in
      poolAfter n (selected p k (default 0 (ws !! k)))
  end.

(** The metric after the selections that answered [answers]. *)
Definition metricAfter (zone : string) (answers : list (option ServiceNode.t))
    (cm : ConsulResolverMetric) : ConsulResolverMetric :=
  foldl (λ cm answer, if answer is Some node then counted zone node cm else cm) cm answers.

(** How many of the answers are nodes of a zone other than [zone]. *)
Definition crossings (zone : string) (answers : list (option ServiceNode.t)) : nat :=
  length (filter (λ node, ServiceNode.Zone node ≠ zone) (omap id answers)).

(** A machine integer. *)
Definition is_int (z : Z) : Prop := (- 2 ^ 63 <= z < 2 ^ 63)%Z.


(** * Proofs *)

(** ** Comparisons *)

Lemma flt_true (a b : Q) : flt a b = true ↔ a < b.
Proof.
  unfold flt. rewrite negb_true_iff. split; intros H.
  - apply Qnot_le_lt. intros Hle. apply Qle_bool_iff in Hle. congruence.
  - destruct (Qle_bool b a) eqn:E; [|done].
    apply Qle_bool_iff in E. exfalso. eapply Qlt_not_le; eauto.
Qed.

Lemma flt_false (a b : Q) : flt a b = false ↔ b <= a.
Proof.
  unfold flt. rewrite negb_false_iff. apply Qle_bool_iff.
Qed.

(** ** Running the monad *)

Lemma bind_Normal {A B} (m : M A) (k : A → M B) r b r2 :
  (m ≫= k) r = Normal b r2 ↔ ∃ a r1, m r = Normal a r1 ∧ k a r1 = Normal b r2.
Proof.
  unfold mbind, M_bind. destruct (m r) as [a r1|]; split.
  - eauto.
  - by intros (? & ? & [= -> ->] & ?).
  - done.
  - by intros (? & ? & ? & ?).
Qed.

Lemma readonly_ret {A} (a : A) : readonly (mret a).
Proof. by intros r a' r' [= _ ->]. Qed.

Lemma readonly_panic {A} : readonly (@panic A).
Proof. by intros r a r'. Qed.

Lemma readonly_gets {A} (f : ConsulResolver → A) : readonly (gets f).
Proof. by intros r a r' [= _ ->]. Qed.

Lemma readonly_bind {A B} (m : M A) (k : A → M B) :
  readonly m → (∀ a, readonly (k a)) → readonly (m ≫= k).
Proof.
  intros Hm Hk r b r2 (a & r1 & H1 & H2)%bind_Normal.
  apply Hm in H1 as ->. by apply Hk in H2.
Qed.

Lemma readonly_deref {A} (p : option A) : readonly (deref p).
Proof. destruct p; [apply readonly_ret | apply readonly_panic]. Qed.

Lemma readonly_if {A} (b : bool) (m1 m2 : M A) :
  readonly m1 → readonly m2 → readonly (if b then m1 else m2).
Proof. by destruct b. Qed.

Create HintDb readonly.
Create HintDb steady.
#[local] Hint Resolve readonly_ret readonly_panic readonly_gets readonly_deref
  readonly_if : readonly.
#[local] Hint Extern 2 (readonly (_ ≫= _)) => apply readonly_bind; [|intros ?] : readonly.
#[local] Hint Extern 2 (readonly (match ?x with _ => _ end)) => destruct x : readonly.

Lemma readonly_log : readonly log.
Proof. unfold log. auto with readonly. Qed.

Lemma readonly_the_onlineLab : readonly the_onlineLab.
Proof. unfold the_onlineLab. auto with readonly. Qed.
#[local] Hint Resolve readonly_log readonly_the_onlineLab : readonly.

Lemma readonly_nodeBalanced node zone : readonly (nodeBalanced node zone).
Proof. unfold nodeBalanced. auto with readonly. Qed.

Lemma readonly_zoneBalanced lz cz : readonly (zoneBalanced lz cz).
Proof. unfold zoneBalanced. auto with readonly. Qed.
#[local] Hint Resolve readonly_nodeBalanced readonly_zoneBalanced : readonly.

Lemma readonly_spillGate lz sz : readonly (spillGate lz sz).
Proof. unfold spillGate. auto with readonly. Qed.
#[local] Hint Resolve readonly_spillGate : readonly.

Lemma readonly_localStart fc avg node : readonly (localStart fc avg node).
Proof. unfold localStart. auto 10 with readonly. Qed.

Lemma readonly_localNudge sz node bf : readonly (localNudge sz node bf).
Proof. unfold localNudge. auto 10 with readonly. Qed.

Lemma readonly_clampLocal bf : readonly (clampLocal bf).
Proof. unfold clampLocal. auto 10 with readonly. Qed.

Lemma readonly_clampCross bf : readonly (clampCross bf).
Proof. unfold clampCross. auto 10 with readonly. Qed.

Lemma readonly_crossStart lz sz node : readonly (crossStart lz sz node).
Proof. unfold crossStart. auto 10 with readonly. Qed.

Lemma readonly_crossNodeNudge sz node bf : readonly (crossNodeNudge sz node bf).
Proof. unfold crossNodeNudge. auto 10 with readonly. Qed.
#[local] Hint Resolve readonly_crossNodeNudge : readonly.

Lemma readonly_crossNudge lz sz node bf : readonly (crossNudge lz sz node bf).
Proof. unfold crossNudge. auto 12 with readonly. Qed.

(** ** The node loops *)

Lemma clampLocal_range bf r y r' :
  clampLocal bf r = Normal y r' → inRange true y.
Proof.
  unfold clampLocal, inRange, BALANCEFACTOR_MAX_LOCAL, BALANCEFACTOR_MIN_LOCAL.
  destruct (flt 3000 bf) eqn:Hmax.
  - intros (? & ? & _ & [= <- _])%bind_Normal. split; lra.
  - apply flt_false in Hmax. destruct (flt bf 200) eqn:Hmin.
    + intros (? & ? & _ & [= <- _])%bind_Normal. split; lra.
    + apply flt_false in Hmin. by intros [= <- _].
Qed.

Lemma clampCross_range bf r y r' :
  clampCross bf r = Normal y r' → inRange false y.
Proof.
  unfold clampCross, inRange, BALANCEFACTOR_MAX_CROSS, BALANCEFACTOR_MIN_CROSS.
  destruct (flt 1000 bf) eqn:Hmax.
  - intros (? & ? & _ & [= <- _])%bind_Normal. split; lra.
  - apply flt_false in Hmax. destruct (flt bf 1) eqn:Hmin.
    + intros (? & ? & _ & [= <- _])%bind_Normal. split; lra.
    + apply flt_false in Hmin. by intros [= <- _].
Qed.

Lemma writeCurrentFactor_snoc bf nodes node :
  writeCurrentFactor bf (nodes ++ [node]) = nodes ++ [ServiceNode.set_CurrentFactor bf node].
Proof.
  unfold writeCurrentFactor. rewrite reverse_snoc. by rewrite reverse_involutive.
Qed.

Lemma appendFactor_appendNode p node bf :
  appended p (appendFactor bf (appendNode node p)) node bf.
Proof.
  unfold appended, appendFactor, appendNode; simpl.
  by rewrite writeCurrentFactor_snoc.
Qed.

(** What [commitFactor] leaves behind: the pool entry, and the cache entry. *)
Lemma commitFactor_spec node bf p r p' r' :
  commitFactor node bf p r = Normal p' r' →
  p' = appendFactor bf p
  ∧ r' = set_balanceFactorCache (<[ServiceNode.InstanceID node := bf]> (balanceFactorCache r)) r.
Proof.
  unfold commitFactor.
  intros (c & r1 & [= <- <-] & (u & r2 & [= _ <-] & (u' & r3 & Hlog & [= <- <-])%bind_Normal
    )%bind_Normal)%bind_Normal.
  by apply readonly_log in Hlog as ->.
Qed.

Lemma cache_only_refl r : cache_only r r.
Proof. by destruct r. Qed.

Lemma cache_only_trans r1 r2 r3 : cache_only r1 r2 → cache_only r2 r3 → cache_only r1 r3.
Proof. unfold cache_only. intros H12 H23. rewrite H23 at 1. by rewrite H12 at 1. Qed.

Lemma cache_only_set c r : cache_only r (set_balanceFactorCache c r).
Proof. done. Qed.

Lemma localNode_spec fc avg sz p node r p' r' :
  localNode fc avg sz p node r = Normal p' r' →
  ∃ bf, appended p p' node bf ∧ inRange true bf ∧ cache_only r r'.
Proof.
  unfold localNode.
  intros (b1 & r1 & H1 & (b2 & r2 & H2 & (b3 & r3 & H3 & H4)%bind_Normal)%bind_Normal)%bind_Normal.
  apply readonly_localStart in H1 as ->. apply readonly_localNudge in H2 as ->.
  pose proof (clampLocal_range _ _ _ _ H3) as Hrange.
  apply readonly_clampLocal in H3 as ->.
  apply commitFactor_spec in H4 as [-> ->].
  exists b3. split_and!; [apply appendFactor_appendNode | done | apply cache_only_set].
Qed.

Lemma crossNode_spec lz sz p node r p' r' :
  crossNode lz sz p node r = Normal p' r' →
  ∃ bf, appended p p' node bf ∧ inRange false bf ∧ cache_only r r'.
Proof.
  unfold crossNode.
  intros (b1 & r1 & H1 & (b2 & r2 & H2 & (b3 & r3 & H3 & H4)%bind_Normal)%bind_Normal)%bind_Normal.
  apply readonly_crossStart in H1 as ->. apply readonly_crossNudge in H2 as ->.
  pose proof (clampCross_range _ _ _ _ H3) as Hrange.
  apply readonly_clampCross in H3 as ->.
  apply commitFactor_spec in H4 as [-> ->].
  exists b3. split_and!; [apply appendFactor_appendNode | done | apply cache_only_set].
Qed.

Lemma poolInv_new P : poolInv P CandidatePool.new.
Proof. by split. Qed.

Lemma poolInv_appended P p p' node bf :
  poolInv P p → appended p p' node bf → P (ServiceNode.set_CurrentFactor bf node) bf →
  poolInv P p'.
Proof.
  intros [He Hw Hs] (Hn & Hf & Hw' & Hs') HP. split.
  - rewrite Hn, Hf. apply Forall2_app; [done|]. by repeat constructor.
  - rewrite Hw', Hn, Hw, length_app. simpl.
    by rewrite Nat.add_1_r, replicate_S_end.
  - rewrite Hs', Hf, Hs. unfold sumFactors. by rewrite foldl_snoc.
Qed.

(** A loop over nodes whose body appends one entry in the range [b] per node. *)
Lemma node_loop_inv (f : CandidatePool.t → ServiceNode.t → M CandidatePool.t) (b : bool) P :
  (∀ p node r p' r', f p node r = Normal p' r' →
     ∃ bf, appended p p' node bf ∧ inRange b bf ∧ cache_only r r') →
  ∀ nodes p r p' r',
    forM f nodes p r = Normal p' r' →
    cache_only r r'
    ∧ ((∀ node bf, node ∈ nodes → inRange b bf →
          P (ServiceNode.set_CurrentFactor bf node) bf) →
       poolInv P p → poolInv P p').
Proof.
  intros Hf nodes. induction nodes as [|node nodes IH]; intros p r p' r' Hrun.
  - injection Hrun as <- <-. split; [apply cache_only_refl | done].
  - simpl in Hrun. apply bind_Normal in Hrun as (p1 & r1 & Hstep & Hrest).
    apply Hf in Hstep as (bf & Happ & Hbf & Hr1).
    apply IH in Hrest as (Hr' & Hinv').
    split; [by eapply cache_only_trans|].
    intros HP Hinv. apply Hinv'.
    + intros node' bf' Hin. apply HP. by right.
    + eapply poolInv_appended; [done..|]. apply HP; [by left | done].
Qed.

(** ** The zone loop *)

Lemma cache_only_localZone r r' : cache_only r r' → localZone r' = localZone r.
Proof. by intros ->. Qed.

Lemma cache_only_fields r r' :
  cache_only r r' →
  logger r' = logger r ∧ onlineLab r' = onlineLab r ∧ metric r' = metric r
  ∧ candidatePool r' = candidatePool r ∧ serviceZones r' = serviceZones r
  ∧ zone r' = zone r ∧ cpuThreshold r' = cpuThreshold r
  ∧ zoneCPUMap r' = zoneCPUMap r ∧ instanceFactorMap r' = instanceFactorMap r.
Proof. by intros ->. Qed.

Lemma zoneStep_inv P lz0 fc p avg sz r p' avg' r' :
  zoneStep lz0 fc (p, avg) sz r = Normal (p', avg') r' →
  ∃ rlz, localZone r = Some rlz
  ∧ cache_only r r'
  ∧ ((∀ node bf, node ∈ ServiceZone.Nodes sz →
        inRange (String.eqb (ServiceZone.Zone rlz) (ServiceZone.Zone sz)) bf →
        P (ServiceNode.set_CurrentFactor bf node) bf) →
     poolInv P p → poolInv P p').
Proof.
  unfold zoneStep, r_localZone.
  intros (o & r1 & [= <- <-] & (rlz & r2 & Hd & H)%bind_Normal)%bind_Normal.
  destruct (localZone r) as [rlz'|] eqn:Hlz; [|done].
  injection Hd as Hrlz Hr2. subst rlz' r2. exists rlz. split; [done|].
  destruct (String.eqb _ _) eqn:Hlocal.
  - apply bind_Normal in H as (u & r3 & Hlog & (p1 & r4 & Hloop & H)%bind_Normal).
    apply readonly_log in Hlog as ->.
    assert (p' = p1 ∧ r' = r4) as [-> ->].
    { destruct (_ <? _)%nat.
      - apply bind_Normal in H as (? & ? & Hlog & [= <- _ <-]).
        by apply readonly_log in Hlog as ->.
      - by injection H as <- _ <-. }
    eapply (node_loop_inv _ true P) in Hloop as [? ?]; [done | apply localNode_spec].
  - apply bind_Normal in H as (ol & r3 & Hol & H).
    apply readonly_the_onlineLab in Hol as ->.
    destruct (CrossZone ol).
    + apply bind_Normal in H as (u & r3 & Hlog & (p1 & r4 & Hloop & [= <- _ <-])%bind_Normal).
      apply readonly_log in Hlog as ->.
      eapply (node_loop_inv _ false P) in Hloop as [? ?]; [done | apply crossNode_spec].
    + injection H as <- _ <-. split; [apply cache_only_refl | done].
Qed.

Lemma zone_loop_inv P lz0 fc zones :
  ∀ p avg r p' avg' r',
    forM (zoneStep lz0 fc) zones (p, avg) r = Normal (p', avg') r' →
    cache_only r r'
    ∧ ((∀ rlz z node bf, localZone r = Some rlz → z ∈ zones → node ∈ ServiceZone.Nodes z →
          inRange (String.eqb (ServiceZone.Zone rlz) (ServiceZone.Zone z)) bf →
          P (ServiceNode.set_CurrentFactor bf node) bf) →
       poolInv P p → poolInv P p').
Proof.
  induction zones as [|z zones IH]; intros p avg r p' avg' r' Hrun.
  - injection Hrun as <- _ <-. split; [apply cache_only_refl | done].
  - simpl in Hrun. apply bind_Normal in Hrun as ([p1 avg1] & r1 & Hstep & Hrest).
    apply (zoneStep_inv P) in Hstep as (rlz & Hlz & Hr1 & Hinv1).
    apply IH in Hrest as (Hr' & Hinv').
    split; [by eapply cache_only_trans|].
    intros HP Hinv. apply Hinv'.
    + intros rlz' z' node bf Hlz'. rewrite (cache_only_localZone _ _ Hr1) in Hlz'.
      intros Hz'. apply HP; [done | by right].
    + apply Hinv1; [|done]. intros node bf. apply HP; [done | by left].
Qed.

(** When no local zone is known, the zone loop either has nothing to do or panics on its
    first turn. *)
Lemma zone_loop_nil_localZone lz0 fc zones st r :
  localZone r = None →
  forM (zoneStep lz0 fc) zones st r = match zones with [] => Normal st r | _ => Panic end.
Proof.
  intros Hlz. destruct zones as [|z zones]; [done|].
  destruct st as [p avg]. simpl.
  unfold mbind, M_bind, zoneStep, r_localZone, gets. simpl. by rewrite Hlz.
Qed.

(** ** [updateCandidatePool] as a whole *)

Lemma updateCandidatePool_spec P r u r' :
  updateCandidatePool r = Normal u r' →
  ∃ p cm c,
    r' = set_candidatePool (Some p) (set_metric (Some cm) (set_balanceFactorCache c r))
    ∧ candidatePoolSize cm = Z.of_nat (length (CandidatePool.Nodes p))
    ∧ ((∀ rlz z node bf, localZone r = Some rlz → z ∈ serviceZones r →
          node ∈ ServiceZone.Nodes z →
          inRange (String.eqb (ServiceZone.Zone rlz) (ServiceZone.Zone z)) bf →
          P (ServiceNode.set_CurrentFactor bf node) bf) →
       poolInv P p).
Proof.
  unfold updateCandidatePool.
  intros (lz & r1 & [= <- <-] & (zs & r2 & [= <- <-] & (c & r3 & [= <- <-]
    & ([p avg] & r4 & Hloop & (m & r5 & [= <- <-] & (u' & r6 & Hmetric & [= _ <-])%bind_Normal
    )%bind_Normal)%bind_Normal)%bind_Normal)%bind_Normal)%bind_Normal.
  apply (zone_loop_inv P) in Hloop as [Hr4 Hinv].
  exists p.
  destruct (metric r4) as [cm|] eqn:Hm.
  - inversion Hmetric; subst r6. eexists _, (balanceFactorCache r4).
    unfold cache_only in Hr4. split_and!; [by rewrite <- Hr4 | done |].
    intros HP. apply Hinv; [done | apply poolInv_new].
  - apply bind_Normal in Hmetric as (? & r7 & Hset & Hlog).
    apply readonly_log in Hlog as ->. inversion Hset; subst r7.
    eexists _, (balanceFactorCache r4).
    unfold cache_only in Hr4. split_and!; [by rewrite <- Hr4 | done |].
    intros HP. apply Hinv; [done | apply poolInv_new].
Qed.

Lemma poolInv_lengths P p :
  poolInv P p →
  length (CandidatePool.Nodes p) = length (CandidatePool.Factors p)
  ∧ length (CandidatePool.Factors p) = length (CandidatePool.Weights p).
Proof.
  intros [He Hw _]. apply Forall2_length in He. rewrite Hw, length_replicate. lia.
Qed.

Lemma inRange_any b bf : inRange b bf → inRange true bf ∨ inRange false bf.
Proof. destruct b; auto. Qed.

(** The pool [updateCandidatePool] publishes, with every entry in one of the two ranges. *)
Lemma updateCandidatePool_publishes r u r' :
  updateCandidatePool r = Normal u r' →
  ∃ p, candidatePool r' = Some p ∧ poolInv anyRange p
       ∧ localZone r' = localZone r ∧ logger r' = logger r ∧ zone r' = zone r.
Proof.
  intros (p & cm & c & -> & _ & Hinv)%(updateCandidatePool_spec anyRange).
  exists p. split_and!; try done.
  apply Hinv. intros. by eapply inRange_any.
Qed.

(** ** [updateServiceZone] *)

Lemma ifm_only_refl r : ifm_only r r.
Proof. by destruct r. Qed.

Lemma ifm_only_trans r1 r2 r3 : ifm_only r1 r2 → ifm_only r2 r3 → ifm_only r1 r3.
Proof. unfold ifm_only. intros H12 H23. rewrite H23 at 1. by rewrite H12 at 1. Qed.

Lemma groupNode_spec m v r m' r' :
  groupNode m v r = Normal m' r' →
  ifm_only r r'
  ∧ is_Some (m' !! ServiceNode.Zone v)
  ∧ (∀ k, is_Some (m' !! k) → is_Some (m !! k) ∨ k = ServiceNode.Zone v)
  ∧ (zoneMapInv m → zoneMapInv m').
Proof.
  unfold groupNode.
  intros (ifm & r1 & [= <- <-] & (ifm' & r2 & Hd & (u & r3 & [= _ <-] & H)%bind_Normal
    )%bind_Normal)%bind_Normal.
  apply readonly_deref in Hd as ->.
  set (v' := if default ∅ (instanceFactorMap r) !! ServiceNode.InstanceID v is Some _
             then v else ServiceNode.set_WorkLoad 100 v) in *.
  assert (ServiceNode.Zone v' = ServiceNode.Zone v) as Hzone.
  { unfold v'. by destruct (_ !! _). }
  rewrite Hzone in H.
  destruct (m !! ServiceNode.Zone v) as [sz|] eqn:Hm.
  - apply bind_Normal in H as (? & ? & Hlog & [= <- <-]).
    apply readonly_log in Hlog as ->. split_and!.
    + done.
    + rewrite lookup_insert_eq. eauto.
    + intros k. rewrite lookup_insert. case_decide; auto.
    + intros Hinv k z. rewrite lookup_insert. case_decide as Hk.
      * intros [= <-]. simpl. destruct (Hinv _ _ Hm) as [Hz Hn]. subst k.
        split; [done|]. intros node [Hin | ->%list_elem_of_singleton]%elem_of_app; auto.
      * apply Hinv.
  - apply bind_Normal in H as (zmap & ? & [= <- <-] & (? & ? & Hlog & [= <- <-])%bind_Normal).
    apply readonly_log in Hlog as ->. split_and!.
    + done.
    + rewrite lookup_insert_eq. eauto.
    + intros k. rewrite lookup_insert. case_decide; auto.
    + intros Hinv k z. rewrite lookup_insert. case_decide as Hk.
      * intros [= <-]. simpl. subst k.
        split; [done|]. by intros node ->%list_elem_of_singleton.
      * apply Hinv.
Qed.

Lemma group_loop_spec nodes :
  ∀ m r m' r',
    forM groupNode nodes m r = Normal m' r' →
    ifm_only r r'
    ∧ (∀ v, v ∈ nodes → is_Some (m' !! ServiceNode.Zone v))
    ∧ (∀ k, is_Some (m !! k) → is_Some (m' !! k))
    ∧ (∀ k, is_Some (m' !! k) → is_Some (m !! k) ∨ ∃ v, v ∈ nodes ∧ k = ServiceNode.Zone v)
    ∧ (zoneMapInv m → zoneMapInv m').
Proof.
  induction nodes as [|v nodes IH]; intros m r m' r' Hrun.
  - injection Hrun as <- <-. split_and!; try done.
    + apply ifm_only_refl.
    + by intros v ?%elem_of_nil.
    + auto.
  - simpl in Hrun. apply bind_Normal in Hrun as (m1 & r1 & Hstep & Hrest).
    pose proof Hstep as Hmono.
    apply groupNode_spec in Hstep as (Hr1 & Hv & Hkeys & Hinv).
    apply IH in Hrest as (Hr' & Hall & Hkeep & Hkeys' & Hinv').
    assert (∀ k, is_Some (m !! k) → is_Some (m1 !! k)) as Hkeep1.
    { clear -Hmono. unfold groupNode in Hmono.
      apply bind_Normal in Hmono as (ifm & r1' & [= <- <-] & (ifm' & r2 & Hd & (u & r3 & [= _ <-]
        & H)%bind_Normal)%bind_Normal).
      intros k Hk.
      set (z := ServiceNode.Zone _) in H.
      destruct (m !! z) as [sz|] eqn:Hm.
      - apply bind_Normal in H as (? & ? & _ & [= <- _]).
        rewrite lookup_insert. by case_decide.
      - apply bind_Normal in H as (? & ? & _ & (? & ? & _ & [= <- _])%bind_Normal).
        rewrite lookup_insert. by case_decide. }
    split_and!.
    + by eapply ifm_only_trans.
    + intros v' [-> | Hin]%elem_of_cons; auto.
    + auto.
    + intros k [Hk | (v' & Hin & ->)]%Hkeys'.
      * apply Hkeys in Hk as [Hk | ->]; [by left|]. right. exists v. split; [by left | done].
      * right. exists v'. split; [by right | done].
    + auto.
Qed.

Lemma lz_only_refl r : lz_only r r.
Proof. by destruct r. Qed.

Lemma lz_only_trans r1 r2 r3 : lz_only r1 r2 → lz_only r2 r3 → lz_only r1 r3.
Proof. unfold lz_only. intros H12 H23. rewrite H23 at 1. by rewrite H12 at 1. Qed.

Lemma collect_loop_spec l :
  ∀ acc r zs r',
    forM collectZone l acc r = Normal zs r' →
    zs = acc ++ l.*2
    ∧ lz_only r r'
    ∧ ((∀ kv, kv ∈ l → ServiceZone.Zone kv.2 ≠ zone r) → localZone r' = localZone r).
Proof.
  induction l as [|kv l IH]; intros acc r zs r' Hrun.
  - injection Hrun as <- <-. split_and!; [by rewrite app_nil_r | apply lz_only_refl | done].
  - simpl in Hrun. apply bind_Normal in Hrun as (acc1 & r1 & Hstep & Hrest).
    unfold collectZone in Hstep.
    apply bind_Normal in Hstep as (z & r0 & [= <- <-] & (u & r2 & Hset & [= <- <-])%bind_Normal).
    apply IH in Hrest as (-> & Hr' & Hlz).
    assert (lz_only r r2 ∧ (ServiceZone.Zone kv.2 ≠ zone r → r2 = r)) as [Hr2 Hsame].
    { destruct (String.eqb_spec (ServiceZone.Zone kv.2) (zone r)) as [Heq|Hne].
      - injection Hset as _ <-. split; [done|]. by intros [].
      - injection Hset as _ <-. split; [apply lz_only_refl | done]. }
    split_and!.
    + by rewrite <- app_assoc.
    + by eapply lz_only_trans.
    + intros Hno. rewrite Hlz.
      * rewrite Hsame; [done|]. apply Hno. by left.
      * intros kv' Hin. replace (zone r2) with (zone r) by (by rewrite Hr2).
        apply Hno. by right.
Qed.

(** What a successful [updateServiceZone] leaves behind. *)
Lemma updateServiceZone_spec w r r' :
  updateServiceZone w r = Normal None r' →
  ∃ res LastIndex m,
    Health_Service w (service r) (lastIndex r) (timeout r) = inr (res, LastIndex)
    ∧ zoneMapInv m
    ∧ (∀ k, is_Some (m !! k) ↔ ∃ e, e ∈ res ∧ k = ServiceNode.Zone (entryNode w e))
    ∧ serviceZones r' = (range_map w (map_to_list m)).*2
    ∧ ((∀ kv, kv ∈ range_map w (map_to_list m) → ServiceZone.Zone kv.2 ≠ zone r) →
       localZone r' = localZone r)
    ∧ logger r' = logger r ∧ onlineLab r' = onlineLab r ∧ zone r' = zone r
    ∧ balanceFactorCache r' = balanceFactorCache r ∧ candidatePool r' = candidatePool r
    ∧ metric r' = metric r ∧ cpuThreshold r' = cpuThreshold r
    ∧ zoneCPUUpdated r' = zoneCPUUpdated r.
Proof.
  unfold updateServiceZone.
  intros (s & r1 & [= <- <-] & (li & r2 & [= <- <-] & (t & r3 & [= <- <-] & H)%bind_Normal
    )%bind_Normal)%bind_Normal.
  destruct (Health_Service _ _ _ _) as [err | [res LastIndex]] eqn:Hh; [done|].
  apply bind_Normal in H as (u & r4 & [= _ <-] & (m & r5 & Hgroup & (zs & r6 & Hcollect
    & (u' & r7 & [= _ <-] & [= <-])%bind_Normal)%bind_Normal)%bind_Normal).
  apply group_loop_spec in Hgroup as (Hr5 & Hall & _ & Hkeys & Hinv).
  apply collect_loop_spec in Hcollect as (-> & Hr6 & Hlz).
  exists res, LastIndex, m. unfold ifm_only in Hr5. unfold lz_only in Hr6.
  split_and!; try (simpl; rewrite Hr6, Hr5; done); try done.
  - apply Hinv. intros k z. by rewrite lookup_empty.
  - intros k. split.
    + intros [Hk | (v & (e & -> & He)%list_elem_of_fmap & ->)]%Hkeys; [|by eauto].
      rewrite lookup_empty in Hk. by destruct Hk.
    + intros (e & He & ->). apply Hall. apply list_elem_of_fmap. eauto.
  - intros Hno. simpl. rewrite Hlz; [by rewrite Hr5|].
    intros kv Hin. replace (zone r5) with (zone r) by (by rewrite Hr5). by apply Hno.
Qed.


(** ** The refresh pipeline *)

Lemma log_ok r lg : logger r = Some lg → log r = Normal tt r.
Proof. unfold log, gets, mbind, M_bind. by intros ->. Qed.

Lemma log_nil r : logger r = None → log r = Panic.
Proof. unfold log, gets, mbind, M_bind. by intros ->. Qed.

Lemma log_inv r u r' : log r = Normal u r' → is_Some (logger r).
Proof. unfold log, gets, mbind, M_bind. destruct (logger r); [eauto | done]. Qed.

Lemma expire_cache_only w r u r' :
  expireBalanceFactorCache w r = Normal u r' → cache_only r r'.
Proof.
  unfold expireBalanceFactorCache.
  intros (ol & r1 & Hol & (x & r2 & Hx & H)%bind_Normal)%bind_Normal.
  apply readonly_the_onlineLab in Hol as ->.
  assert (r2 = r) as ->.
  { unfold IntPseudoRandom in Hx. destruct (_ <=? _)%Z; [done|]. by injection Hx. }
  destruct (1 =? x)%Z.
  - apply bind_Normal in H as (? & ? & [= _ <-] & Hlog).
    apply readonly_log in Hlog as ->. done.
  - injection H as _ <-. apply cache_only_refl.
Qed.

Lemma fetch_kept {A} w key (unmarshal : string → error + A) f r e r' :
  (∀ a r0, topology_kept r0 (f a r0)) →
  fetch w key unmarshal (λ x, modify (f x)) r = Normal e r' → topology_kept r r'.
Proof.
  intros Hf. unfold fetch. destruct (KV_Get w key) as [err | res].
  { by intros [= _ <-]. }
  intros (kv & r1 & ->%readonly_deref & H)%bind_Normal.
  destruct (unmarshal _) as [err | a].
  { by injection H as _ <-. }
  apply bind_Normal in H as (? & r2 & [= _ <-] & (? & r3 & ->%readonly_log & [= _ <-]
    )%bind_Normal).
  apply Hf.
Qed.

Lemma topology_kept_trans r1 r2 r3 :
  topology_kept r1 r2 → topology_kept r2 r3 → topology_kept r1 r3.
Proof. unfold topology_kept. intros (?&?&?&?&?) (?&?&?&?&?). split_and!; congruence. Qed.

(** A refresh that completes went through the four fetches, the topology refresh, the
    cache expiry and the pool builder, in that order. *)
Lemma updateAll_done w r r' :
  updateAll w r = Normal None r' →
  ∃ r0 r1 r2,
    topology_kept r r0
    ∧ updateServiceZone w r0 = Normal None r1
    ∧ expireBalanceFactorCache w r1 = Normal tt r2
    ∧ updateCandidatePool r2 = Normal tt r'
    ∧ is_Some (logger r').
Proof.
  unfold updateAll.
  intros (? & ? & ->%readonly_log & (e1 & r1 & H1 & H)%bind_Normal)%bind_Normal.
  destruct e1; [done|].
  apply bind_Normal in H as (e2 & r2 & H2 & H). destruct e2; [done|].
  apply bind_Normal in H as (e3 & r3 & H3 & H). destruct e3; [done|].
  apply bind_Normal in H as (e4 & r4 & H4 & H). destruct e4; [done|].
  apply bind_Normal in H as (e5 & r5 & Htopo & H). destruct e5; [done|].
  apply bind_Normal in H as ([] & r6 & Hexp & ([] & r7 & Hpool & (? & ? & Hlog & [= <-]
    )%bind_Normal)%bind_Normal).
  pose proof (log_inv _ _ _ Hlog) as Hlg.
  apply readonly_log in Hlog as ->.
  exists r4, r5, r6. split_and!; try done.
  unfold updateCPUThreshold in H1. apply bind_Normal in H1 as (? & ? & [= <- <-] & H1).
  unfold updateZoneCPUMap in H2. apply bind_Normal in H2 as (? & ? & [= <- <-] & H2).
  unfold updateOnlineLabFactor in H3. apply bind_Normal in H3 as (? & ? & [= <- <-] & H3).
  unfold updateInstanceFactorMap in H4. apply bind_Normal in H4 as (? & ? & [= <- <-] & H4).
  apply fetch_kept in H1, H2, H3, H4; try done.
  eauto using topology_kept_trans.
Qed.

(** ** The published pool *)

(** C6.  After a refresh that completes, a pool is published whose three sequences
    [Nodes], [Factors] and [Weights] have the same length and whose [FactorSum] is the
    sum of its [Factors]. *)
Theorem published_pool_shape (w : World) (r r' : ConsulResolver) :
  updateAll w r = Normal None r' →
  ∃ p, candidatePool r' = Some p
    ∧ length (CandidatePool.Nodes p) = length (CandidatePool.Factors p)
    ∧ length (CandidatePool.Factors p) = length (CandidatePool.Weights p)
    ∧ CandidatePool.FactorSum p = sumFactors (CandidatePool.Factors p).
Proof.
  intros (r0 & r1 & r2 & _ & _ & _ & Hpool & _)%updateAll_done.
  apply updateCandidatePool_publishes in Hpool as (p & Hp & Hinv & _).
  exists p. destruct (poolInv_lengths _ _ Hinv) as [Hnf Hfw].
  split_and!; try done. by destruct Hinv.
Qed.


(** C6 at a concrete refresh. *)
Lemma published_pool_shape_witness :
  updateAll Scenario.healthy Scenario.fresh
    = Normal None (Scenario.after (updateAll Scenario.healthy Scenario.fresh))
  ∧ ∃ p, candidatePool (Scenario.after (updateAll Scenario.healthy Scenario.fresh)) = Some p
    ∧ length (CandidatePool.Nodes p) = length (CandidatePool.Factors p)
    ∧ length (CandidatePool.Factors p) = length (CandidatePool.Weights p)
    ∧ CandidatePool.FactorSum p = sumFactors (CandidatePool.Factors p).
Proof.
  split; [by vm_compute|].
  apply (published_pool_shape Scenario.healthy Scenario.fresh). by vm_compute.
Defined.

Lemma range_ok_world ct zc ol ifa entries : range_ok (Scenario.world ct zc ol ifa entries).
Proof. by intros l. Qed.


(** ** Faults *)

(** C10.  The first statement of [updateAll] is a call on the logger: on a resolver
    whose logger is nil (as [NewConsulResolver] leaves it until [SetLogger] is called)
    a refresh panics, and with it [Start] and every cycle of the background task. *)
Theorem refresh_needs_logger (w : World) (r : ConsulResolver) :
  logger r = None →
  updateAll w r = Panic ∧ Start w r = Panic ∧ backgroundCycle w r = Panic.
Proof.
  intros Hnil.
  assert (updateAll w r = Panic) as Hall.
  { unfold updateAll, mbind, M_bind. by rewrite (log_nil _ Hnil). }
  unfold Start, backgroundCycle, mbind, M_bind. by rewrite Hall.
Qed.

(** The resolver comes out of [NewConsulResolver] without a logger. *)
Lemma NewConsulResolver_logger NewClient Zone a s k1 k2 k3 k4 i t r :
  NewConsulResolver NewClient Zone a s k1 k2 k3 k4 i t = inr r → logger r = None.
Proof. unfold NewConsulResolver. destruct NewClient; [done|]. by intros [= <-]. Qed.

Lemma NewConsulResolver_constructed :
  NewConsulResolver None "A" "consul:8500" "svc" "cpu" "zonecpu" "instance" "lab" 10 5
  = inr Scenario.constructed.
Proof. reflexivity. Qed.

(** C10 on the resolver [NewConsulResolver] returns. *)
Lemma refresh_needs_logger_witness :
  logger Scenario.constructed = None
  ∧ updateAll Scenario.healthy Scenario.constructed = Panic
  ∧ Start Scenario.healthy Scenario.constructed = Panic
  ∧ backgroundCycle Scenario.healthy Scenario.constructed = Panic.
Proof.
  split; [reflexivity|].
  apply (refresh_needs_logger Scenario.healthy Scenario.constructed). reflexivity.
Defined.

(** C9, as stated, fails when the registry lists no instance at all: no zone matches,
    no local zone was ever set, and the refresh completes with an empty pool. *)
Lemma nil_localZone_empty_registry :
  localZone Scenario.fresh = None
  ∧ ∃ r', updateAll Scenario.deserted Scenario.fresh = Normal None r'
          ∧ localZone r' = None
          ∧ candidatePool r' = Some CandidatePool.new.
Proof.
  split; [reflexivity|].
  exists (Scenario.after (updateAll Scenario.deserted Scenario.fresh)).
  by vm_compute.
Qed.

(** C9, amended.  With a nil local zone the builder panics on the first zone it visits
    (at [r.localZone.Zone], before the spill gate is reached); only when there is no
    zone to visit does it get through, and then it publishes an empty pool. *)
Theorem updateCandidatePool_nil_localZone (r : ConsulResolver) (lg : Logger) :
  localZone r = None →
  logger r = Some lg →
  (serviceZones r ≠ [] → updateCandidatePool r = Panic)
  ∧ (serviceZones r = [] →
     ∃ r', updateCandidatePool r = Normal tt r'
           ∧ candidatePool r' = Some CandidatePool.new).
Proof.
  intros Hlz Hlog. unfold updateCandidatePool, mbind, M_bind, gets. simpl.
  rewrite (zone_loop_nil_localZone _ _ _ _ _ Hlz).
  destruct (serviceZones r) as [|z zs]; split; try done; intros _.
  destruct (metric r) as [cm|]; simpl.
  - eauto.
  - unfold modify, mbind, M_bind. rewrite (log_ok _ lg); [|done]. eauto.
Qed.

(** C9, amended, on a resolver that lists zone "B" and knows no local zone. *)
Lemma updateCandidatePool_nil_localZone_witness :
  localZone (Scenario.building [Scenario.zoneB] None ∅ true) = None
  ∧ logger (Scenario.building [Scenario.zoneB] None ∅ true) = Some TheLogger
  ∧ (serviceZones (Scenario.building [Scenario.zoneB] None ∅ true) ≠ [] →
     updateCandidatePool (Scenario.building [Scenario.zoneB] None ∅ true) = Panic)
  ∧ (serviceZones (Scenario.building [Scenario.zoneB] None ∅ true) = [] →
     ∃ r', updateCandidatePool (Scenario.building [Scenario.zoneB] None ∅ true) = Normal tt r'
           ∧ candidatePool r' = Some CandidatePool.new).
Proof.
  split; [reflexivity|]. split; [reflexivity|].
  apply (updateCandidatePool_nil_localZone
           (Scenario.building [Scenario.zoneB] None ∅ true) TheLogger); reflexivity.
Defined.

(** The topology refresh leaves a nil local zone nil when no entry of the registry
    carries the resolver's zone, and lists a zone as soon as there is an entry. *)
Lemma updateServiceZone_no_local w r r' :
  range_ok w →
  updateServiceZone w r = Normal None r' →
  ∃ res li,
    Health_Service w (service r) (lastIndex r) (timeout r) = inr (res, li)
    ∧ ((∀ e, e ∈ res → ServiceNode.Zone (entryNode w e) ≠ zone r) →
       localZone r' = localZone r)
    ∧ (res ≠ [] → serviceZones r' ≠ []).
Proof.
  intros Hrange (res & li & m & Hh & Hinv & Hkeys & Hzs & Hlz & _)%updateServiceZone_spec.
  exists res, li. split_and!; [done | |].
  - intros Hno. apply Hlz. intros [k z] Hin. rewrite (Hrange _) in Hin.
    apply elem_of_map_to_list in Hin. destruct (Hinv _ _ Hin) as [Hz _]. simpl.
    destruct (proj1 (Hkeys k)) as (e & He & ->); [by eauto|].
    rewrite Hz. by apply Hno.
  - intros Hres. rewrite Hzs. destruct res as [|e res]; [done|].
    destruct (proj2 (Hkeys (ServiceNode.Zone (entryNode w e)))) as [z Hz].
    { exists e. split; [by left | done]. }
    apply elem_of_map_to_list in Hz. rewrite <- (Hrange _) in Hz.
    intros Hnil. apply fmap_nil_inv in Hnil. rewrite Hnil in Hz. by apply elem_of_nil in Hz.
Qed.

(** At the level of a whole refresh: with no local zone known, a registry that lists
    instances, none of them in the resolver's zone, never lets the refresh complete. *)
Lemma refresh_without_local_zone w r res li :
  range_ok w →
  localZone r = None →
  Health_Service w (service r) (lastIndex r) (timeout r) = inr (res, li) →
  res ≠ [] →
  (∀ e, e ∈ res → ServiceNode.Zone (entryNode w e) ≠ zone r) →
  ∀ r', updateAll w r ≠ Normal None r'.
Proof.
  intros Hrange Hlz Hh Hres Hno r'
    (r0 & r1 & r2 & (Hlz0 & Hz0 & Hs0 & Hi0 & Ht0) & Htopo & Hexp & Hpool & _)%updateAll_done.
  apply updateServiceZone_no_local in Htopo as (res' & li' & Hh' & Hkeep & Hzones); [|done].
  rewrite Hs0, Hi0, Ht0, Hh in Hh'. injection Hh' as <- <-.
  apply expire_cache_only in Hexp.
  destruct (cache_only_fields _ _ Hexp) as (_ & _ & _ & _ & Hzs & _).
  assert (localZone r2 = None) as Hnil.
  { rewrite (cache_only_localZone _ _ Hexp), Hkeep; [congruence|].
    intros e He. rewrite Hz0. by apply Hno. }
  unfold updateCandidatePool, mbind, M_bind, gets in Hpool. simpl in Hpool.
  rewrite (zone_loop_nil_localZone _ _ _ _ _ Hnil) in Hpool.
  destruct (serviceZones r2) eqn:Hz2; [|done].
  symmetry in Hzs. by apply Hzones in Hres.
Qed.

(** ** The config fetches *)

Lemma fetch_failed {A} w key (unmarshal : string → error + A) store err r :
  answer w key unmarshal = FetchFailed err →
  fetch w key unmarshal store r = Normal (Some err) r.
Proof.
  unfold answer, fetch. destruct (KV_Get w key) as [e | [kv|]]; [by intros [= ->] | | done].
  unfold mbind, M_bind. simpl. by destruct (unmarshal _); intros [= ->].
Qed.

Lemma fetch_fetched {A} w key (unmarshal : string → error + A) f a r lg :
  answer w key unmarshal = Fetched a →
  logger r = Some lg → logger (f a r) = Some lg →
  fetch w key unmarshal (λ x, modify (f x)) r = Normal None (f a r).
Proof.
  unfold answer, fetch. destruct (KV_Get w key) as [e | [kv|]]; [done | | done].
  unfold mbind, M_bind. simpl. destruct (unmarshal _); [done|]. intros [= ->] _ Hlog.
  unfold modify. by rewrite (log_ok _ lg).
Qed.

(** C3, as stated, fails: when the threshold is fetched and the zone CPU payload then
    does not decode, the refresh returns the decode error with the new threshold
    already in place. *)
Lemma partial_config_after_failure :
  ∃ err r',
    answer Scenario.brokenZoneCPU (zoneCPUKey Scenario.fresh)
           (Unmarshal_ZoneCPUUtilizationRatio Scenario.brokenZoneCPU) = FetchFailed err
    ∧ updateAll Scenario.brokenZoneCPU Scenario.fresh = Normal (Some err) r'
    ∧ cpuThreshold Scenario.fresh = 0
    ∧ cpuThreshold r' = 85
    ∧ configState r' ≠ configState Scenario.fresh.
Proof.
  exists "invalid character"%string,
         (Scenario.after (updateAll Scenario.brokenZoneCPU Scenario.fresh)).
  split_and!; [by vm_compute.. |]. by intros [= ?].
Qed.

(** C3, amended.  The four fetches run in the order threshold, zone CPU map, online
    lab, instance factor map, and each stores its value before the next one starts.
    When one of them fails the refresh returns its error at once; the resolver is then
    as it was except for the values of the fetches that came before, so the field of
    the failed fetch, those of the later ones, the topology, the factor cache and the
    published pool are untouched. *)
Theorem updateAll_config_failure (w : World) (r : ConsulResolver) (lg : Logger) (err : error) :
  logger r = Some lg →
  let threshold := answer w (cpuThresholdKey r) (Unmarshal_CPUThreshold w) in
  let zoneCPU := answer w (zoneCPUKey r) (Unmarshal_ZoneCPUUtilizationRatio w) in
  let lab := answer w (onlineLabKey r) (Unmarshal_OnlineLab w) in
  let instances := answer w (instanceFactorKey r) (Unmarshal_InstanceFactor w) in
  (threshold = FetchFailed err → updateAll w r = Normal (Some err) r)
  ∧ (∀ ct, threshold = Fetched ct → zoneCPU = FetchFailed err →
       updateAll w r = Normal (Some err) (set_cpuThreshold (CThreshold ct) r))
  ∧ (∀ ct zc, threshold = Fetched ct → zoneCPU = Fetched zc → lab = FetchFailed err →
       updateAll w r
       = Normal (Some err) (set_zoneCPUMap (zoneCPUMapOf zc)
                              (set_cpuThreshold (CThreshold ct) r)))
  ∧ (∀ ct zc ol, threshold = Fetched ct → zoneCPU = Fetched zc → lab = Fetched ol →
       instances = FetchFailed err →
       updateAll w r
       = Normal (Some err) (set_onlineLab (Some ol)
                              (set_zoneCPUMap (zoneCPUMapOf zc)
                                 (set_cpuThreshold (CThreshold ct) r)))).
Proof.
  intros Hlog. simpl.
  split_and!.
  - intros H1. unfold updateAll, mbind, M_bind. rewrite (log_ok _ lg Hlog).
    unfold updateCPUThreshold, mbind, M_bind, gets.
    by rewrite (fetch_failed _ _ _ _ _ _ H1).
  - intros ct H1 H2. unfold updateAll, mbind, M_bind. rewrite (log_ok _ lg Hlog).
    unfold updateCPUThreshold, updateZoneCPUMap, mbind, M_bind, gets.
    rewrite (fetch_fetched _ _ _ (λ ct, set_cpuThreshold (CThreshold ct)) _ _ lg H1); [|done..].
    by rewrite (fetch_failed _ _ _ _ _ _ H2).
  - intros ct zc H1 H2 H3. unfold updateAll, mbind, M_bind. rewrite (log_ok _ lg Hlog).
    unfold updateCPUThreshold, updateZoneCPUMap, updateOnlineLabFactor, mbind, M_bind, gets.
    rewrite (fetch_fetched _ _ _ (λ ct, set_cpuThreshold (CThreshold ct)) _ _ lg H1); [|done..].
    rewrite (fetch_fetched _ _ _ (λ zc, set_zoneCPUMap (zoneCPUMapOf zc)) _ _ lg H2); [|done..].
    by rewrite (fetch_failed _ _ _ _ _ _ H3).
  - intros ct zc ol H1 H2 H3 H4. unfold updateAll, mbind, M_bind. rewrite (log_ok _ lg Hlog).
    unfold updateCPUThreshold, updateZoneCPUMap, updateOnlineLabFactor,
      updateInstanceFactorMap, mbind, M_bind, gets.
    rewrite (fetch_fetched _ _ _ (λ ct, set_cpuThreshold (CThreshold ct)) _ _ lg H1); [|done..].
    rewrite (fetch_fetched _ _ _ (λ zc, set_zoneCPUMap (zoneCPUMapOf zc)) _ _ lg H2); [|done..].
    rewrite (fetch_fetched _ _ _ (λ ol, set_onlineLab (Some ol)) _ _ lg H3); [|done..].
    by rewrite (fetch_failed _ _ _ _ _ _ H4).
Qed.

(** C3, amended, on the refresh whose zone CPU payload does not decode. *)
Lemma updateAll_config_failure_witness :
  logger Scenario.fresh = Some TheLogger
  ∧ updateAll Scenario.brokenZoneCPU Scenario.fresh
    = Normal (Some "invalid character"%string) (set_cpuThreshold 85 Scenario.fresh).
Proof.
  split; [reflexivity|].
  apply (proj1 (proj2 (updateAll_config_failure Scenario.brokenZoneCPU Scenario.fresh
                         TheLogger "invalid character" eq_refl))
           {| CThreshold := 85 |}); by vm_compute.
Defined.

(** ** Where the code and the description part ways *)

(** The two node-level nudges, side by side: for a node that is out of balance and
    runs hotter than its zone, the local zone lowers the factor and the cross zone
    raises it. *)
Lemma nudges_on_a_hot_node sz node bf r ol lg :
  onlineLab r = Some ol → logger r = Some lg → zoneCPUUpdated r = true →
  nodeBalanced node sz r = Normal false r →
  ServiceZone.WorkLoad sz < ServiceNode.WorkLoad node →
  localNudge sz node bf r = Normal (bf - bf * LearningRate ol) r
  ∧ crossNodeNudge sz node bf r = Normal (bf + bf * LearningRate ol) r.
Proof.
  intros Hol Hlog Hupd Hbal Hhot%flt_true.
  unfold localNudge, crossNodeNudge, mbind, M_bind. rewrite Hbal. simpl.
  unfold gets. rewrite Hupd. simpl. unfold the_onlineLab, mbind, M_bind, gets.
  rewrite Hol. simpl. rewrite Hhot, (log_ok _ lg Hlog). done.
Qed.


(** C2 at a failing input: the instance factor map holds 50 for "a1" and nothing for
    "b1".  After the topology refresh "b1" carries 100, and "a1" carries 0, not 50. *)
Theorem workload_not_attached :
  instanceFactorMapOf Scenario.instances !! "a1"%string = Some 50
  ∧ instanceFactorMapOf Scenario.instances !! "b1"%string = None
  ∧ Scenario.workloads (Scenario.after (updateAll Scenario.healthy Scenario.fresh))
    = [("a1", 0); ("b1", 100)]%string.
Proof. by vm_compute. Qed.

(** What the grouping loop does with the workload it looked up: it is written back
    into the map, and the node keeps the zero workload it was built with. *)
Lemma groupNode_known_instance m v r ifm cpu m' r' :
  instanceFactorMap r = Some ifm →
  ifm !! ServiceNode.InstanceID v = Some cpu →
  groupNode m v r = Normal m' r' →
  ∃ z, m' !! ServiceNode.Zone v = Some z ∧ last (ServiceZone.Nodes z) = Some v.
Proof.
  intros Hifm Hcpu. unfold groupNode, mbind, M_bind, gets. rewrite Hifm. simpl.
  rewrite Hcpu. simpl. unfold modify.
  destruct (m !! ServiceNode.Zone v) as [sz|] eqn:Hm.
  - destruct (log _); [|done]. intros [= <- _]. eexists. rewrite lookup_insert_eq.
    split; [done|]. simpl. by rewrite last_snoc.
  - destruct (log _); [|done]. intros [= <- _]. eexists. rewrite lookup_insert_eq.
    split; [done|]. done.
Qed.

(** The cold start is what an uncached local node gets while [localAvgFactor] is 0,
    and [localAvgFactor] is only ever assigned after the loop over the local zone. *)
Lemma localStart_uncached node r ol lg :
  onlineLab r = Some ol → logger r = Some lg →
  balanceFactorCache r !! ServiceNode.InstanceID node = None →
  localStart true 0 node r
  = Normal (ServiceNode.BalanceFactor node * FactorStartRate ol) r.
Proof.
  intros Hol Hlog Hc. unfold localStart, mbind, M_bind, gets. rewrite Hc. simpl.
  unfold the_onlineLab, mbind, M_bind, gets. rewrite Hol. simpl.
  by rewrite (log_ok _ lg Hlog).
Qed.

(** C4 at a failing input (scenario S5): "n1" is cached at 800, "n2" is new and comes
    after it in the local zone.  "n2" is seeded with 1000 * 0.5 = 500, the declared
    factor times [FactorStartRate], and not with the local average 800. *)
Theorem new_node_is_cold_started :
  balanceFactorCache Scenario.joining !! "n2"%string = None
  ∧ Scenario.published (Scenario.after (updateCandidatePool Scenario.joining))
    = [("n1", 800); ("n2", 500)]%string.
Proof. by vm_compute. Qed.

(** ** The selector *)

(** The loop of [SelectNode], from any position: the weights seen so far are updated,
    the rest is scanned by [firstMax]. *)
Lemma select_loop fs :
  ∀ ws fpre pre idx max r,
    length pre = length fpre → length ws = length fs →
    forM (selectTurn (fpre ++ fs)) (seq (length pre) (length fs)) (pre ++ ws, idx, max) r
    = Normal (pre ++ zip_with Qplus ws fs,
              (firstMax (zip_with Qplus ws fs) (length pre) idx max).1,
              (firstMax (zip_with Qplus ws fs) (length pre) idx max).2) r.
Proof.
  induction fs as [|f fs IH]; intros ws fpre pre idx max r Hpre Hlen.
  - destruct ws; [|done]. done.
  - destruct ws as [|w ws]; [done|]. injection Hlen as Hlen. simpl.
    unfold mbind at 1, M_bind at 1. unfold selectTurn at 1.
    unfold mbind, M_bind.
    rewrite (list_lookup_middle fpre fs f (length pre) Hpre). simpl.
    rewrite (list_lookup_middle pre ws w (length pre) eq_refl). simpl.
    rewrite (insert_app_r_alt pre (w :: ws) (length pre) (w + f)); [|done].
    rewrite Nat.sub_diag. simpl.
    specialize (IH ws (fpre ++ [f]) (pre ++ [w + f])).
    rewrite !length_app, <- !app_assoc in IH. simpl in IH.
    rewrite !Nat.add_1_r in IH.
    destruct (flt max (w + f)); simpl; rewrite IH; try done; lia.
Qed.

Lemma firstMax_spec ws :
  ∀ i idx max,
    let k := (firstMax ws i idx max).1 in
    let m := (firstMax ws i idx max).2 in
    max <= m
    ∧ (∀ j wj, ws !! j = Some wj → wj <= m)
    ∧ ((k = idx ∧ m = max)
       ∨ ∃ j, k = (i + j)%nat ∧ ws !! j = Some m ∧ max < m
              ∧ ∀ j' wj', (j' < j)%nat → ws !! j' = Some wj' → wj' < m).
Proof.
  induction ws as [|w ws IH]; intros i idx max; simpl.
  - split_and!; [lra | done | by left].
  - destruct (flt max w) eqn:Hcmp.
    + apply flt_true in Hcmp.
      destruct (IH (S i) i w) as (Hle & Hall & Hk). split_and!.
      * lra.
      * intros [|j] wj; simpl; [intros [= <-]; lra | apply Hall].
      * right. destruct Hk as [[-> ->] | (j & -> & Hj & Hlt & Hbefore)].
        -- exists 0%nat. split_and!; [lia | done | done | lia].
        -- exists (S j). split_and!; [lia | done | lra |].
           intros [|j'] wj' Hj'; simpl; [intros [= <-]; lra | apply Hbefore; lia].
    + apply flt_false in Hcmp.
      destruct (IH (S i) idx max) as (Hle & Hall & Hk). split_and!.
      * done.
      * intros [|j] wj; simpl; [intros [= <-]; lra | apply Hall].
      * destruct Hk as [[-> ->] | (j & -> & Hj & Hlt & Hbefore)]; [by left|].
        right. exists (S j). split_and!; [lia | done | done |].
        intros [|j'] wj' Hj'; simpl; [intros [= <-]; lra | apply Hbefore; lia].
Qed.

Lemma total_cons w l : total (w :: l) = w + total l.
Proof. done. Qed.

Lemma total_nonpositive l : (∀ j wj, l !! j = Some wj → wj <= 0) → total l <= 0.
Proof.
  induction l as [|w l IH]; intros Hall; [done|]. rewrite total_cons.
  pose proof (Hall 0%nat w eq_refl).
  assert (total l <= 0) by (apply IH; intros j wj; apply (Hall (S j))). lra.
Qed.

Lemma total_zip_with ws fs :
  length ws = length fs → total (zip_with Qplus ws fs) == total ws + total fs.
Proof.
  revert fs. induction ws as [|w ws IH]; intros [|f fs] Hlen; try done.
  injection Hlen as Hlen. change (zip_with Qplus (w :: ws) (f :: fs))
      with ((w + f) :: zip_with Qplus ws fs).
    rewrite !total_cons, (IH _ Hlen). lra.
Qed.

Lemma total_insert l k x wk :
  l !! k = Some wk → total (<[k := x]> l) == total l - wk + x.
Proof.
  revert k. induction l as [|w l IH]; intros [|k]; try done.
  - intros [= ->]. change (<[0%nat := x]> (wk :: l)) with (x :: l).
    rewrite !total_cons. lra.
  - intros Hk. change (<[S k := x]> (w :: l)) with (w :: <[k := x]> l).
    rewrite !total_cons, (IH k Hk). lra.
Qed.

Lemma total_nonnegative fs : Forall (λ f, 0 < f) fs → 0 <= total fs.
Proof.
  induction 1 as [|f fs Hf _ IH]; [done|]. rewrite total_cons. lra.
Qed.

Lemma total_positive fs : fs ≠ [] → Forall (λ f, 0 < f) fs → 0 < total fs.
Proof.
  intros Hne Hpos. destruct fs as [|f fs]; [done|]. clear Hne.
  apply Forall_cons in Hpos as [Hf Hpos]. rewrite total_cons.
  pose proof (total_nonnegative fs Hpos). lra.
Qed.

(** On a pool that satisfies [selectable] and is not empty, the scan ends on the first
    maximum of the updated weights, and that maximum is positive. *)
Lemma firstMax_first_maximum p :
  selectable p → CandidatePool.Nodes p ≠ [] →
  let ws := zip_with Qplus (CandidatePool.Weights p) (CandidatePool.Factors p) in
  first_maximum ws (firstMax ws 0 0 0).1 (firstMax ws 0 0 0).2
  ∧ 0 < (firstMax ws 0 0 0).2.
Proof.
  intros [Hn Hw Hpos Hsum Hcredit] Hne ws.
  assert (0 < total ws) as Htotal.
  { unfold ws. rewrite total_zip_with, Hcredit by done.
    assert (0 < total (CandidatePool.Factors p)); [|lra].
    apply total_positive; [|done]. intros Hnil. rewrite Hnil in Hn.
    by destruct (CandidatePool.Nodes p). }
  destruct (firstMax_spec ws 0 0 0) as (Hle & Hall & [[Hk Hm] | (j & Hk & Hj & Hlt & Hbefore)]).
  - exfalso. pose proof (total_nonpositive ws) as Hno. rewrite Hm in Hall.
    specialize (Hno Hall). lra.
  - simpl in Hk. rewrite Hk. done.
Qed.

Lemma select_loop_whole fs ws r :
  length ws = length fs →
  forM (selectTurn fs) (seq 0 (length fs)) (ws, 0%nat, 0) r
  = Normal (zip_with Qplus ws fs,
            (firstMax (zip_with Qplus ws fs) 0 0 0).1,
            (firstMax (zip_with Qplus ws fs) 0 0 0).2) r.
Proof. intros Hlen. exact (select_loop fs ws [] [] 0%nat 0 r eq_refl Hlen). Qed.

(** [SelectNode] on a pool that is ready for it, in terms of the scan. *)
Lemma SelectNode_run r p lg cm k wk node :
  candidatePool r = Some p → logger r = Some lg → metric r = Some cm →
  length (CandidatePool.Factors p) = length (CandidatePool.Weights p) →
  CandidatePool.Nodes p ≠ [] →
  let ws := zip_with Qplus (CandidatePool.Weights p) (CandidatePool.Factors p) in
  (firstMax ws 0 0 0).1 = k → ws !! k = Some wk → CandidatePool.Nodes p !! k = Some node →
  SelectNode r
  = Normal (Some node)
      (set_metric (Some (counted (zone r) node cm))
         (set_candidatePool (Some (selected p k wk)) r)).
Proof.
  intros Hp Hlog Hm Hlen Hne ws Hk Hwk Hnode.
  unfold SelectNode. unfold mbind at 1, M_bind at 1, gets at 1. rewrite Hp.
  unfold mbind at 1, M_bind at 1. simpl.
  destruct (length (CandidatePool.Nodes p) =? 0)%nat eqn:Hz.
  { apply Nat.eqb_eq in Hz. by destruct (CandidatePool.Nodes p). }
  unfold mbind at 1, M_bind at 1.
  rewrite select_loop_whole by done.
  simpl. fold ws. rewrite Hk.
  unfold mbind, M_bind. rewrite (log_ok _ lg Hlog), Hnode. simpl.
  rewrite (log_ok _ lg Hlog), Hwk. simpl. unfold modify, gets. simpl. rewrite Hm. simpl.
  unfold log, mbind, M_bind, gets. simpl. by rewrite Hlog.
Qed.


(** A selection keeps the pool selectable. *)
Lemma selected_selectable p k wk :
  selectable p →
  zip_with Qplus (CandidatePool.Weights p) (CandidatePool.Factors p) !! k = Some wk →
  selectable (selected p k wk).
Proof.
  intros [Hn Hw Hpos Hsum Hcredit] Hk. split; simpl; try done.
  - rewrite length_insert, length_zip_with. lia.
  - rewrite (total_insert _ _ _ _ Hk), total_zip_with by done. lra.
Qed.


Lemma total_replicate n : total (replicate n 0) == 0.
Proof.
  induction n as [|n IH]; [done|]. change (0 + total (replicate n 0) == 0). lra.
Qed.


(** ** Smooth weighted round-robin over a static pool *)

Lemma selectMany_picks n :
  ∀ r p lg cm,
    candidatePool r = Some p → logger r = Some lg → metric r = Some cm →
    selectable p → CandidatePool.Nodes p ≠ [] →
    ∃ r', selectMany n r = Normal ((λ k, CandidatePool.Nodes p !! k) <$> picks n p) r'.
Proof.
  induction n as [|n IH]; intros r p lg cm Hp Hlog Hm Hsel Hne; [by eexists|].
  simpl. set (ws := zip_with Qplus (CandidatePool.Weights p) (CandidatePool.Factors p)).
  set (k := (firstMax ws 0 0 0).1).
  destruct (firstMax_first_maximum p Hsel Hne) as [(Hk & _) _]. fold ws k in Hk.
  rewrite Hk. simpl.
  assert (is_Some (CandidatePool.Nodes p !! k)) as [node Hnode].
  { apply lookup_lt_is_Some. apply lookup_lt_Some in Hk.
    unfold ws in Hk. rewrite length_zip_with in Hk. destruct Hsel as [Hn Hw _ _ _]. lia. }
  pose proof (sel_weights _ Hsel) as Hw.
  unfold mbind at 1, M_bind at 1.
  rewrite (SelectNode_run r p lg cm k _ node Hp Hlog Hm Hw Hne eq_refl Hk Hnode).
  edestruct (IH (set_metric (Some (counted (zone r) node cm))
                   (set_candidatePool (Some (selected p k (firstMax ws 0 0 0).2)) r))
                (selected p k (firstMax ws 0 0 0).2) lg) as [r' Hrest];
    [done | done | done | by apply selected_selectable | done |].
  exists r'. unfold mbind, M_bind. rewrite Hrest. by rewrite Hnode.
Qed.

Lemma times_cons i k ks :
  times i (k :: ks) = ((if decide (k = i) then 1 else 0) + times i ks)%nat.
Proof. unfold times. rewrite filter_cons. by case_decide. Qed.

Lemma ofNat_S n : ofNat (S n) == ofNat n + 1.
Proof. unfold ofNat. rewrite Nat2Z.inj_succ, <- Z.add_1_r, inject_Z_plus. done. Qed.

Lemma ofNat_mult a b : ofNat (a * b) == ofNat a * ofNat b.
Proof. unfold ofNat. by rewrite Nat2Z.inj_mul, inject_Z_mult. Qed.

Lemma ofNat_lt a b : ofNat a < ofNat b → (a < b)%nat.
Proof. unfold ofNat. rewrite <- Zlt_Qlt. lia. Qed.

Lemma ofNat_plus a b : ofNat (a + b) == ofNat a + ofNat b.
Proof. unfold ofNat. by rewrite Nat2Z.inj_add, inject_Z_plus. Qed.

(** The factors are multiples of [g]: their total is [g] times the sum of the
    multipliers. *)
Lemma total_multiples g fs (ms : list nat) :
  Forall2 (λ f m, (0 < m)%nat ∧ f == g * ofNat m) fs ms →
  total fs == g * ofNat (sum_list ms).
Proof.
  induction 1 as [|f m fs ms [_ Hf] _ IH].
  - change (0 == g * 0). lra.
  - rewrite total_cons. change (sum_list (m :: ms)) with (m + sum_list ms)%nat.
    rewrite ofNat_plus, Hf, IH. lra.
Qed.

(** The heart of the cycle property: while fewer selections were made than the
    multipliers add up to, no index is chosen more often than its multiplier. *)
Lemma picks_bounded g (ms : list nat) n :
  0 < g →
  ∀ p hist,
    selectable p → CandidatePool.Nodes p ≠ [] →
    Forall2 (λ f m, (0 < m)%nat ∧ f == g * ofNat m) (CandidatePool.Factors p) ms →
    credited (CandidatePool.FactorSum p) (CandidatePool.Factors p) (CandidatePool.Weights p) hist →
    (∀ i m, ms !! i = Some m → (times i hist ≤ m)%nat) →
    (length hist + n ≤ sum_list ms)%nat →
    Forall (λ k, (k < length ms)%nat) (picks n p)
    ∧ ∀ i m, ms !! i = Some m → (times i hist + times i (picks n p) ≤ m)%nat.
Proof.
  intros Hg. induction n as [|n IH]; intros p hist Hsel Hne Hms Hcred Hhist Hlen.
  { split; [done|]. intros i m Hm. unfold times at 2. simpl. specialize (Hhist i m Hm). lia. }
  simpl. set (ws := zip_with Qplus (CandidatePool.Weights p) (CandidatePool.Factors p)).
  set (k := (firstMax ws 0 0 0).1).
  destruct (firstMax_first_maximum p Hsel Hne) as [(Hk & _) Hpos]. fold ws k in Hk, Hpos.
  set (wk := (firstMax ws 0 0 0).2) in *. rewrite Hk. simpl.
  apply lookup_zip_with_Some in Hk as (w & f & Hwk & Hw & Hf).
  destruct (Forall2_lookup_l _ _ _ _ _ Hms Hf) as (mk & Hmk & _ & Hfg).
  pose proof (Hcred k w f Hw Hf) as Hcredit.
  assert (CandidatePool.FactorSum p == g * ofNat (sum_list ms)) as HS.
  { rewrite (sel_sum _ Hsel). by apply total_multiples. }
  (* the chosen index has not used up its share *)
  assert (times k hist < mk)%nat as Hroom.
  { assert (ofNat (sum_list ms * times k hist) < ofNat (S (length hist) * mk)) as Hlt.
    { rewrite !ofNat_mult, ofNat_S. rewrite Hwk, Hcredit, HS, Hfg in Hpos.
      set (T := ofNat (length hist)) in *. set (M := ofNat mk) in *.
      set (N := ofNat (sum_list ms)) in *. set (C := ofNat (times k hist)) in *.
      destruct (Qlt_le_dec (N * C) ((T + 1) * M)) as [|Hge]; [done|]. exfalso.
      assert (0 <= g * (N * C - (T + 1) * M)) as Hprod.
      { apply Qmult_le_0_compat; lra. }
      lra. }
    apply ofNat_lt in Hlt. nia. }
  pose proof (selected_selectable p k wk Hsel) as Hsel'.
  destruct (IH (selected p k wk) (k :: hist)) as [Hall Hbound].
  - apply Hsel'. unfold ws. apply lookup_zip_with_Some. eauto.
  - done.
  - done.
  - intros i wi fi. simpl. fold ws. intros Hwi Hfi. rewrite times_cons.
    destruct (decide (k = i)) as [<-|Hki].
    + rewrite list_lookup_insert_eq in Hwi.
      * injection Hwi as <-. rewrite Hf in Hfi. injection Hfi as <-.
        rewrite Hwk, Hcredit. change (length (k :: hist)) with (S (length hist)).
        rewrite ofNat_S, (ofNat_plus 1). change (ofNat 1) with 1. lra.
      * unfold ws. rewrite length_zip_with. apply lookup_lt_Some in Hw, Hf. lia.
    + rewrite list_lookup_insert_ne in Hwi by done.
      apply lookup_zip_with_Some in Hwi as (w' & f' & -> & Hw' & Hf').
      rewrite Hfi in Hf'. injection Hf' as <-.
      rewrite (Hcred i w' fi Hw' Hfi). change (length (k :: hist)) with (S (length hist)).
      rewrite ofNat_S. simpl. lra.
  - intros i m Hm. rewrite times_cons. case_decide as Hki.
    + subst i. rewrite Hmk in Hm. injection Hm as <-. lia.
    + specialize (Hhist i m Hm). lia.
  - simpl. lia.
  - split.
    + constructor; [by apply lookup_lt_Some in Hmk | done].
    + intros i m Hm. specialize (Hbound i m Hm). rewrite !times_cons in *. lia.
Qed.

Lemma sum_indicator k n :
  sum_list ((λ i, if decide (k = i) then 1 else 0)%nat <$> seq 0 n)
  = (if decide (k < n)%nat then 1 else 0)%nat.
Proof.
  induction n as [|n IH]; [done|].
  rewrite seq_S, fmap_app, sum_list_with_app, IH. simpl.
  repeat case_decide; lia.
Qed.

Lemma sum_fmap_plus (F G : nat → nat) l :
  sum_list ((λ i, F i + G i)%nat <$> l) = (sum_list (F <$> l) + sum_list (G <$> l))%nat.
Proof. induction l as [|i l IH]; [done|]. rewrite !fmap_cons. simpl. rewrite IH. lia. Qed.

Lemma sum_fmap_ext (F G : nat → nat) l :
  (∀ i, F i = G i) → sum_list (F <$> l) = sum_list (G <$> l).
Proof. intros H. induction l as [|i l IH]; [done|]. rewrite !fmap_cons. simpl. by rewrite IH, H. Qed.

Lemma sum_fmap_zero {A} (l : list A) : sum_list ((λ _, 0%nat) <$> l) = 0%nat.
Proof. induction l as [|i l IH]; [done|]. rewrite fmap_cons. simpl. by rewrite IH. Qed.

Lemma sum_times ks n :
  Forall (λ k, (k < n)%nat) ks →
  sum_list ((λ i, times i ks) <$> seq 0 n) = length ks.
Proof.
  induction 1 as [|k ks Hk _ IH].
  - apply sum_fmap_zero.
  - rewrite (sum_fmap_ext _ _ _ (λ i, times_cons i k ks)), sum_fmap_plus, IH, sum_indicator.
    by rewrite decide_True.
Qed.

Lemma le_sum_eq (a b : list nat) :
  Forall2 le a b → sum_list a = sum_list b → a = b.
Proof.
  intros H. assert (sum_list a ≤ sum_list b)%nat as Hle.
  { induction H; simpl; lia. }
  clear Hle. induction H as [|x y a b Hxy Hab IH]; [done|]. simpl. intros Hsum.
  assert (sum_list a ≤ sum_list b)%nat by (clear -Hab; induction Hab; simpl; lia).
  assert (x = y) as -> by lia. f_equal. apply IH. lia.
Qed.

Lemma length_picks n : ∀ p, length (picks n p) = n.
Proof. induction n as [|n IH]; intros p; simpl; [done|]. by rewrite IH. Qed.

(** C8.  A static pool whose factors are the multiples [g * ms[i]] of a common
    divisor [g], starting from zero weights: over [FactorSum / g] successive calls
    of [SelectNode] (that is, as many calls as the multipliers add up to), the node at
    index [i] is returned exactly [ms[i] = Factors[i] / g] times. *)
Theorem smooth_wrr_cycle (r : ConsulResolver) (p : CandidatePool.t) (lg : Logger)
    (cm : ConsulResolverMetric) (g : float64) (ms : list nat) :
  candidatePool r = Some p → logger r = Some lg → metric r = Some cm →
  length (CandidatePool.Nodes p) = length (CandidatePool.Factors p) →
  CandidatePool.Weights p = replicate (length (CandidatePool.Factors p)) 0 →
  CandidatePool.FactorSum p == total (CandidatePool.Factors p) →
  0 < g →
  Forall2 (λ f m, (0 < m)%nat ∧ f == g * ofNat m) (CandidatePool.Factors p) ms →
  CandidatePool.FactorSum p / g == ofNat (sum_list ms)
  ∧ ∃ r',
      selectMany (sum_list ms) r
      = Normal ((λ k, CandidatePool.Nodes p !! k) <$> picks (sum_list ms) p) r'
      ∧ ∀ i m, ms !! i = Some m → times i (picks (sum_list ms) p) = m.
Proof.
  intros Hp Hlog Hm Hn Hw Hsum Hg Hms.
  assert (CandidatePool.FactorSum p == g * ofNat (sum_list ms)) as HS.
  { rewrite Hsum. by apply total_multiples. }
  split.
  { rewrite HS, Qmult_comm. apply Qdiv_mult_l. lra. }
  destruct (CandidatePool.Nodes p) as [|node nodes] eqn:Hnodes.
  { destruct (CandidatePool.Factors p); [|done]. apply Forall2_nil_inv_l in Hms as ->.
    eexists. split; [done|]. intros i m Hi. by rewrite lookup_nil in Hi. }
  assert (selectable p) as Hsel.
  { split; try done.
    - by rewrite Hnodes.
    - by rewrite Hw, length_replicate.
    - clear -Hms Hg. induction Hms as [|f m fs ms' [Hm Hf] _ IH]; constructor; [|done].
      rewrite Hf. apply Qmult_lt_0_compat; [done|].
      unfold ofNat. change 0 with (inject_Z 0). rewrite <- Zlt_Qlt. lia.
    - rewrite Hw. apply total_replicate. }
  assert (CandidatePool.Nodes p ≠ []) as Hne by (by rewrite Hnodes).
  destruct (selectMany_picks (sum_list ms) r p lg cm Hp Hlog Hm Hsel Hne) as [r' Hrun].
  rewrite Hnodes in Hrun. exists r'. split; [done|].
  destruct (picks_bounded g ms (sum_list ms) Hg p [] Hsel Hne Hms) as [Hall Hbound].
  - intros i w f Hwi Hfi. rewrite Hw in Hwi. apply lookup_replicate in Hwi as [-> _].
    change (0 == 0 * f - CandidatePool.FactorSum p * 0). lra.
  - intros i m _. unfold times. simpl. lia.
  - simpl. lia.
  - assert ((λ i, times i (picks (sum_list ms) p)) <$> seq 0 (length ms) = ms) as Heq.
    { apply le_sum_eq.
      - apply Forall2_same_length_lookup. split; [by rewrite length_fmap, length_seq|].
        intros i c m Hc Hmi. rewrite list_lookup_fmap in Hc.
        destruct (seq 0 (length ms) !! i) as [j|] eqn:Hj; [|done].
        apply lookup_seq in Hj as [-> _]. injection Hc as <-.
        specialize (Hbound i m Hmi). unfold times at 1 in Hbound. simpl in Hbound. lia.
      - rewrite sum_times by done. apply length_picks. }
    intros i m Hmi. rewrite <- Heq in Hmi. rewrite list_lookup_fmap in Hmi.
    destruct (seq 0 (length ms) !! i) as [j|] eqn:Hj; [|done].
    apply lookup_seq in Hj as [-> _]. by injection Hmi.
Qed.

Lemma servingPool_selectable : selectable Scenario.servingPool.
Proof.
  split; [by vm_compute | by vm_compute | | by vm_compute | by vm_compute].
  repeat constructor.
Qed.


(** C8 on the pool of the spill scenario: the factors 1000, 120, 144 and 96 are 8 times
    125, 15, 18 and 12, and a cycle is 170 calls long. *)
Lemma smooth_wrr_cycle_witness :
  candidatePool Scenario.serving = Some Scenario.servingPool
  ∧ logger Scenario.serving = Some TheLogger
  ∧ metric Scenario.serving = Some Scenario.servingMetric
  ∧ length (CandidatePool.Nodes Scenario.servingPool)
    = length (CandidatePool.Factors Scenario.servingPool)
  ∧ CandidatePool.Weights Scenario.servingPool
    = replicate (length (CandidatePool.Factors Scenario.servingPool)) 0
  ∧ CandidatePool.FactorSum Scenario.servingPool
    == total (CandidatePool.Factors Scenario.servingPool)
  ∧ 0 < 8
  ∧ Forall2 (λ f m, (0 < m)%nat ∧ f == 8 * ofNat m)
            (CandidatePool.Factors Scenario.servingPool) [125; 15; 18; 12]%nat
  ∧ CandidatePool.FactorSum Scenario.servingPool / 8 == ofNat 170
  ∧ ∃ r',
      selectMany 170 Scenario.serving
      = Normal ((λ k, CandidatePool.Nodes Scenario.servingPool !! k)
                  <$> picks 170 Scenario.servingPool) r'
      ∧ ∀ i m, [125; 15; 18; 12]%nat !! i = Some m →
               times i (picks 170 Scenario.servingPool) = m.
Proof.
  assert (Forall2 (λ f m, (0 < m)%nat ∧ f == 8 * ofNat m)
            (CandidatePool.Factors Scenario.servingPool) [125; 15; 18; 12]%nat) as Hms.
  { let fs := eval vm_compute in (CandidatePool.Factors Scenario.servingPool) in
    change (CandidatePool.Factors Scenario.servingPool) with fs.
    repeat constructor; try lia; by vm_compute. }
  split; [by vm_compute|]. split; [by vm_compute|]. split; [by vm_compute|].
  split; [by vm_compute|]. split; [by vm_compute|]. split; [by vm_compute|].
  split; [done|]. split; [exact Hms|].
  apply (smooth_wrr_cycle Scenario.serving Scenario.servingPool TheLogger
           Scenario.servingMetric 8 [125; 15; 18; 12]%nat);
    [by vm_compute | by vm_compute | by vm_compute | by vm_compute | by vm_compute
    | by vm_compute | done | exact Hms].
Defined.

(** ** The builder runs to completion *)

Lemma equipped_cache_only lg ol lz r r' :
  cache_only r r' → equipped lg ol lz r → equipped lg ol lz r'.
Proof. by intros ->. Qed.

Lemma steady_ret {A} r (a : A) : steady r (mret a).
Proof. by exists a. Qed.

Lemma steady_gets {A} r (f : ConsulResolver → A) : steady r (gets f).
Proof. by exists (f r). Qed.

Lemma steady_bind {A B} r (m : M A) (k : A → M B) :
  steady r m → (∀ a, steady r (k a)) → steady r (m ≫= k).
Proof.
  intros [a Hm] Hk. destruct (Hk a) as [b Hb]. exists b.
  unfold mbind, M_bind. by rewrite Hm.
Qed.

Lemma steady_if {A} r (b : bool) (m1 m2 : M A) :
  steady r m1 → steady r m2 → steady r (if b then m1 else m2).
Proof. by destruct b. Qed.

Lemma steady_deref {A} r (a : A) : steady r (deref (Some a)).
Proof. by exists a. Qed.

Section total.
Variables (lg : Logger) (ol : OnlineLab) (lz : ServiceZone.t) (r : ConsulResolver).
Hypothesis Heq : equipped lg ol lz r.

Lemma steady_log : steady r log.
Proof. exists tt. apply (log_ok _ lg), Heq. Qed.

Lemma steady_the_onlineLab : steady r the_onlineLab.
Proof.
  exists ol. destruct Heq as (_ & Hol & _).
  unfold the_onlineLab, mbind, M_bind, gets. by rewrite Hol.
Qed.

#[local] Hint Resolve steady_ret steady_gets steady_if steady_deref steady_log
  steady_the_onlineLab : steady.
#[local] Hint Extern 2 (steady _ (_ ≫= _)) => apply steady_bind; [|intros ?] : steady.
#[local] Hint Extern 2 (steady _ (match ?x with _ => _ end)) => destruct x : steady.

Lemma steady_nodeBalanced node sz : steady r (nodeBalanced node sz).
Proof. unfold nodeBalanced. auto with steady. Qed.

Lemma steady_zoneBalanced z1 z2 : steady r (zoneBalanced z1 z2).
Proof. unfold zoneBalanced. auto with steady. Qed.
#[local] Hint Resolve steady_nodeBalanced steady_zoneBalanced : steady.

Lemma steady_spillGate sz : steady r (spillGate (Some lz) sz).
Proof. unfold spillGate. auto 10 with steady. Qed.
#[local] Hint Resolve steady_spillGate : steady.

Lemma steady_localStart fc avg node : steady r (localStart fc avg node).
Proof. unfold localStart. auto 10 with steady. Qed.

Lemma steady_localNudge sz node bf : steady r (localNudge sz node bf).
Proof. unfold localNudge. auto 10 with steady. Qed.

Lemma steady_clampLocal bf : steady r (clampLocal bf).
Proof. unfold clampLocal. auto 10 with steady. Qed.

Lemma steady_clampCross bf : steady r (clampCross bf).
Proof. unfold clampCross. auto 10 with steady. Qed.

Lemma steady_crossStart sz node : steady r (crossStart (Some lz) sz node).
Proof. unfold crossStart. auto 10 with steady. Qed.

Lemma steady_crossNodeNudge sz node bf : steady r (crossNodeNudge sz node bf).
Proof. unfold crossNodeNudge. auto 10 with steady. Qed.
#[local] Hint Resolve steady_crossNodeNudge : steady.

Lemma steady_crossNudge sz node bf : steady r (crossNudge (Some lz) sz node bf).
Proof. unfold crossNudge. auto 12 with steady. Qed.

Lemma commitFactor_total node bf p : ∃ p' r', commitFactor node bf p r = Normal p' r'.
Proof.
  unfold commitFactor, modify, mbind, M_bind, gets. rewrite (log_ok _ lg); [by eauto|].
  apply Heq.
Qed.

Lemma localNode_total fc avg sz p node :
  ∃ p' r', localNode fc avg sz p node r = Normal p' r'.
Proof.
  unfold localNode, mbind, M_bind.
  destruct (steady_localStart fc avg node) as [b1 ->].
  destruct (steady_localNudge sz node b1) as [b2 ->].
  destruct (steady_clampLocal b2) as [b3 ->].
  apply commitFactor_total.
Qed.

Lemma crossNode_total sz p node :
  ∃ p' r', crossNode (Some lz) sz p node r = Normal p' r'.
Proof.
  unfold crossNode, mbind, M_bind.
  destruct (steady_crossStart sz node) as [b1 ->].
  destruct (steady_crossNudge sz node b1) as [b2 ->].
  destruct (steady_clampCross b2) as [b3 ->].
  apply commitFactor_total.
Qed.
End total.

Lemma node_loop_total lg ol lz
    (f : CandidatePool.t → ServiceNode.t → M CandidatePool.t) (b : bool) :
  (∀ p node r p' r', f p node r = Normal p' r' →
     ∃ bf, appended p p' node bf ∧ inRange b bf ∧ cache_only r r') →
  (∀ p node r, equipped lg ol lz r → ∃ p' r', f p node r = Normal p' r') →
  ∀ nodes p r, equipped lg ol lz r →
    ∃ p' r', forM f nodes p r = Normal p' r' ∧ equipped lg ol lz r'.
Proof.
  intros Hspec Htotal nodes. induction nodes as [|node nodes IH]; intros p r Heq.
  - by exists p, r.
  - destruct (Htotal p node r Heq) as (p1 & r1 & Hstep).
    pose proof Hstep as (bf & _ & _ & Hr1)%Hspec.
    destruct (IH p1 r1) as (p' & r' & Hrest & Heq'); [by eapply equipped_cache_only|].
    exists p', r'. split; [|done]. simpl. unfold mbind, M_bind. by rewrite Hstep.
Qed.

Lemma zoneStep_total lg ol lz fc st sz r :
  equipped lg ol lz r →
  ∃ st' r', zoneStep (Some lz) fc st sz r = Normal st' r' ∧ equipped lg ol lz r'.
Proof.
  intros Heq. destruct st as [p avg]. pose proof Heq as (Hlog & Hol & Hlz).
  unfold zoneStep, r_localZone, mbind, M_bind, gets. rewrite Hlz. simpl.
  destruct (String.eqb _ _).
  - rewrite (log_ok _ lg Hlog).
    destruct (node_loop_total lg ol lz _ true (localNode_spec fc avg sz)
                (λ p node r Hr, localNode_total lg ol lz r Hr fc avg sz p node)
                (ServiceZone.Nodes sz) p r Heq)
      as (p' & r' & -> & Heq').
    destruct (_ <? _)%nat; [|by eauto].
    rewrite (log_ok _ lg (proj1 Heq')). by eauto.
  - unfold the_onlineLab, mbind, M_bind, gets. rewrite Hol. simpl.
    destruct (CrossZone ol); [|by eauto].
    rewrite (log_ok _ lg Hlog).
    destruct (node_loop_total lg ol lz _ false (crossNode_spec (Some lz) sz)
                (λ p node r Hr, crossNode_total lg ol lz r Hr sz p node)
                (ServiceZone.Nodes sz) p r Heq)
      as (p' & r' & -> & Heq').
    by eauto.
Qed.

Lemma zone_loop_total lg ol lz fc zones :
  ∀ st r, equipped lg ol lz r →
    ∃ st' r', forM (zoneStep (Some lz) fc) zones st r = Normal st' r'
              ∧ equipped lg ol lz r'.
Proof.
  induction zones as [|z zones IH]; intros st r Heq; [by eauto|].
  destruct (zoneStep_total lg ol lz fc st z r Heq) as (st1 & r1 & Hstep & Heq1).
  destruct (IH st1 r1 Heq1) as (st' & r' & Hrest & Heq').
  exists st', r'. split; [|done]. simpl. unfold mbind, M_bind. by rewrite Hstep.
Qed.

(** With a logger, the hyperparameters and a local zone in place, the builder
    publishes a pool. *)
Lemma updateCandidatePool_total lg ol lz r :
  equipped lg ol lz r →
  ∃ r' p, updateCandidatePool r = Normal tt r' ∧ candidatePool r' = Some p.
Proof.
  intros Heq. pose proof Heq as (Hlog & Hol & Hlz).
  unfold updateCandidatePool, mbind, M_bind, gets. rewrite Hlz.
  destruct (zone_loop_total lg ol lz (bool_decide (0 < size (balanceFactorCache r))%nat)
              (serviceZones r) (CandidatePool.new, 0) r Heq)
    as ([p avg] & r1 & -> & Heq1).
  destruct (metric r1); simpl; unfold modify; [by eauto|].
  unfold mbind, M_bind. rewrite (log_ok _ lg); [by eauto|]. apply Heq1.
Qed.

(** ** The warm start is never taken *)

Lemma forM_cons {A S} (f : S → A → M S) x l s r :
  forM f (x :: l) s r
  = match f s x r with
    | Normal s' r' => forM f l s' r'
    | Panic => Panic
    end.
Proof. done. Qed.

(** One turn of the zone loop: off the local zone the two bodies are the same
    computation and [localAvgFactor] is handed on as it came. *)
Lemma zoneStep_cross lz0 fc p avg sz r rlz :
  localZone r = Some rlz →
  String.eqb (ServiceZone.Zone rlz) (ServiceZone.Zone sz) = false →
  zoneStep lz0 fc (p, avg) sz r = zoneStepCold lz0 fc (p, avg) sz r
  ∧ ∀ p' avg' r', zoneStep lz0 fc (p, avg) sz r = Normal (p', avg') r' → avg' = avg.
Proof.
  intros Hlz Hne. unfold zoneStep, zoneStepCold, r_localZone, mbind, M_bind, gets.
  rewrite Hlz. simpl. rewrite Hne. split; [done|].
  intros p' avg' r'. destruct (the_onlineLab r) as [ol r1|]; [|done].
  destruct (CrossZone ol); [|by intros [= _ <- _]].
  destruct (log r1) as [u r2|]; [|done].
  destruct (forM _ _ _ _) as [p1 r3|]; [|done]. by intros [= _ <- _].
Qed.

(** While [localAvgFactor] is 0 the two bodies are the same computation on every zone. *)
Lemma zoneStep_cold lz0 fc p sz r :
  zoneStep lz0 fc (p, 0) sz r = zoneStepCold lz0 fc (p, 0) sz r.
Proof. done. Qed.

(** Once the local zone is behind, the rest of the loop never reads [localAvgFactor]. *)
Lemma zone_loop_no_local lz0 fc zones :
  ∀ st r,
    (∀ rlz z, localZone r = Some rlz → z ∈ zones →
       String.eqb (ServiceZone.Zone rlz) (ServiceZone.Zone z) = false) →
    forM (zoneStep lz0 fc) zones st r = forM (zoneStepCold lz0 fc) zones st r.
Proof.
  induction zones as [|z zones IH]; intros [p avg] r Hno; [done|].
  rewrite !forM_cons.
  destruct (localZone r) as [rlz|] eqn:Hlz.
  - destruct (zoneStep_cross lz0 fc p avg z r rlz Hlz) as [<- _];
      [apply Hno; [done | by left]|].
    destruct (zoneStep lz0 fc (p, avg) z r) as [[p1 avg1] r1|] eqn:Hstep; [|done].
    apply IH. intros rlz' z' Hlz' Hz'.
    apply (zoneStep_inv (λ _ _, True)) in Hstep as (_ & _ & Hr1 & _).
    rewrite (cache_only_localZone _ _ Hr1), Hlz in Hlz'. apply Hno; [done | by right].
  - assert (zoneStep lz0 fc (p, avg) z r = Panic ∧ zoneStepCold lz0 fc (p, avg) z r = Panic)
      as [-> ->]; [|done].
    unfold zoneStep, zoneStepCold, r_localZone, mbind, M_bind, gets. by rewrite Hlz.
Qed.

(** Over zones with pairwise distinct names, as [updateServiceZone]
    lists them, the zone loop of [updateCandidatePool] (which starts from an empty pool
    and [localAvgFactor = 0]) is the loop whose local nodes are never warm-started. *)
Lemma warm_start_never_taken lz0 fc zones :
  NoDup (ServiceZone.Zone <$> zones) →
  ∀ p r,
    forM (zoneStep lz0 fc) zones (p, 0) r = forM (zoneStepCold lz0 fc) zones (p, 0) r.
Proof.
  induction zones as [|z zones IH]; intros Hnd p r; [done|].
  rewrite fmap_cons in Hnd. apply NoDup_cons in Hnd as [Hz Hnd].
  rewrite !forM_cons, <- zoneStep_cold.
  destruct (zoneStep lz0 fc (p, 0) z r) as [[p1 avg1] r1|] eqn:Hstep; [|done].
  pose proof Hstep as (rlz & Hlz & Hr1 & _)%(zoneStep_inv (λ _ _, True)).
  destruct (String.eqb (ServiceZone.Zone rlz) (ServiceZone.Zone z)) eqn:Hlocal.
  - apply zone_loop_no_local. intros rlz' z' Hlz' Hz'.
    rewrite (cache_only_localZone _ _ Hr1), Hlz in Hlz'. injection Hlz' as <-.
    apply String.eqb_eq in Hlocal. apply String.eqb_neq. intros Heq.
    apply Hz. apply list_elem_of_fmap. exists z'. split; [congruence | done].
  - destruct (zoneStep_cross lz0 fc p 0 z r rlz Hlz Hlocal) as [_ Havg].
    rewrite (Havg _ _ _ Hstep). by apply IH.
Qed.

(** The zones a topology refresh lists have pairwise distinct names. *)
Lemma updateServiceZone_distinct w r r' :
  range_ok w → updateServiceZone w r = Normal None r' →
  NoDup (ServiceZone.Zone <$> serviceZones r').
Proof.
  intros Hrange (res & li & m & _ & Hinv & _ & -> & _)%updateServiceZone_spec.
  assert (ServiceZone.Zone <$> (range_map w (map_to_list m)).*2
          = (range_map w (map_to_list m)).*1) as ->.
  { rewrite <- list_fmap_compose. apply list_fmap_ext.
    intros i [k z] Hin%list_elem_of_lookup_2. rewrite (Hrange _) in Hin.
    apply elem_of_map_to_list in Hin. by destruct (Hinv _ _ Hin). }
  rewrite (Hrange _). apply NoDup_fst_map_to_list.
Qed.

(** * Properties of the rest of the code *)

(** ** util *)

Lemma Split_cons_inv s sep : ∃ piece pieces, util.Split s sep = piece :: pieces.
Proof.
  induction s as [|a s (piece & pieces & IH)]; simpl; [by eauto|].
  destruct (Ascii.eqb a sep); [by eauto|]. rewrite IH. by eauto.
Qed.

Lemma Split_without sep s : occurs sep s = false → util.Split s sep = [s].
Proof.
  induction s as [|a s IH]; simpl; [done|].
  intros [Ha Hs]%orb_false_iff. rewrite Ha, IH; done.
Qed.

Lemma Split_at sep k s :
  occurs sep k = false →
  util.Split (k +:+ String sep s) sep = k :: util.Split s sep.
Proof.
  induction k as [|a k IH]; simpl.
  - intros _. by rewrite Ascii.eqb_refl.
  - intros [Ha Hk]%orb_false_iff. by rewrite Ha, IH.
Qed.

Lemma Split_single sep s b :
  util.Split s sep = [b] → occurs sep s = false ∧ b = s.
Proof.
  revert b. induction s as [|c s IH]; intros b; simpl; [by intros [= <-]|].
  destruct (Ascii.eqb c sep) eqn:Hc.
  - destruct (Split_cons_inv s sep) as (piece & pieces & ->). done.
  - destruct (Split_cons_inv s sep) as (piece & pieces & Hs). rewrite Hs in *.
    destruct pieces; [|done].
    intros [= <-]. destruct (IH piece eq_refl) as [-> ->]. done.
Qed.

(** Splitting loses nothing: a split in two gives back the string around one
    separator, and neither piece contains the separator. *)
Lemma Split_two sep s a b :
  util.Split s sep = [a; b] →
  s = a +:+ String sep b ∧ occurs sep a = false ∧ occurs sep b = false.
Proof.
  revert a. induction s as [|c s IH]; intros a; simpl; [done|].
  destruct (Ascii.eqb c sep) eqn:Hc.
  - apply Ascii.eqb_eq in Hc as ->. intros [= <- Hs].
    apply Split_single in Hs as [Hno ->]. done.
  - destruct (Split_cons_inv s sep) as (piece & pieces & Hs). rewrite Hs in *.
    destruct pieces as [|q [|? ?]]; try done.
    intros [= <- <-]. destruct (IH piece eq_refl) as (-> & Hp & Hq).
    simpl. by rewrite Hc, Hp.
Qed.

Lemma dropLast_snoc s c : util.dropLast (s +:+ String c EmptyString) = s.
Proof.
  induction s as [|a s IH]; simpl; [done|]. rewrite IH.
  destruct s; done.
Qed.

Lemma dropLast_inv out :
  out ≠ EmptyString → ∃ c, out = util.dropLast out +:+ String c EmptyString.
Proof.
  induction out as [|a out IH]; [done|]. intros _.
  destruct out as [|b out]; [by exists a|].
  destruct IH as [c Hc]; [done|]. exists c.
  change (util.dropLast (String a (String b out)))
    with (String a (util.dropLast (String b out))).
  change (String a (String b out)
          = String a (util.dropLast (String b out) +:+ String c EmptyString)).
  by rewrite <- Hc.
Qed.

Lemma string_app_assoc (a b c : string) : (a +:+ b) +:+ c = a +:+ (b +:+ c).
Proof.
  induction a as [|x a IH]; [done|].
  change (String x ((a +:+ b) +:+ c) = String x (a +:+ (b +:+ c))). by rewrite IH.
Qed.

Lemma string_app_nonempty a c b : String.length (a +:+ String c b) ≠ 0%nat.
Proof. destruct a; simpl; lia. Qed.

(** [util.Zone] on the output of the metadata command.  It panics exactly on an empty
    output.  On [key value] followed by one more byte (the newline), with no space in
    the key or in the value, it answers the value; and whenever it answers anything but
    "unknown" the output had that shape. *)
Theorem Zone_reads_the_second_field :
  (∀ out, util.Zone (inr out) = None ↔ out = EmptyString)
  ∧ (∀ k v c, occurs " " k = false → occurs " " v = false →
       util.Zone (inr (k +:+ String " " (v +:+ String c EmptyString))) = Some v)
  ∧ (∀ out z, util.Zone (inr out) = Some z →
       z = "unknown"%string
       ∨ ∃ k c, out = k +:+ String " " (z +:+ String c EmptyString)
                ∧ occurs " " k = false ∧ occurs " " z = false).
Proof.
  split_and!.
  - intros out. unfold util.Zone. destruct out as [|a out]; [done|]. split; [|done].
    change (String.length (String a out) =? 0)%nat with false. cbv iota.
    destruct (util.Split (util.dropLast (String a out)) " ") as [|p [|q [|? ?]]]; done.
  - intros k v c Hk Hv. unfold util.Zone.
    destruct (String.length _ =? 0)%nat eqn:Hlen.
    { apply Nat.eqb_eq in Hlen. by apply string_app_nonempty in Hlen. }
    replace (k +:+ String " " (v +:+ String c EmptyString))
      with ((k +:+ String " " v) +:+ String c EmptyString)
      by (by rewrite string_app_assoc).
    rewrite dropLast_snoc, (Split_at _ _ _ Hk), (Split_without _ _ Hv). done.
  - intros out z. unfold util.Zone.
    destruct (String.length out =? 0)%nat eqn:Hlen; [done|].
    destruct (util.Split (util.dropLast out) " ") as [|p [|q [|? ?]]] eqn:Hs; simpl;
      try (intros [= <-]; by left).
    intros [= <-]. right.
    apply Split_two in Hs as (Hout & Hp & Hq).
    destruct (dropLast_inv out) as [c Hc].
    { intros ->. done. }
    exists p, c. split_and!; [|done..].
    rewrite Hc, Hout at 1. by rewrite string_app_assoc.
Qed.

(** The later [util.Zone(cloud)] knows two endpoints.  It asks the aliyun endpoint
    for the cloud "aliyun" and the endpoint 169.254.169.254 for every other name: the
    case written for Huawei compares [cloud] with the URL constant, so "huawei" falls
    to the default, which holds the URL that case would have chosen.  A failed request
    answers "unknown", and otherwise the body is returned as it is. *)
Theorem Zone_asks_one_of_two_endpoints (Do : string → error + string) (cloud : string) :
  util2.api cloud
  = (if String.eqb cloud "aliyun" then util2.API_ALI_META_DATA
     else util2.API_AWS_META_DATA)
  ∧ util2.api util2.CLOUD_HW = util2.API_HW_META_DATA
  ∧ util2.Zone Do cloud
    = match Do (if String.eqb cloud "aliyun" then util2.API_ALI_META_DATA
                else util2.API_AWS_META_DATA) with
      | inl _ => "unknown"%string
      | inr data => data
      end.
Proof.
  assert (util2.api cloud
          = (if String.eqb cloud "aliyun" then util2.API_ALI_META_DATA
             else util2.API_AWS_META_DATA)) as Hapi.
  { unfold util2.api, util2.CLOUD_AWS, util2.CLOUD_ALI.
    destruct (String.eqb_spec cloud "aws") as [->|Haws]; [done|].
    destruct (String.eqb cloud "aliyun"); [done|].
    by destruct (String.eqb cloud util2.API_HW_META_DATA). }
  split; [done|]. split; [done|]. unfold util2.Zone. by rewrite Hapi.
Qed.

Lemma wrap_int_id z : (- 2 ^ 63 <= z < 2 ^ 63)%Z → wrap_int z = z.
Proof. intros Hz. unfold wrap_int. rewrite Z.mod_small; lia. Qed.

(** [util.IntPseudoRandom(min, max)] for machine integers whose distance does not
    overflow: it answers a value between [min] and [max] when [min <= max], and panics
    (in [rand.Intn]) when [max < min]. *)
Theorem IntPseudoRandom_range (w : World) (min max : Z) (r : ConsulResolver) :
  Intn_ok w →
  (- 2 ^ 63 <= min < 2 ^ 63)%Z → (- 2 ^ 63 <= max < 2 ^ 63)%Z →
  (- 2 ^ 63 <= max - min < 2 ^ 63 - 1)%Z →
  ((min <= max)%Z → ∃ x, IntPseudoRandom w min max r = Normal x r ∧ (min <= x <= max)%Z)
  ∧ ((max < min)%Z → IntPseudoRandom w min max r = Panic).
Proof.
  intros Hintn Hmin Hmax Hdist. unfold IntPseudoRandom.
  rewrite (wrap_int_id (max - min)) by lia.
  rewrite (wrap_int_id (max - min + 1)) by lia. split.
  - intros Hle. destruct (max - min + 1 <=? 0)%Z eqn:Hn; [lia|].
    pose proof (Hintn (max - min + 1)%Z ltac:(lia)) as Hx.
    eexists. split; [done|]. rewrite wrap_int_id; lia.
  - intros Hlt. destruct (max - min + 1 <=? 0)%Z eqn:Hn; [done | lia].
Qed.

Lemma Intn_ok_drawing w : Intn_ok (drawing (λ n, n - 1)%Z w).
Proof. intros n Hn. simpl. lia. Qed.

Lemma IntPseudoRandom_range_witness :
  Intn_ok (drawing (λ n, n - 1)%Z Scenario.healthy)
  ∧ (- 2 ^ 63 <= 1 < 2 ^ 63)%Z ∧ (- 2 ^ 63 <= 1000 < 2 ^ 63)%Z
  ∧ (- 2 ^ 63 <= 1000 - 1 < 2 ^ 63 - 1)%Z
  ∧ ((1 <= 1000)%Z →
     ∃ x, IntPseudoRandom (drawing (λ n, n - 1)%Z Scenario.healthy) 1 1000 Scenario.fresh
          = Normal x Scenario.fresh ∧ (1 <= x <= 1000)%Z)
  ∧ ((1000 < 1)%Z →
     IntPseudoRandom (drawing (λ n, n - 1)%Z Scenario.healthy) 1 1000 Scenario.fresh = Panic).
Proof.
  split; [apply Intn_ok_drawing|]. split; [lia|]. split; [lia|]. split; [lia|].
  apply (IntPseudoRandom_range (drawing (λ n, n - 1)%Z Scenario.healthy) 1 1000
           Scenario.fresh); [apply Intn_ok_drawing | lia..].
Defined.

(** ** Cache expiry *)

Lemma wrap_int_add_l a b : wrap_int (wrap_int a + b) = wrap_int (a + b).
Proof.
  unfold wrap_int. f_equal.
  replace ((a + 2 ^ 63) mod 2 ^ 64 - 2 ^ 63 + b + 2 ^ 63)%Z
    with ((a + 2 ^ 63) mod 2 ^ 64 + b)%Z by lia.
  rewrite Zplus_mod_idemp_l. f_equal. lia.
Qed.

Lemma expire_bound n :
  (- 2 ^ 63 <= n < 2 ^ 63)%Z → wrap_int (wrap_int (n - 1) + 1) = n.
Proof.
  intros Hn. rewrite wrap_int_add_l. replace (n - 1 + 1)%Z with n by lia.
  by apply wrap_int_id.
Qed.

(** The cache expiry, run: past the bound check the draw decides. *)
Lemma expire_run w r ol lg :
  onlineLab r = Some ol → logger r = Some lg →
  (- 2 ^ 63 <= FactorCacheExpire ol < 2 ^ 63)%Z →
  expireBalanceFactorCache w r
  = if (FactorCacheExpire ol <=? 0)%Z then Panic
    else if (1 =? wrap_int (Intn w (FactorCacheExpire ol) + 1))%Z
         then Normal tt (set_balanceFactorCache ∅ r) else Normal tt r.
Proof.
  intros Hol Hlog Hn.
  unfold expireBalanceFactorCache, the_onlineLab, mbind, M_bind, gets. rewrite Hol.
  cbn -[Z.eqb Z.leb wrap_int]. unfold IntPseudoRandom. rewrite expire_bound by lia.
  destruct (FactorCacheExpire ol <=? 0)%Z; [done|].
  cbn -[Z.eqb Z.leb wrap_int].
  destruct (1 =? _)%Z; [|done]. unfold modify. by rewrite (log_ok _ lg).
Qed.

(** [expireBalanceFactorCache] with a positive [FactorCacheExpire]: the cache is
    emptied exactly when the random source draws 0 out of [FactorCacheExpire], and the
    resolver is otherwise left as it was. *)
Theorem expire_follows_the_draw (w : World) (r : ConsulResolver) (ol : OnlineLab)
    (lg : Logger) :
  onlineLab r = Some ol → logger r = Some lg → Intn_ok w →
  (1 <= FactorCacheExpire ol < 2 ^ 63)%Z →
  expireBalanceFactorCache w r
  = Normal tt (if (Intn w (FactorCacheExpire ol) =? 0)%Z
               then set_balanceFactorCache ∅ r else r).
Proof.
  intros Hol Hlog Hintn Hn. rewrite (expire_run w r ol lg) by (done || lia).
  destruct (FactorCacheExpire ol <=? 0)%Z eqn:Hle; [lia|].
  pose proof (Hintn (FactorCacheExpire ol) ltac:(lia)) as Hx.
  rewrite wrap_int_id by lia.
  destruct (Intn w (FactorCacheExpire ol) =? 0)%Z eqn:Hdraw.
  - apply Z.eqb_eq in Hdraw. by rewrite Hdraw.
  - apply Z.eqb_neq in Hdraw.
    destruct (1 =? Intn w (FactorCacheExpire ol) + 1)%Z eqn:H1; [|done].
    apply Z.eqb_eq in H1. lia.
Qed.

Lemma expire_follows_the_draw_witness :
  onlineLab Fixture.cached = Some Scenario.lab
  ∧ logger Fixture.cached = Some TheLogger
  ∧ Intn_ok Fixture.lucky
  ∧ (1 <= FactorCacheExpire Scenario.lab < 2 ^ 63)%Z
  ∧ expireBalanceFactorCache Fixture.lucky Fixture.cached
    = Normal tt (if (Intn Fixture.lucky (FactorCacheExpire Scenario.lab) =? 0)%Z
                 then set_balanceFactorCache ∅ Fixture.cached else Fixture.cached).
Proof.
  split; [reflexivity|]. split; [reflexivity|]. split; [apply Intn_ok_drawing|].
  split; [by vm_compute|].
  apply (expire_follows_the_draw Fixture.lucky Fixture.cached Scenario.lab TheLogger);
    [reflexivity | reflexivity | apply Intn_ok_drawing | by vm_compute].
Defined.

(** The two ends of [FactorCacheExpire]: at 1 every expiry empties the cache; at 0 or
    below (what a payload without the field decodes to) the expiry panics in
    [rand.Intn]. *)
Theorem expire_at_the_ends (w : World) (r : ConsulResolver) (ol : OnlineLab) (lg : Logger) :
  onlineLab r = Some ol → logger r = Some lg → Intn_ok w →
  (- 2 ^ 63 <= FactorCacheExpire ol)%Z →
  (FactorCacheExpire ol = 1%Z →
   expireBalanceFactorCache w r = Normal tt (set_balanceFactorCache ∅ r))
  ∧ ((FactorCacheExpire ol <= 0)%Z → expireBalanceFactorCache w r = Panic).
Proof.
  intros Hol Hlog Hintn Hmin. split.
  - intros H1. rewrite (expire_run w r ol lg) by (done || lia). rewrite H1.
    pose proof (Hintn 1%Z ltac:(lia)) as Hx.
    replace (Intn w 1) with 0%Z by lia. done.
  - intros Hle. rewrite (expire_run w r ol lg) by (done || lia).
    by destruct (FactorCacheExpire ol <=? 0)%Z eqn:Hn; [|lia].
Qed.

Lemma expire_at_the_ends_witness :
  onlineLab (set_onlineLab (Some Fixture.labWithoutExpire) Fixture.cached)
    = Some Fixture.labWithoutExpire
  ∧ logger (set_onlineLab (Some Fixture.labWithoutExpire) Fixture.cached) = Some TheLogger
  ∧ Intn_ok Fixture.lucky
  ∧ (- 2 ^ 63 <= FactorCacheExpire Fixture.labWithoutExpire)%Z
  ∧ (FactorCacheExpire Fixture.labWithoutExpire = 1%Z →
     expireBalanceFactorCache Fixture.lucky
       (set_onlineLab (Some Fixture.labWithoutExpire) Fixture.cached)
     = Normal tt (set_balanceFactorCache ∅
                    (set_onlineLab (Some Fixture.labWithoutExpire) Fixture.cached)))
  ∧ ((FactorCacheExpire Fixture.labWithoutExpire <= 0)%Z →
     expireBalanceFactorCache Fixture.lucky
       (set_onlineLab (Some Fixture.labWithoutExpire) Fixture.cached) = Panic).
Proof.
  split; [reflexivity|]. split; [reflexivity|]. split; [apply Intn_ok_drawing|].
  split; [by vm_compute|].
  apply (expire_at_the_ends Fixture.lucky
           (set_onlineLab (Some Fixture.labWithoutExpire) Fixture.cached)
           Fixture.labWithoutExpire TheLogger);
    [reflexivity | reflexivity | apply Intn_ok_drawing | by vm_compute].
Defined.

(** ** ConfigStore reader *)

Lemma map_fold_insert_union (v m : gmap string Q) :
  map_fold (λ k vv m, <[k := vv]> m) m v = v ∪ m.
Proof.
  apply (map_fold_weak_ind (λ r v, r = v ∪ m)).
  - by rewrite (left_id_L ∅ (∪)).
  - intros i x v' r _ ->. by rewrite insert_union_l.
Qed.

Lemma zoneCPUMapOf_lookup zc k :
  zoneCPUMapOf zc !! k = lastValue k (ZoneCPUUtilizationRatio.Date zc).
Proof.
  unfold zoneCPUMapOf, lastValue.
  induction (ZoneCPUUtilizationRatio.Date zc) as [|v maps IH] using rev_ind; [done|].
  rewrite foldl_snoc, map_fold_insert_union, lookup_union, omap_app, last_app, IH.
  simpl. by destruct (v !! k), (last _).
Qed.

Lemma instanceFactorMapOf_lookup i id :
  instanceFactorMapOf i !! id
  = InstanceMetaInfo.CPUUtilization <$> lastEntry id (InstanceFactor.Date i).
Proof.
  unfold instanceFactorMapOf, lastEntry.
  induction (InstanceFactor.Date i) as [|v entries IH] using rev_ind; [done|].
  rewrite foldl_snoc, filter_app, last_app, lookup_insert.
  rewrite filter_cons, filter_nil. case_decide as Hid; simpl; [done|].
  by rewrite IH.
Qed.

Lemma fetch_inv {A} w key (unmarshal : string → error + A) f r r' :
  fetch w key unmarshal (λ x, modify (f x)) r = Normal None r' →
  ∃ a, answer w key unmarshal = Fetched a ∧ r' = f a r.
Proof.
  unfold fetch, answer. destruct (KV_Get w key) as [err | [kv|]]; [done | | done].
  unfold mbind, M_bind. simpl. destruct (unmarshal _) as [err | a]; [done|].
  unfold modify. destruct (log (f a r)) as [u r1|] eqn:Hlog; [|done].
  apply readonly_log in Hlog as ->. intros [= <-]. eauto.
Qed.

(** [updateZoneCPUMap], when it succeeds, replaces the zone CPU map by the one the
    payload describes: a zone maps to the value of the last object of [data] that
    mentions it, a zone no object mentions is absent, and nothing of the previous map
    is kept. *)
Theorem updateZoneCPUMap_last_wins (w : World) (r r' : ConsulResolver) :
  updateZoneCPUMap w r = Normal None r' →
  ∃ zc, answer w (zoneCPUKey r) (Unmarshal_ZoneCPUUtilizationRatio w) = Fetched zc
        ∧ ∀ zone, zoneCPUMap r' !! zone = lastValue zone (ZoneCPUUtilizationRatio.Date zc).
Proof.
  unfold updateZoneCPUMap. intros (key & r0 & [= <- <-] & H)%bind_Normal.
  apply (fetch_inv _ _ _ (λ zc, set_zoneCPUMap (zoneCPUMapOf zc))) in H as (zc & Hzc & ->).
  exists zc. split; [done|]. intros zone. apply zoneCPUMapOf_lookup.
Qed.

(** [updateInstanceFactorMap], when it succeeds, replaces the instance factor map by
    the one the payload describes: an instance id maps to the [CPUUtilization] of the
    last entry of [data] that carries it, and an id no entry carries is absent. *)
Theorem updateInstanceFactorMap_last_wins (w : World) (r r' : ConsulResolver) :
  updateInstanceFactorMap w r = Normal None r' →
  ∃ i m, answer w (instanceFactorKey r) (Unmarshal_InstanceFactor w) = Fetched i
         ∧ instanceFactorMap r' = Some m
         ∧ ∀ id, m !! id
                 = InstanceMetaInfo.CPUUtilization <$> lastEntry id (InstanceFactor.Date i).
Proof.
  unfold updateInstanceFactorMap. intros (key & r0 & [= <- <-] & H)%bind_Normal.
  apply (fetch_inv _ _ _ (λ i, set_instanceFactorMap (Some (instanceFactorMapOf i)))) in H
    as (i & Hi & ->).
  exists i, (instanceFactorMapOf i). split_and!; [done..|].
  intros id. apply instanceFactorMapOf_lookup.
Qed.

Lemma updateZoneCPUMap_last_wins_witness :
  updateZoneCPUMap Scenario.healthy Scenario.fresh
    = Normal None (Scenario.after (updateZoneCPUMap Scenario.healthy Scenario.fresh))
  ∧ ∃ zc, answer Scenario.healthy (zoneCPUKey Scenario.fresh)
            (Unmarshal_ZoneCPUUtilizationRatio Scenario.healthy) = Fetched zc
          ∧ ∀ zone,
              zoneCPUMap (Scenario.after (updateZoneCPUMap Scenario.healthy Scenario.fresh))
                !! zone
              = lastValue zone (ZoneCPUUtilizationRatio.Date zc).
Proof.
  split; [by vm_compute|].
  apply (updateZoneCPUMap_last_wins Scenario.healthy Scenario.fresh). by vm_compute.
Defined.

Lemma updateInstanceFactorMap_last_wins_witness :
  updateInstanceFactorMap Scenario.healthy Scenario.fresh
    = Normal None (Scenario.after (updateInstanceFactorMap Scenario.healthy Scenario.fresh))
  ∧ ∃ i m, answer Scenario.healthy (instanceFactorKey Scenario.fresh)
             (Unmarshal_InstanceFactor Scenario.healthy) = Fetched i
           ∧ instanceFactorMap
               (Scenario.after (updateInstanceFactorMap Scenario.healthy Scenario.fresh))
             = Some m
           ∧ ∀ id, m !! id
                   = InstanceMetaInfo.CPUUtilization
                       <$> lastEntry id (InstanceFactor.Date i).
Proof.
  split; [by vm_compute|].
  apply (updateInstanceFactorMap_last_wins Scenario.healthy Scenario.fresh). by vm_compute.
Defined.

(** ** Refreshes that do not complete *)

Lemma fetch_missing {A} w key (unmarshal : string → error + A) store r :
  answer w key unmarshal = KeyMissing → fetch w key unmarshal store r = Panic.
Proof.
  unfold answer, fetch. destruct (KV_Get w key) as [e | [kv|]]; [done | | done].
  by destruct (unmarshal _).
Qed.

(** When the registry answers a get with no error and no pair (the key does not
    exist), the reader dereferences the nil pair: the refresh panics instead of
    returning an error, whichever of the four keys it is. *)
Theorem updateAll_missing_key (w : World) (r : ConsulResolver) (lg : Logger) :
  logger r = Some lg →
  let threshold := answer w (cpuThresholdKey r) (Unmarshal_CPUThreshold w) in
  let zoneCPU := answer w (zoneCPUKey r) (Unmarshal_ZoneCPUUtilizationRatio w) in
  let lab := answer w (onlineLabKey r) (Unmarshal_OnlineLab w) in
  let instances := answer w (instanceFactorKey r) (Unmarshal_InstanceFactor w) in
  (threshold = KeyMissing → updateAll w r = Panic)
  ∧ (∀ ct, threshold = Fetched ct → zoneCPU = KeyMissing → updateAll w r = Panic)
  ∧ (∀ ct zc, threshold = Fetched ct → zoneCPU = Fetched zc → lab = KeyMissing →
       updateAll w r = Panic)
  ∧ (∀ ct zc ol, threshold = Fetched ct → zoneCPU = Fetched zc → lab = Fetched ol →
       instances = KeyMissing → updateAll w r = Panic).
Proof.
  intros Hlog. simpl. split_and!.
  - intros H1. unfold updateAll, mbind, M_bind. rewrite (log_ok _ lg Hlog).
    unfold updateCPUThreshold, mbind, M_bind, gets.
    by rewrite (fetch_missing _ _ _ _ _ H1).
  - intros ct H1 H2. unfold updateAll, mbind, M_bind. rewrite (log_ok _ lg Hlog).
    unfold updateCPUThreshold, updateZoneCPUMap, mbind, M_bind, gets.
    rewrite (fetch_fetched _ _ _ (λ ct, set_cpuThreshold (CThreshold ct)) _ _ lg H1); [|done..].
    by rewrite (fetch_missing _ _ _ _ _ H2).
  - intros ct zc H1 H2 H3. unfold updateAll, mbind, M_bind. rewrite (log_ok _ lg Hlog).
    unfold updateCPUThreshold, updateZoneCPUMap, updateOnlineLabFactor, mbind, M_bind, gets.
    rewrite (fetch_fetched _ _ _ (λ ct, set_cpuThreshold (CThreshold ct)) _ _ lg H1); [|done..].
    rewrite (fetch_fetched _ _ _ (λ zc, set_zoneCPUMap (zoneCPUMapOf zc)) _ _ lg H2); [|done..].
    by rewrite (fetch_missing _ _ _ _ _ H3).
  - intros ct zc ol H1 H2 H3 H4. unfold updateAll, mbind, M_bind. rewrite (log_ok _ lg Hlog).
    unfold updateCPUThreshold, updateZoneCPUMap, updateOnlineLabFactor,
      updateInstanceFactorMap, mbind, M_bind, gets.
    rewrite (fetch_fetched _ _ _ (λ ct, set_cpuThreshold (CThreshold ct)) _ _ lg H1); [|done..].
    rewrite (fetch_fetched _ _ _ (λ zc, set_zoneCPUMap (zoneCPUMapOf zc)) _ _ lg H2); [|done..].
    rewrite (fetch_fetched _ _ _ (λ ol, set_onlineLab (Some ol)) _ _ lg H3); [|done..].
    by rewrite (fetch_missing _ _ _ _ _ H4).
Qed.

Lemma updateAll_missing_key_witness :
  logger Scenario.fresh = Some TheLogger
  ∧ updateAll Fixture.keyless Scenario.fresh = Panic.
Proof.
  split; [reflexivity|].
  apply (proj1 (updateAll_missing_key Fixture.keyless Scenario.fresh TheLogger eq_refl)).
  by vm_compute.
Defined.

Lemma fetch_preserves {A B} (proj : ConsulResolver → B) w key
    (unmarshal : string → error + A) f r e r' :
  (∀ a r0, proj (f a r0) = proj r0) →
  fetch w key unmarshal (λ x, modify (f x)) r = Normal e r' → proj r' = proj r.
Proof.
  intros Hf. unfold fetch. destruct (KV_Get w key) as [err | res].
  { by intros [= _ <-]. }
  intros (kv & r1 & ->%readonly_deref & H)%bind_Normal.
  destruct (unmarshal _) as [err | a].
  { by injection H as _ <-. }
  apply bind_Normal in H as (? & r2 & [= _ <-] & (? & r3 & ->%readonly_log & [= _ <-]
    )%bind_Normal).
  apply Hf.
Qed.

(** A refresh that returns an error stopped in a config fetch or in the health query:
    what the later stages write is as it was. *)
Lemma updateAll_failed w r err r' :
  updateAll w r = Normal (Some err) r' →
  (candidatePool r', metric r', balanceFactorCache r', serviceZones r', localZone r',
   lastIndex r')
  = (candidatePool r, metric r, balanceFactorCache r, serviceZones r, localZone r,
     lastIndex r).
Proof.
  set (kept := λ r : ConsulResolver,
         (candidatePool r, metric r, balanceFactorCache r, serviceZones r, localZone r,
          lastIndex r)).
  change (updateAll w r = Normal (Some err) r' → kept r' = kept r).
  intros Hrun. unfold updateAll in Hrun.
  apply bind_Normal in Hrun as (? & ? & ->%readonly_log & (e1 & r1 & H1 & H)%bind_Normal).
  unfold updateCPUThreshold in H1. apply bind_Normal in H1 as (? & ? & [= <- <-] & H1).
  apply (fetch_preserves kept) in H1; [|done].
  destruct e1; [by injection H as _ <-|].
  apply bind_Normal in H as (e2 & r2 & H2 & H).
  unfold updateZoneCPUMap in H2. apply bind_Normal in H2 as (? & ? & [= <- <-] & H2).
  apply (fetch_preserves kept) in H2; [|done].
  destruct e2; [injection H as _ <-; congruence|].
  apply bind_Normal in H as (e3 & r3 & H3 & H).
  unfold updateOnlineLabFactor in H3. apply bind_Normal in H3 as (? & ? & [= <- <-] & H3).
  apply (fetch_preserves kept) in H3; [|done].
  destruct e3; [injection H as _ <-; congruence|].
  apply bind_Normal in H as (e4 & r4 & H4 & H).
  unfold updateInstanceFactorMap in H4. apply bind_Normal in H4 as (? & ? & [= <- <-] & H4).
  apply (fetch_preserves kept) in H4; [|done].
  destruct e4; [injection H as _ <-; congruence|].
  apply bind_Normal in H as (e5 & r5 & H5 & H).
  destruct e5 as [e5|].
  - injection H as _ <-. unfold updateServiceZone in H5.
    apply bind_Normal in H5 as (? & ? & [= <- <-] & (? & ? & [= <- <-] & (? & ? & [= <- <-]
      & H5)%bind_Normal)%bind_Normal).
    destruct (Health_Service _ _ _ _) as [e | [res li]].
    + injection H5 as _ <-. congruence.
    + apply bind_Normal in H5 as (? & ? & _ & (? & ? & _ & (? & ? & _ & (? & ? & _ & H5
        )%bind_Normal)%bind_Normal)%bind_Normal). done.
  - apply bind_Normal in H as (? & ? & _ & (? & ? & _ & (? & ? & _ & H)%bind_Normal
      )%bind_Normal). done.
Qed.

(** A refresh that returns an error, from a config fetch or from the health query,
    leaves the published pool as it was, with its weights, and also the metric, the
    factor cache, the topology and the wait index. *)
Theorem failed_refresh_keeps_the_pool (w : World) (r r' : ConsulResolver) (err : error) :
  updateAll w r = Normal (Some err) r' →
  candidatePool r' = candidatePool r ∧ metric r' = metric r
  ∧ balanceFactorCache r' = balanceFactorCache r
  ∧ serviceZones r' = serviceZones r ∧ localZone r' = localZone r
  ∧ lastIndex r' = lastIndex r.
Proof.
  intros Hrun. pose proof (updateAll_failed _ _ _ _ Hrun) as Hkept.
  by injection Hkept as -> -> -> -> -> ->.
Qed.

Lemma failed_refresh_keeps_the_pool_witness :
  updateAll Scenario.brokenZoneCPU Scenario.serving
    = Normal (Some "invalid character"%string)
        (Scenario.after (updateAll Scenario.brokenZoneCPU Scenario.serving))
  ∧ candidatePool (Scenario.after (updateAll Scenario.brokenZoneCPU Scenario.serving))
    = candidatePool Scenario.serving
  ∧ metric (Scenario.after (updateAll Scenario.brokenZoneCPU Scenario.serving))
    = metric Scenario.serving
  ∧ balanceFactorCache (Scenario.after (updateAll Scenario.brokenZoneCPU Scenario.serving))
    = balanceFactorCache Scenario.serving
  ∧ serviceZones (Scenario.after (updateAll Scenario.brokenZoneCPU Scenario.serving))
    = serviceZones Scenario.serving
  ∧ localZone (Scenario.after (updateAll Scenario.brokenZoneCPU Scenario.serving))
    = localZone Scenario.serving
  ∧ lastIndex (Scenario.after (updateAll Scenario.brokenZoneCPU Scenario.serving))
    = lastIndex Scenario.serving.
Proof.
  split; [by vm_compute|].
  apply (failed_refresh_keeps_the_pool Scenario.brokenZoneCPU Scenario.serving _
           "invalid character"). by vm_compute.
Defined.

(** ** The topology refresh *)

Lemma arrived_Zone ifm v : ServiceNode.Zone (arrived ifm v) = ServiceNode.Zone v.
Proof. unfold arrived. by destruct (_ !! _). Qed.

Lemma arrived_InstanceID ifm v :
  ServiceNode.InstanceID (arrived ifm v) = ServiceNode.InstanceID v.
Proof. unfold arrived. by destruct (_ !! _). Qed.

Lemma arrived_reset ifm v :
  ServiceNode.set_WorkLoad 0 (arrived ifm v) = ServiceNode.set_WorkLoad 0 v.
Proof. unfold arrived. by destruct (_ !! _). Qed.

(** The body of the grouping loop, when it returns. *)
Lemma groupNode_exact m v r m' r' :
  groupNode m v r = Normal m' r' →
  ∃ ifm, instanceFactorMap r = Some ifm
    ∧ m' = (groupStep (zoneCPUMap r) (m, ifm) v).1
    ∧ r' = set_instanceFactorMap (Some (groupStep (zoneCPUMap r) (m, ifm) v).2) r.
Proof.
  unfold groupNode.
  intros (ifm & r1 & [= <- <-] & (ifm' & r2 & Hd & (u & r3 & [= _ <-] & H)%bind_Normal
    )%bind_Normal)%bind_Normal.
  destruct (instanceFactorMap r) as [ifm|] eqn:Hifm; [|done].
  injection Hd as <- <-. exists ifm. split; [done|].
  simpl in H. fold (arrived ifm v) in H. rewrite arrived_Zone, ?arrived_InstanceID in H.
  unfold groupStep. simpl.
  destruct (m !! ServiceNode.Zone v) as [sz|] eqn:Hm.
  - apply bind_Normal in H as (? & ? & Hlog & [= <- <-]).
    by apply readonly_log in Hlog as ->.
  - apply bind_Normal in H as (zmap & ? & [= <- <-] & (? & ? & Hlog & [= <- <-])%bind_Normal).
    apply readonly_log in Hlog as ->. simpl. by rewrite arrived_Zone.
Qed.

Lemma set_instanceFactorMap_same r ifm :
  instanceFactorMap r = Some ifm → set_instanceFactorMap (Some ifm) r = r.
Proof. destruct r. simpl. by intros ->. Qed.

(** The grouping loop, when it returns, is the fold of its steps. *)
Lemma group_loop_exact nodes :
  ∀ m r m' r' ifm,
    instanceFactorMap r = Some ifm →
    forM groupNode nodes m r = Normal m' r' →
    m' = (foldl (groupStep (zoneCPUMap r)) (m, ifm) nodes).1
    ∧ r' = set_instanceFactorMap (Some (foldl (groupStep (zoneCPUMap r)) (m, ifm) nodes).2) r.
Proof.
  induction nodes as [|v nodes IH]; intros m r m' r' ifm Hifm Hrun.
  - injection Hrun as <- <-. simpl. by rewrite set_instanceFactorMap_same.
  - simpl in Hrun. apply bind_Normal in Hrun as (m1 & r1 & Hstep & Hrest).
    apply groupNode_exact in Hstep as (ifm0 & Hifm0 & -> & ->).
    rewrite Hifm in Hifm0. injection Hifm0 as <-.
    eapply IH in Hrest; [|done]. simpl in Hrest. destruct Hrest as [-> ->].
    simpl. split; [done|]. by destruct r.
Qed.

(** Without an instance factor map the grouping loop returns on no node only. *)
Lemma group_loop_nil_map nodes m r m' r' :
  instanceFactorMap r = None →
  forM groupNode nodes m r = Normal m' r' → nodes = [] ∧ m' = m ∧ r' = r.
Proof.
  intros Hifm. destruct nodes as [|v nodes]; simpl.
  - by intros [= <- <-].
  - intros (m1 & r1 & (ifm & Hsome & _)%groupNode_exact & _)%bind_Normal. congruence.
Qed.

Lemma groupStep_grouped zcm st v : grouped zcm st.1 → grouped zcm (groupStep zcm st v).1.
Proof.
  destruct st as [m ifm]. simpl. intros Hinv k z. rewrite lookup_insert. case_decide as Hk.
  - intros [= <-]. subst k. destruct (m !! ServiceNode.Zone v) as [sz|] eqn:Hm; simpl.
    + destruct (Hinv _ _ Hm) as (Hz & Hne & Hw & Hn). split_and!; try done.
      * by destruct (ServiceZone.Nodes sz).
      * intros node [Hin | ->%list_elem_of_singleton]%elem_of_app; [auto|].
        apply arrived_Zone.
    + rewrite arrived_Zone. split_and!; try done.
      intros node ->%list_elem_of_singleton. apply arrived_Zone.
  - apply Hinv.
Qed.

Lemma fold_grouped zcm nodes : ∀ st,
  grouped zcm st.1 → grouped zcm (foldl (groupStep zcm) st nodes).1.
Proof.
  induction nodes as [|v nodes IH]; intros st Hinv; [done|].
  simpl. apply IH. by apply groupStep_grouped.
Qed.

Lemma groupStep_nodes zcm st v :
  allNodes (map_to_list (groupStep zcm st v).1).*2
  ≡ₚ allNodes (map_to_list st.1).*2 ++ [arrived st.2 v].
Proof.
  destruct st as [m ifm]. simpl. unfold allNodes.
  destruct (m !! ServiceNode.Zone v) as [sz|] eqn:Hm; simpl.
  - rewrite <- (insert_delete_eq m).
    rewrite map_to_list_insert by apply lookup_delete_eq.
    rewrite <- (map_to_list_delete m _ _ Hm). simpl.
    rewrite <- !app_assoc. apply Permutation_app_head. apply Permutation_app_comm.
  - rewrite map_to_list_insert by done. simpl.
    apply Permutation_cons_append.
Qed.

Lemma fold_nodes zcm nodes : ∀ st,
  ServiceNode.set_WorkLoad 0 <$> allNodes (map_to_list (foldl (groupStep zcm) st nodes).1).*2
  ≡ₚ (ServiceNode.set_WorkLoad 0 <$> allNodes (map_to_list st.1).*2)
     ++ (ServiceNode.set_WorkLoad 0 <$> nodes).
Proof.
  induction nodes as [|v nodes IH]; intros st; simpl.
  - by rewrite app_nil_r.
  - rewrite IH, groupStep_nodes, fmap_app, <- app_assoc. simpl. by rewrite arrived_reset.
Qed.

Lemma fold_arrived zcm nodes : ∀ st,
  NoDup (ServiceNode.InstanceID <$> nodes) →
  ∀ n, n ∈ allNodes (map_to_list (foldl (groupStep zcm) st nodes).1).*2 →
    n ∈ allNodes (map_to_list st.1).*2 ∨ ∃ v, v ∈ nodes ∧ n = arrived st.2 v.
Proof.
  induction nodes as [|v nodes IH]; intros st Hnd n; [by left|].
  rewrite fmap_cons in Hnd. apply NoDup_cons in Hnd as [Hv Hnd]. cbn [foldl].
  intros Hin. apply IH in Hin as [Hin | (v' & Hv' & ->)]; [| |done].
  - rewrite groupStep_nodes in Hin.
    apply elem_of_app in Hin as [Hin | ->%list_elem_of_singleton]; [by left|].
    right. exists v. split; [by left | done].
  - right. exists v'. split; [by right|]. destruct st as [m ifm]. unfold arrived. simpl.
    rewrite lookup_insert_ne; [done|]. intros Heq. apply Hv. rewrite Heq.
    apply list_elem_of_fmap. eauto.
Qed.

Lemma fold_registered zcm nodes : ∀ st id,
  (foldl (groupStep zcm) st nodes).2 !! id
  = if decide (id ∈ ServiceNode.InstanceID <$> nodes)
    then Some (default 0 (st.2 !! id)) else st.2 !! id.
Proof.
  induction nodes as [|v nodes IH]; intros st id.
  - rewrite fmap_nil. cbn [foldl]. rewrite decide_False; [done|]. apply not_elem_of_nil.
  - rewrite fmap_cons. cbn [foldl]. rewrite IH. destruct st as [m ifm].
    unfold groupStep. cbn [fst snd]. rewrite lookup_insert.
    destruct (decide (ServiceNode.InstanceID v = id)) as [<-|Hne].
    + rewrite (decide_True (P := _ ∈ _ :: _)) by left. cbn [default]. by case_decide.
    + destruct (decide (id ∈ ServiceNode.InstanceID <$> nodes)) as [Hin|Hout].
      * rewrite decide_True; [done|]. by right.
      * rewrite decide_False; [done|]. intros [Heq|Hin]%elem_of_cons; auto.
Qed.

(** A topology refresh that returns no error, taken apart. *)
Lemma updateServiceZone_exact w r r' :
  updateServiceZone w r = Normal None r' →
  ∃ res LastIndex m r1 zs r2,
    Health_Service w (service r) (lastIndex r) (timeout r) = inr (res, LastIndex)
    ∧ forM groupNode (entryNode w <$> res) ∅ (set_lastIndex LastIndex r) = Normal m r1
    ∧ forM collectZone (range_map w (map_to_list m)) [] r1 = Normal zs r2
    ∧ r' = set_serviceZones zs r2.
Proof.
  unfold updateServiceZone.
  intros (s & r1 & [= <- <-] & (li & r2 & [= <- <-] & (t & r3 & [= <- <-] & H)%bind_Normal
    )%bind_Normal)%bind_Normal.
  destruct (Health_Service _ _ _ _) as [err | [res LastIndex]] eqn:Hh; [done|].
  apply bind_Normal in H as (u & r4 & [= _ <-] & (m & r5 & Hgroup & (zs & r6 & Hcollect
    & (u' & r7 & [= _ <-] & [= <-])%bind_Normal)%bind_Normal)%bind_Normal).
  by exists res, LastIndex, m, r5, zs, r6.
Qed.

Lemma grouped_empty zcm : grouped zcm ∅.
Proof. intros k z. by rewrite lookup_empty. Qed.

(** The zone map of a topology refresh that returns no error. *)
Lemma updateServiceZone_grouped w r r' :
  updateServiceZone w r = Normal None r' →
  ∃ m, grouped (zoneCPUMap r) m ∧ serviceZones r' = (range_map w (map_to_list m)).*2.
Proof.
  intros (res & li & m & r1 & zs & r2 & _ & Hgroup & Hcollect & ->)%updateServiceZone_exact.
  apply collect_loop_spec in Hcollect as (-> & _ & _). exists m. split; [|done].
  destruct (instanceFactorMap r) as [ifm|] eqn:Hifm.
  - eapply group_loop_exact in Hgroup as [-> _]; [|done]. apply fold_grouped, grouped_empty.
  - apply group_loop_nil_map in Hgroup as (_ & -> & _); [|done]. apply grouped_empty.
Qed.

Lemma groupStep_at zcm st v k :
  nodesAt (groupStep zcm st v).1 k
  = nodesAt st.1 k ++ (if decide (ServiceNode.Zone v = k) then [arrived st.2 v] else []).
Proof.
  destruct st as [m ifm]. unfold nodesAt, groupStep. cbn [fst snd].
  rewrite lookup_insert. destruct (decide (ServiceNode.Zone v = k)) as [<-|Hne]; simpl.
  - by destruct (m !! ServiceNode.Zone v).
  - by rewrite app_nil_r.
Qed.

Lemma fold_at zcm nodes : ∀ st k,
  ServiceNode.set_WorkLoad 0 <$> nodesAt (foldl (groupStep zcm) st nodes).1 k
  = (ServiceNode.set_WorkLoad 0 <$> nodesAt st.1 k)
    ++ (ServiceNode.set_WorkLoad 0 <$> filter (λ v, ServiceNode.Zone v = k) nodes).
Proof.
  induction nodes as [|v nodes IH]; intros st k.
  - by rewrite filter_nil, app_nil_r.
  - cbn [foldl]. rewrite IH, groupStep_at, filter_cons, fmap_app, <- app_assoc.
    f_equal. destruct (decide (ServiceNode.Zone v = k)); [|done].
    cbn [fmap list_fmap app]. by rewrite arrived_reset.
Qed.

Lemma reset_entryNode w (res : list api.ServiceEntry) :
  ServiceNode.set_WorkLoad 0 <$> (entryNode w <$> res) = entryNode w <$> res.
Proof. rewrite <- list_fmap_compose. by apply list_fmap_ext. Qed.

Lemma reset_filter_entryNode w (res : list api.ServiceEntry) k :
  ServiceNode.set_WorkLoad 0 <$> filter (λ v, ServiceNode.Zone v = k) (entryNode w <$> res)
  = filter (λ v, ServiceNode.Zone v = k) (entryNode w <$> res).
Proof.
  induction res as [|e res IH]; [done|].
  rewrite fmap_cons, filter_cons. destruct (decide _); [|done].
  rewrite fmap_cons, IH. done.
Qed.

(** The zone map of a topology refresh that returns no error, against the entries the
    registry answered. *)
Lemma updateServiceZone_folded w r r' :
  range_ok w →
  updateServiceZone w r = Normal None r' →
  ∃ res li m,
    Health_Service w (service r) (lastIndex r) (timeout r) = inr (res, li)
    ∧ lastIndex r' = li
    ∧ serviceZones r' = (range_map w (map_to_list m)).*2
    ∧ grouped (zoneCPUMap r) m
    ∧ ServiceNode.set_WorkLoad 0 <$> allNodes (map_to_list m).*2 ≡ₚ entryNode w <$> res
    ∧ ∀ k, ServiceNode.set_WorkLoad 0 <$> nodesAt m k
           = filter (λ v, ServiceNode.Zone v = k) (entryNode w <$> res).
Proof.
  intros Hrange
    (res & li & m & r1 & zs & r2 & Hh & Hgroup & Hcollect & ->)%updateServiceZone_exact.
  exists res, li, m.
  pose proof Hcollect as Hr2. apply collect_loop_spec in Hr2 as (-> & Hr2 & _).
  unfold lz_only in Hr2.
  destruct (instanceFactorMap r) as [ifm|] eqn:Hifm.
  - destruct (group_loop_exact _ _ _ _ _ _
      (Hifm : instanceFactorMap (set_lastIndex li r) = Some ifm) Hgroup) as [-> ->].
    split_and!; [done | by rewrite Hr2 | done | apply fold_grouped, grouped_empty | |].
    + rewrite fold_nodes. simpl. rewrite map_to_list_empty. simpl. by rewrite reset_entryNode.
    + intros k. rewrite fold_at. unfold nodesAt at 1. simpl. rewrite lookup_empty. simpl.
      apply reset_filter_entryNode.
  - apply group_loop_nil_map in Hgroup as (Hnil & -> & ->); [|done].
    apply fmap_nil_inv in Hnil as ->.
    split_and!; [done | by rewrite Hr2 | done | apply grouped_empty | |].
    + by rewrite map_to_list_empty.
    + intros k. unfold nodesAt. by rewrite lookup_empty.
Qed.

Lemma grouped_NoDup w zcm m :
  range_ok w → grouped zcm m →
  NoDup (ServiceZone.Zone <$> (range_map w (map_to_list m)).*2).
Proof.
  intros Hrange Hinv.
  assert (ServiceZone.Zone <$> (range_map w (map_to_list m)).*2
          = (range_map w (map_to_list m)).*1) as ->.
  { rewrite <- list_fmap_compose. apply list_fmap_ext.
    intros i [k z] Hin%list_elem_of_lookup_2. rewrite (Hrange _) in Hin.
    apply elem_of_map_to_list in Hin. by destruct (Hinv _ _ Hin). }
  rewrite (Hrange _). apply NoDup_fst_map_to_list.
Qed.

(** The zones a topology refresh lists when it returns no error: their names are
    pairwise distinct, none is empty, each carries the CPU figure the zone CPU map
    holds for its name (100 when there is none), and every node carries the name of
    the zone it is listed in. *)
Theorem topology_zones_well_formed (w : World) (r r' : ConsulResolver) :
  range_ok w →
  updateServiceZone w r = Normal None r' →
  NoDup (ServiceZone.Zone <$> serviceZones r')
  ∧ ∀ z, z ∈ serviceZones r' →
      ServiceZone.Nodes z ≠ []
      ∧ ServiceZone.WorkLoad z = default 100 (zoneCPUMap r !! ServiceZone.Zone z)
      ∧ ∀ node, node ∈ ServiceZone.Nodes z → ServiceNode.Zone node = ServiceZone.Zone z.
Proof.
  intros Hrange (m & Hinv & ->)%updateServiceZone_grouped. split.
  - by eapply grouped_NoDup.
  - intros z ([k z'] & -> & Hin)%list_elem_of_fmap. simpl.
    rewrite (Hrange _) in Hin. apply elem_of_map_to_list in Hin.
    by destruct (Hinv _ _ Hin) as (-> & ? & ? & ?).
Qed.

Lemma topology_zones_well_formed_witness :
  range_ok Scenario.healthy
  ∧ updateServiceZone Scenario.healthy Fixture.refreshing
    = Normal None (Scenario.after (updateServiceZone Scenario.healthy Fixture.refreshing))
  ∧ NoDup (ServiceZone.Zone <$>
      serviceZones (Scenario.after (updateServiceZone Scenario.healthy Fixture.refreshing)))
  ∧ ∀ z, z ∈ serviceZones
               (Scenario.after (updateServiceZone Scenario.healthy Fixture.refreshing)) →
      ServiceZone.Nodes z ≠ []
      ∧ ServiceZone.WorkLoad z
        = default 100 (zoneCPUMap Fixture.refreshing !! ServiceZone.Zone z)
      ∧ ∀ node, node ∈ ServiceZone.Nodes z → ServiceNode.Zone node = ServiceZone.Zone z.
Proof.
  split; [apply range_ok_world|]. split; [by vm_compute|].
  apply (topology_zones_well_formed Scenario.healthy Fixture.refreshing);
    [apply range_ok_world | by vm_compute].
Defined.

Lemma collect_loop_frame l acc r zs r' :
  forM collectZone l acc r = Normal zs r' → lz_only r r'.
Proof. by intros (_ & ? & _)%collect_loop_spec. Qed.

(** The topology refresh lists every entry the registry answers exactly once: the
    nodes of the zones are, up to order and the workload written on them, the nodes
    built from the entries, and every zone lists the nodes of its name in the order
    the registry answered them.  The wait index the registry answers is kept. *)
Theorem topology_lists_every_entry (w : World) (r r' : ConsulResolver) :
  range_ok w →
  updateServiceZone w r = Normal None r' →
  ∃ res LastIndex,
    Health_Service w (service r) (lastIndex r) (timeout r) = inr (res, LastIndex)
    ∧ lastIndex r' = LastIndex
    ∧ ServiceNode.set_WorkLoad 0 <$> allNodes (serviceZones r') ≡ₚ entryNode w <$> res
    ∧ ∀ z, z ∈ serviceZones r' →
        ServiceNode.set_WorkLoad 0 <$> ServiceZone.Nodes z
        = filter (λ v, ServiceNode.Zone v = ServiceZone.Zone z) (entryNode w <$> res).
Proof.
  intros Hrange Hrun.
  destruct (updateServiceZone_folded _ _ _ Hrange Hrun)
    as (res & li & m & Hh & Hli & Hzs & Hinv & Hall & Hat).
  exists res, li. split_and!; [done | done | |].
  - rewrite Hzs. unfold allNodes in *. by rewrite (Hrange _).
  - intros z Hz. rewrite Hzs in Hz.
    apply list_elem_of_fmap in Hz as ([k z'] & -> & Hin). simpl.
    rewrite (Hrange _) in Hin. apply elem_of_map_to_list in Hin.
    destruct (Hinv _ _ Hin) as (-> & _). rewrite <- Hat. unfold nodesAt. by rewrite Hin.
Qed.

Lemma topology_lists_every_entry_witness :
  range_ok Scenario.healthy
  ∧ updateServiceZone Scenario.healthy Fixture.refreshing
    = Normal None (Scenario.after (updateServiceZone Scenario.healthy Fixture.refreshing))
  ∧ ∃ res LastIndex,
      Health_Service Scenario.healthy (service Fixture.refreshing)
        (lastIndex Fixture.refreshing) (timeout Fixture.refreshing) = inr (res, LastIndex)
      ∧ lastIndex (Scenario.after (updateServiceZone Scenario.healthy Fixture.refreshing))
        = LastIndex
      ∧ ServiceNode.set_WorkLoad 0 <$>
          allNodes (serviceZones
            (Scenario.after (updateServiceZone Scenario.healthy Fixture.refreshing)))
        ≡ₚ entryNode Scenario.healthy <$> res
      ∧ ∀ z, z ∈ serviceZones
                   (Scenario.after (updateServiceZone Scenario.healthy Fixture.refreshing)) →
          ServiceNode.set_WorkLoad 0 <$> ServiceZone.Nodes z
          = filter (λ v, ServiceNode.Zone v = ServiceZone.Zone z)
              (entryNode Scenario.healthy <$> res).
Proof.
  split; [apply range_ok_world|]. split; [by vm_compute|].
  apply (topology_lists_every_entry Scenario.healthy Fixture.refreshing);
    [apply range_ok_world | by vm_compute].
Defined.

(** The last loop of the topology refresh leaves the zone of the resolver's own name
    in [localZone], when it visits one. *)
Lemma collect_loop_local l :
  ∀ acc r zs r',
    forM collectZone l acc r = Normal zs r' →
    (∃ kv, kv ∈ l ∧ ServiceZone.Zone kv.2 = zone r) →
    ∃ kv, kv ∈ l ∧ ServiceZone.Zone kv.2 = zone r ∧ localZone r' = Some kv.2.
Proof.
  induction l as [|kv l IH]; intros acc r zs r' Hrun [kv0 [Hin0 Hz0]].
  - by apply elem_of_nil in Hin0.
  - simpl in Hrun. apply bind_Normal in Hrun as (acc1 & r1 & Hstep & Hrest).
    unfold collectZone in Hstep.
    apply bind_Normal in Hstep as (z & r0 & [= <- <-] & (u & r2 & Hset & [= <- <-])%bind_Normal).
    assert (zone r2 = zone r) as Hzone.
    { destruct (String.eqb _ _); by injection Hset as _ <-. }
    destruct (decide (Exists (λ kv', ServiceZone.Zone kv'.2 = zone r) l)) as [Hex|Hno].
    + apply Exists_exists in Hex as (kv' & Hin' & Hz').
      destruct (IH _ _ _ _ Hrest) as (kv1 & Hin1 & Hz1 & Hlz).
      { exists kv'. by rewrite Hzone. }
      exists kv1. rewrite Hzone in Hz1. split_and!; [by right | done | done].
    + apply collect_loop_spec in Hrest as (_ & _ & Hkeep).
      assert (ServiceZone.Zone kv.2 = zone r) as Hkv.
      { apply elem_of_cons in Hin0 as [<- | Hin0]; [done|].
        destruct Hno. apply Exists_exists. eauto. }
      exists kv. split_and!; [by left | done |].
      rewrite Hkeep.
      * apply String.eqb_eq in Hkv. rewrite Hkv in Hset. by injection Hset as _ <-.
      * intros kv' Hin' Hz'. apply Hno. apply Exists_exists. exists kv'.
        by rewrite <- Hzone.
Qed.

(** The topology refresh points [localZone] to the listed zone of the resolver's own
    name, when the registry lists an entry of that zone. *)
Lemma updateServiceZone_local_listed w r r' res li :
  range_ok w →
  updateServiceZone w r = Normal None r' →
  Health_Service w (service r) (lastIndex r) (timeout r) = inr (res, li) →
  zone r ∈ zoneOfEntry w <$> res →
  ∃ z, localZone r' = Some z ∧ z ∈ serviceZones r' ∧ ServiceZone.Zone z = zone r.
Proof.
  intros Hrange
    (res0 & li0 & m & r1 & zs & r2 & Hh & Hgroup & Hcollect & ->)%updateServiceZone_exact
    Hh0 (e & Hze & He)%list_elem_of_fmap.
  rewrite Hh0 in Hh. injection Hh as <- <-.
  apply group_loop_spec in Hgroup as (Hr1 & Hall & _ & _ & Hinv).
  assert (zoneMapInv m) as Hm by (apply Hinv; intros k z; by rewrite lookup_empty).
  assert (zone r1 = zone r) as Hz1 by (unfold ifm_only in Hr1; by rewrite Hr1).
  assert (is_Some (m !! zone r)) as [z Hz].
  { rewrite Hze. apply Hall. apply list_elem_of_fmap. eauto. }
  pose proof Hcollect as Hzs. apply collect_loop_spec in Hzs as (-> & _ & _).
  apply collect_loop_local in Hcollect as (kv & Hin & Hname & Hlz).
  - exists kv.2. simpl. split_and!; [done | | by rewrite Hname, Hz1].
    apply list_elem_of_fmap. eauto.
  - exists (zone r, z). split.
    + rewrite (Hrange _). by apply elem_of_map_to_list.
    + rewrite Hz1. simpl. by destruct (Hm _ _ Hz).
Qed.

(** Which zone a topology refresh makes the local one.  When the registry lists an
    entry in the resolver's own zone, [localZone] is the listed zone of that name.
    When it lists none, [localZone] keeps the zone of an earlier refresh, or stays
    nil. *)
Theorem localZone_after_refresh (w : World) (r r' : ConsulResolver) :
  range_ok w →
  updateServiceZone w r = Normal None r' →
  ∃ res LastIndex,
    Health_Service w (service r) (lastIndex r) (timeout r) = inr (res, LastIndex)
    ∧ if decide (zone r ∈ zoneOfEntry w <$> res)
      then ∃ z, localZone r' = Some z ∧ z ∈ serviceZones r' ∧ ServiceZone.Zone z = zone r
      else localZone r' = localZone r.
Proof.
  intros Hrange Hrun.
  destruct (updateServiceZone_no_local _ _ _ Hrange Hrun) as (res & li & Hh & Hkeep & _).
  exists res, li. split; [done|]. case_decide as Hlocal.
  - by apply (updateServiceZone_local_listed w r r' res li).
  - apply Hkeep. intros e He Hname. apply Hlocal.
    apply list_elem_of_fmap. exists e. by split.
Qed.

Lemma localZone_after_refresh_witness :
  range_ok Scenario.healthy
  ∧ updateServiceZone Scenario.healthy Fixture.refreshing
    = Normal None (Scenario.after (updateServiceZone Scenario.healthy Fixture.refreshing))
  ∧ ∃ res LastIndex,
      Health_Service Scenario.healthy (service Fixture.refreshing)
        (lastIndex Fixture.refreshing) (timeout Fixture.refreshing) = inr (res, LastIndex)
      ∧ if decide (zone Fixture.refreshing ∈ zoneOfEntry Scenario.healthy <$> res)
        then ∃ z,
          localZone (Scenario.after (updateServiceZone Scenario.healthy Fixture.refreshing))
            = Some z
          ∧ z ∈ serviceZones
                  (Scenario.after (updateServiceZone Scenario.healthy Fixture.refreshing))
          ∧ ServiceZone.Zone z = zone Fixture.refreshing
        else
          localZone (Scenario.after (updateServiceZone Scenario.healthy Fixture.refreshing))
          = localZone Fixture.refreshing.
Proof.
  split; [apply range_ok_world|]. split; [by vm_compute|].
  apply (localZone_after_refresh Scenario.healthy Fixture.refreshing);
    [apply range_ok_world | by vm_compute].
Defined.


(** What the topology refresh does with the instance factor map.  Every listed
    instance id becomes a key of the map: a known id keeps its value, an unknown one
    is entered with 0, and no other key changes.  When the listed ids are distinct, a
    node carries the workload 100 when its id was unknown and the workload 0 it was
    built with when its id was known: the value of the map is not written on it. *)
Theorem topology_workloads (w : World) (r r' : ConsulResolver) (ifm : gmap string float64) :
  range_ok w →
  instanceFactorMap r = Some ifm →
  updateServiceZone w r = Normal None r' →
  ∃ res LastIndex ifm',
    Health_Service w (service r) (lastIndex r) (timeout r) = inr (res, LastIndex)
    ∧ instanceFactorMap r' = Some ifm'
    ∧ (∀ id, ifm' !! id = if decide (id ∈ idOfEntry w <$> res)
                          then Some (default 0 (ifm !! id)) else ifm !! id)
    ∧ (NoDup (idOfEntry w <$> res) →
       ∀ node, node ∈ allNodes (serviceZones r') →
         ServiceNode.WorkLoad node
         = if ifm !! ServiceNode.InstanceID node is Some _ then 0 else 100).
Proof.
  intros Hrange Hifm
    (res & li & m & r1 & zs & r2 & Hh & Hgroup & Hcollect & ->)%updateServiceZone_exact.
  pose proof (collect_loop_frame _ _ _ _ _ Hcollect) as Hr2.
  apply collect_loop_spec in Hcollect as (-> & _ & _).
  destruct (group_loop_exact _ _ _ _ _ _
    (Hifm : instanceFactorMap (set_lastIndex li r) = Some ifm) Hgroup) as [-> ->].
  assert (ServiceNode.InstanceID <$> (entryNode w <$> res) = idOfEntry w <$> res) as Hids.
  { by rewrite <- list_fmap_compose. }
  eexists res, li, _. split_and!.
  - done.
  - simpl. unfold lz_only in Hr2. by rewrite Hr2.
  - intros id. rewrite fold_registered. simpl. by rewrite Hids.
  - intros Hnd node Hin. simpl in Hin. unfold allNodes in Hin. rewrite (Hrange _) in Hin.
    apply fold_arrived in Hin as [Hin | (v & (e & -> & He)%list_elem_of_fmap & ->)].
    + simpl in Hin. rewrite map_to_list_empty in Hin. by apply elem_of_nil in Hin.
    + simpl. rewrite arrived_InstanceID. unfold arrived. by destruct (_ !! _).
    + by rewrite Hids.
Qed.

Lemma topology_workloads_witness :
  range_ok Scenario.healthy
  ∧ instanceFactorMap Fixture.refreshing = Some {["a1"%string := 50]}
  ∧ updateServiceZone Scenario.healthy Fixture.refreshing
    = Normal None (Scenario.after (updateServiceZone Scenario.healthy Fixture.refreshing))
  ∧ ∃ res LastIndex ifm',
      Health_Service Scenario.healthy (service Fixture.refreshing)
        (lastIndex Fixture.refreshing) (timeout Fixture.refreshing) = inr (res, LastIndex)
      ∧ instanceFactorMap
          (Scenario.after (updateServiceZone Scenario.healthy Fixture.refreshing)) = Some ifm'
      ∧ (∀ id, ifm' !! id = if decide (id ∈ idOfEntry Scenario.healthy <$> res)
                            then Some (default 0 (({["a1"%string := 50]} : gmap _ _) !! id))
                            else ({["a1"%string := 50]} : gmap _ _) !! id)
      ∧ (NoDup (idOfEntry Scenario.healthy <$> res) →
         ∀ node, node ∈ allNodes (serviceZones
            (Scenario.after (updateServiceZone Scenario.healthy Fixture.refreshing))) →
           ServiceNode.WorkLoad node
           = if ({["a1"%string := 50]} : gmap _ _) !! ServiceNode.InstanceID node is Some _
             then 0 else 100).
Proof.
  split; [apply range_ok_world|]. split; [done|]. split; [by vm_compute|].
  apply (topology_workloads Scenario.healthy Fixture.refreshing);
    [apply range_ok_world | done | by vm_compute].
Defined.

(** ** The builder, entry by entry *)

Lemma built_nil p : built p p [].
Proof. unfold built. simpl. by rewrite !app_nil_r. Qed.

Lemma built_cons p p1 p2 z node bf es :
  appended p p1 node bf → built p1 p2 es → built p p2 ((z, node, bf) :: es).
Proof.
  intros (Hn & Hf & Hw & Hs) (Hn' & Hf' & Hw' & Hs'). unfold built. simpl.
  rewrite Hn', Hf', Hw', Hs', Hn, Hf, Hw, Hs. by rewrite <- !app_assoc.
Qed.

Lemma built_app p p1 p2 es1 es2 : built p p1 es1 → built p1 p2 es2 → built p p2 (es1 ++ es2).
Proof.
  intros (Hn & Hf & Hw & Hs) (Hn' & Hf' & Hw' & Hs'). unfold built.
  rewrite Hn', Hf', Hw', Hs', Hn, Hf, Hw, Hs.
  rewrite !fmap_app, length_app, replicate_add, foldl_app. by rewrite <- !app_assoc.
Qed.

Lemma set_balanceFactorCache_same r : set_balanceFactorCache (balanceFactorCache r) r = r.
Proof. by destruct r. Qed.

Lemma cacheAfter_app c es1 es2 : cacheAfter c (es1 ++ es2) = cacheAfter (cacheAfter c es1) es2.
Proof. apply foldl_app. Qed.

Lemma justified_nil Q r : justified Q r [].
Proof. intros i e. by rewrite lookup_nil. Qed.

Lemma justified_cons Q r z node bf es :
  Q z r node bf →
  justified Q (set_balanceFactorCache
                 (<[ServiceNode.InstanceID node := bf]> (balanceFactorCache r)) r) es →
  justified Q r ((z, node, bf) :: es).
Proof.
  intros Hhead Htail [|i] e; simpl.
  - intros [= <-]. simpl. by rewrite set_balanceFactorCache_same.
  - intros He. apply (Htail i e He).
Qed.

Lemma justified_app Q r es1 es2 :
  justified Q r es1 →
  justified Q (set_balanceFactorCache (cacheAfter (balanceFactorCache r) es1) r) es2 →
  justified Q r (es1 ++ es2).
Proof.
  intros H1 H2 i e Hi. destruct (decide (i < length es1)%nat) as [Hlt|Hge].
  - rewrite lookup_app_l in Hi by done.
    rewrite take_app_le by lia. by apply H1.
  - rewrite lookup_app_r in Hi by lia.
    rewrite take_app_ge by lia. rewrite cacheAfter_app.
    apply (H2 _ _ Hi).
Qed.

(** A loop over the nodes of one zone whose body commits one entry per node. *)
Lemma node_loop_trace (f : CandidatePool.t → ServiceNode.t → M CandidatePool.t)
    (I : ConsulResolver → Prop) Q z :
  (∀ r c, I r → I (set_balanceFactorCache c r)) →
  (∀ p node r p' r', I r → f p node r = Normal p' r' →
     ∃ bf, appended p p' node bf
       ∧ r' = set_balanceFactorCache
                (<[ServiceNode.InstanceID node := bf]> (balanceFactorCache r)) r
       ∧ Q z r node bf) →
  ∀ nodes p r p' r',
    I r →
    forM f nodes p r = Normal p' r' →
    ∃ fs, length fs = length nodes
      ∧ built p p' (zip ((λ node, (z, node)) <$> nodes) fs)
      ∧ r' = set_balanceFactorCache
               (cacheAfter (balanceFactorCache r) (zip ((λ node, (z, node)) <$> nodes) fs)) r
      ∧ justified Q r (zip ((λ node, (z, node)) <$> nodes) fs).
Proof.
  intros Hkeep Hstep. induction nodes as [|node nodes IH]; intros p r p' r' HI Hrun.
  - injection Hrun as <- <-. exists []. simpl.
    split_and!; [done | apply built_nil | by rewrite set_balanceFactorCache_same
                | apply justified_nil].
  - simpl in Hrun. apply bind_Normal in Hrun as (p1 & r1 & H1 & Hrest).
    apply Hstep in H1 as (bf & Happ & -> & HQ); [|done].
    apply IH in Hrest as (fs & Hlen & Hbuilt & -> & Hjust); [|by apply Hkeep].
    exists (bf :: fs). simpl. split_and!.
    + by rewrite Hlen.
    + by eapply built_cons.
    + done.
    + by apply justified_cons.
Qed.

Lemma clampLocal_value bf r y r' : clampLocal bf r = Normal y r' → y = clampL bf.
Proof.
  unfold clampLocal, clampL. destruct (flt _ _).
  { by intros (? & ? & _ & [= <- _])%bind_Normal. }
  destruct (flt _ _).
  { by intros (? & ? & _ & [= <- _])%bind_Normal. }
  by intros [= <- _].
Qed.

Lemma clampCross_value bf r y r' : clampCross bf r = Normal y r' → y = clampC bf.
Proof.
  unfold clampCross, clampC. destruct (flt _ _).
  { by intros (? & ? & _ & [= <- _])%bind_Normal. }
  destruct (flt _ _).
  { by intros (? & ? & _ & [= <- _])%bind_Normal. }
  by intros [= <- _].
Qed.

Lemma localStart_value fc avg node r y r' :
  localStart fc avg node r = Normal y r' →
  (fc = false → y = ServiceNode.BalanceFactor node)
  ∧ (∀ c, fc = true → balanceFactorCache r !! ServiceNode.InstanceID node = Some c → y = c).
Proof.
  unfold localStart. destruct fc.
  - intros (cache & r1 & [= <- <-] & H)%bind_Normal. split; [done|].
    intros c _ Hc. rewrite Hc in H.
    by apply bind_Normal in H as (? & ? & _ & [= <- _]).
  - intros [= <- _]. split; [done|]. by intros c [=].
Qed.

Lemma localStart_miss avg node r ol y r' :
  onlineLab r = Some ol →
  balanceFactorCache r !! ServiceNode.InstanceID node = None →
  localStart true avg node r = Normal y r' →
  y = if flt 0 avg then avg else ServiceNode.BalanceFactor node * FactorStartRate ol.
Proof.
  intros Hol Hmiss. unfold localStart.
  intros (cache & r1 & [= <- <-] & H)%bind_Normal. rewrite Hmiss in H.
  destruct (flt 0 avg).
  - by apply bind_Normal in H as (? & ? & _ & [= <- _]).
  - apply bind_Normal in H as (ol' & r1 & Hol' & (? & ? & _ & [= <- _])%bind_Normal).
    unfold the_onlineLab, mbind, M_bind, gets in Hol'. rewrite Hol in Hol'.
    by injection Hol' as <- _.
Qed.

Lemma localNudge_off sz node bf r y r' :
  zoneCPUUpdated r = false → localNudge sz node bf r = Normal y r' → y = bf.
Proof.
  intros Hoff. unfold localNudge.
  intros (b & r1 & Hb & (u & r2 & [= <- <-] & H)%bind_Normal)%bind_Normal.
  apply readonly_nodeBalanced in Hb as ->. rewrite Hoff, andb_false_r in H.
  by injection H as <- _.
Qed.

Lemma spillGate_value lz sz r ol b r' :
  onlineLab r = Some ol →
  spillGate (Some lz) sz r = Normal b r' →
  b = gateOpen ol (cpuThreshold r) (ServiceZone.WorkLoad lz) (ServiceZone.WorkLoad sz).
Proof.
  intros Hol. unfold spillGate, zoneBalanced, the_onlineLab, mbind, M_bind, gets.
  simpl. rewrite Hol. simpl. by intros [= <- _].
Qed.

Lemma crossStart_value lz sz node r ol y r' :
  onlineLab r = Some ol →
  crossStart (Some lz) sz node r = Normal y r' →
  y = if gateOpen ol (cpuThreshold r) (ServiceZone.WorkLoad lz) (ServiceZone.WorkLoad sz)
      then default (ServiceNode.BalanceFactor node)
             (balanceFactorCache r !! ServiceNode.InstanceID node) * BALANCEFACTOR_CROSS_RATE
      else BALANCEFACTOR_MIN_CROSS.
Proof.
  intros Hol. unfold crossStart.
  intros (cache & r1 & [= <- <-] & (b0 & r2 & H0 & (spill & r3 & Hs & H)%bind_Normal
    )%bind_Normal)%bind_Normal.
  assert (r2 = r ∧ b0 = default (ServiceNode.BalanceFactor node)
                          (balanceFactorCache r !! ServiceNode.InstanceID node)) as [-> ->].
  { destruct (_ !! _).
    - apply bind_Normal in H0 as (? & ? & Hlog & [= <- <-]).
      by apply readonly_log in Hlog as ->.
    - by injection H0 as <- <-. }
  pose proof (spillGate_value _ _ _ _ _ _ Hol Hs) as ->.
  destruct (gateOpen _ _ _ _); by apply bind_Normal in H as (? & ? & _ & [= <- _]).
Qed.

Lemma crossNudge_off lz0 sz node bf r y r' :
  zoneCPUUpdated r = false → crossNudge lz0 sz node bf r = Normal y r' → y = bf.
Proof.
  intros Hoff. unfold crossNudge. intros (b & r1 & [= <- <-] & H)%bind_Normal.
  rewrite Hoff in H. by injection H as <- _.
Qed.

Lemma clampC_min : clampC BALANCEFACTOR_MIN_CROSS = BALANCEFACTOR_MIN_CROSS.
Proof. done. Qed.

(** The body of the loop over the local zone commits one entry. *)
Lemma localNode_trace lz ol fc avg sz p node r p' r' :
  String.eqb (ServiceZone.Zone lz) (ServiceZone.Zone sz) = true →
  onlineLab r = Some ol →
  localNode fc avg sz p node r = Normal p' r' →
  ∃ bf, appended p p' node bf
    ∧ r' = set_balanceFactorCache
             (<[ServiceNode.InstanceID node := bf]> (balanceFactorCache r)) r
    ∧ explained lz ol fc avg sz r node bf.
Proof.
  intros Hlocal Hol. unfold localNode.
  intros (b1 & r1 & H1 & (b2 & r2 & H2 & (b3 & r3 & H3 & H4)%bind_Normal)%bind_Normal)%bind_Normal.
  pose proof (localStart_value _ _ _ _ _ _ H1) as [Hdeclared Hcached].
  pose proof (λ Hfc Hmiss, localStart_miss avg node r ol b1 r1 Hol Hmiss
                (eq_ind fc (λ b, localStart b avg node r = Normal b1 r1) H1 true Hfc))
    as Hmissed.
  apply readonly_localStart in H1 as ->.
  pose proof (λ Hoff, localNudge_off _ _ _ _ _ _ Hoff H2) as Hnudge.
  apply readonly_localNudge in H2 as ->.
  pose proof (clampLocal_range _ _ _ _ H3) as Hrange.
  pose proof (clampLocal_value _ _ _ _ H3) as ->.
  apply readonly_clampLocal in H3 as ->.
  apply commitFactor_spec in H4 as [-> ->].
  eexists. split_and!; [apply appendFactor_appendNode | done |]. split; [split|].
  - intros Hoff. rewrite Hlocal. rewrite (Hnudge Hoff). split.
    + intros Hfc. by rewrite Hdeclared.
    + intros c Hfc Hc. by rewrite (Hcached c).
  - by rewrite Hlocal.
  - intros Hoff _ Hfc Hmiss. rewrite (Hnudge Hoff). by rewrite (Hmissed Hfc Hmiss).
Qed.

(** The body of the loop over another zone commits one entry. *)
Lemma crossNode_trace lz ol fc avg sz p node r p' r' :
  String.eqb (ServiceZone.Zone lz) (ServiceZone.Zone sz) = false →
  onlineLab r = Some ol →
  crossNode (Some lz) sz p node r = Normal p' r' →
  ∃ bf, appended p p' node bf
    ∧ r' = set_balanceFactorCache
             (<[ServiceNode.InstanceID node := bf]> (balanceFactorCache r)) r
    ∧ explained lz ol fc avg sz r node bf.
Proof.
  intros Hcross Hol. unfold crossNode.
  intros (b1 & r1 & H1 & (b2 & r2 & H2 & (b3 & r3 & H3 & H4)%bind_Normal)%bind_Normal)%bind_Normal.
  pose proof (crossStart_value _ _ _ _ _ _ _ Hol H1) as ->.
  apply readonly_crossStart in H1 as ->.
  pose proof (λ Hoff, crossNudge_off _ _ _ _ _ _ _ Hoff H2) as Hnudge.
  apply readonly_crossNudge in H2 as ->.
  pose proof (clampCross_range _ _ _ _ H3) as Hrange.
  pose proof (clampCross_value _ _ _ _ H3) as ->.
  apply readonly_clampCross in H3 as ->.
  apply commitFactor_spec in H4 as [-> ->].
  eexists. split_and!; [apply appendFactor_appendNode | done |]. split; [split|].
  - intros Hoff. rewrite Hcross. rewrite (Hnudge Hoff).
    destruct (gateOpen _ _ _ _); [done | apply clampC_min].
  - by rewrite Hcross.
  - intros _ Hlocal. by rewrite Hcross in Hlocal.
Qed.

Lemma justified_impl (Q1 Q2 : ServiceZone.t → ConsulResolver → ServiceNode.t → float64 → Prop)
    r entries :
  (∀ z r node bf, Q1 z r node bf → Q2 z r node bf) →
  justified Q1 r entries → justified Q2 r entries.
Proof. intros HQ H1 i e He. apply HQ, (H1 i e He). Qed.

(** One turn of the loop over the zones. *)
Lemma zoneStep_trace lz ol fc p avg sz r p' avg' r' :
  localZone r = Some lz → onlineLab r = Some ol →
  zoneStep (Some lz) fc (p, avg) sz r = Normal (p', avg') r' →
  ∃ fs,
    let vs := if included lz ol sz then (λ node, (sz, node)) <$> ServiceZone.Nodes sz else [] in
    length fs = length vs
    ∧ built p p' (zip vs fs)
    ∧ r' = set_balanceFactorCache (cacheAfter (balanceFactorCache r) (zip vs fs)) r
    ∧ justified (explained lz ol fc avg) r (zip vs fs)
    ∧ (String.eqb (ServiceZone.Zone lz) (ServiceZone.Zone sz) = false → avg' = avg).
Proof.
  intros Hlz Hol. unfold zoneStep, r_localZone, included.
  intros (o & r1 & [= <- <-] & (rlz & r2 & Hd & H)%bind_Normal)%bind_Normal.
  rewrite Hlz in Hd. injection Hd as <- <-.
  destruct (String.eqb _ _) eqn:Hlocal; simpl.
  - apply bind_Normal in H as (u & r3 & Hlog & (p1 & r4 & Hloop & H)%bind_Normal).
    apply readonly_log in Hlog as ->.
    assert (p' = p1 ∧ r' = r4) as [-> ->].
    { destruct (_ <? _)%nat.
      - apply bind_Normal in H as (? & ? & Hlog & [= <- _ <-]).
        by apply readonly_log in Hlog as ->.
      - by injection H as <- _ <-. }
    apply (node_loop_trace _ (λ r, onlineLab r = Some ol) (explained lz ol fc avg) sz)
      in Hloop as (fs & Hfs); [ | done | | done].
    + exists fs. rewrite length_fmap. by destruct Hfs as (? & ? & ? & ?).
    + intros ?????. by apply localNode_trace.
  - apply bind_Normal in H as (ol' & r3 & Hol' & H).
    pose proof Hol' as Hr3. apply readonly_the_onlineLab in Hr3 as ->.
    assert (ol' = ol) as ->.
    { unfold the_onlineLab, mbind, M_bind, gets in Hol'. rewrite Hol in Hol'.
      by injection Hol' as <-. }
    destruct (CrossZone ol).
    + apply bind_Normal in H as (u & r3 & Hlog & (p1 & r4 & Hloop & [= <- <- <-])%bind_Normal).
      apply readonly_log in Hlog as ->.
      apply (node_loop_trace _ (λ r, onlineLab r = Some ol) (explained lz ol fc avg) sz)
        in Hloop as (fs & Hfs); [ | done | | done].
      * exists fs. rewrite length_fmap. by destruct Hfs as (? & ? & ? & ?).
      * intros ?????. by apply crossNode_trace.
    + injection H as <- <- <-. exists []. simpl.
      split_and!; [done | apply built_nil | by rewrite set_balanceFactorCache_same
                  | apply justified_nil | done].
Qed.

Lemma visited_cons z zones :
  visited (z :: zones) = ((λ node, (z, node)) <$> ServiceZone.Nodes z) ++ visited zones.
Proof. done. Qed.

Lemma zip_app_same {A B} (a1 a2 : list A) (b1 b2 : list B) :
  length a1 = length b1 → zip (a1 ++ a2) (b1 ++ b2) = zip a1 b1 ++ zip a2 b2.
Proof. intros Hlen. by apply zip_with_app. Qed.

(** The loop over the zones. *)
Lemma zone_loop_trace lz ol fc zones :
  ∀ p avg r p' avg' r',
    localZone r = Some lz → onlineLab r = Some ol →
    forM (zoneStep (Some lz) fc) zones (p, avg) r = Normal (p', avg') r' →
    ∃ fs,
      let vs := visited (filter (λ z, included lz ol z = true) zones) in
      length fs = length vs
      ∧ built p p' (zip vs fs)
      ∧ r' = set_balanceFactorCache (cacheAfter (balanceFactorCache r) (zip vs fs)) r
      ∧ justified (accounted lz ol fc) r (zip vs fs).
Proof.
  induction zones as [|z zones IH]; intros p avg r p' avg' r' Hlz Hol Hrun.
  - injection Hrun as <- _ <-. exists []. simpl.
    split_and!; [done | apply built_nil | by rewrite set_balanceFactorCache_same
                | apply justified_nil].
  - simpl in Hrun. apply bind_Normal in Hrun as ([p1 avg1] & r1 & Hstep & Hrest).
    apply (zoneStep_trace lz ol) in Hstep as (fs1 & Hlen1 & Hb1 & -> & Hj1 & _); [|done..].
    apply (justified_impl _ (accounted lz ol fc)) in Hj1; [|by intros ???? []].
    apply IH in Hrest as (fs2 & Hlen2 & Hb2 & -> & Hj2); [|done..].
    exists (fs1 ++ fs2). cbv zeta in *. rewrite filter_cons.
    destruct (included lz ol z) eqn:Hin.
    + rewrite decide_True by done. rewrite visited_cons.
      rewrite zip_app_same by done. split_and!.
      * rewrite !length_app. by rewrite Hlen1, Hlen2.
      * by eapply built_app.
      * simpl. by rewrite cacheAfter_app.
      * by apply justified_app.
    + rewrite decide_False by done. simpl in Hlen1.
      destruct fs1; [|done]. simpl in *.
      rewrite set_balanceFactorCache_same in Hj2. split_and!; try done.
      apply (built_app _ _ _ [] _ Hb1 Hb2).
Qed.

(** The builder, when it returns: the pool, the cache and the metric it leaves. *)
Lemma updateCandidatePool_trace r u r' lz ol :
  localZone r = Some lz → onlineLab r = Some ol →
  updateCandidatePool r = Normal u r' →
  ∃ p fs,
    let es := zip (poolEntries lz ol r) fs in
    length fs = length (poolEntries lz ol r)
    ∧ built CandidatePool.new p es
    ∧ r' = set_candidatePool (Some p)
             (set_metric (Some (sized (length (CandidatePool.Nodes p)) (metric r)))
                (set_balanceFactorCache (cacheAfter (balanceFactorCache r) es) r))
    ∧ justified (accounted lz ol (bool_decide (0 < size (balanceFactorCache r))%nat)) r es.
Proof.
  intros Hlz Hol. unfold updateCandidatePool.
  intros (lz' & r1 & [= <- <-] & (zs & r2 & [= <- <-] & (c & r3 & [= <- <-]
    & ([p avg] & r4 & Hloop & (m & r5 & [= <- <-] & (u' & r6 & Hmetric & [= _ <-])%bind_Normal
    )%bind_Normal)%bind_Normal)%bind_Normal)%bind_Normal)%bind_Normal.
  rewrite Hlz in Hloop.
  apply (zone_loop_trace lz ol) in Hloop as (fs & Hlen & Hb & -> & Hj); [|done..].
  exists p, fs. split_and!; try done.
  simpl in Hmetric. destruct (metric r) as [cm|] eqn:Hm.
  - by injection Hmetric as _ <-.
  - apply bind_Normal in Hmetric as (? & r7 & [= _ <-] & Hlog).
    by apply readonly_log in Hlog as ->.
Qed.

Lemma entries_nodes (vs : list (ServiceZone.t * ServiceNode.t)) : ∀ fs,
  length fs = length vs →
  (λ e : ServiceZone.t * ServiceNode.t * float64, ServiceNode.set_CurrentFactor e.2 e.1.2)
    <$> zip vs fs
  = zip_with ServiceNode.set_CurrentFactor fs vs.*2.
Proof.
  induction vs as [|v vs IH]; intros [|f fs] Hlen; try done.
  simpl. f_equal. apply IH. simpl in Hlen. lia.
Qed.

Lemma entries_factors (vs : list (ServiceZone.t * ServiceNode.t)) (fs : list float64) :
  length fs = length vs → (zip vs fs).*2 = fs.
Proof. intros Hlen. apply snd_zip. lia. Qed.

Lemma entries_places (vs : list (ServiceZone.t * ServiceNode.t)) (fs : list float64) :
  length fs = length vs → (zip vs fs).*1 = vs.
Proof. intros Hlen. apply fst_zip. lia. Qed.

(** What the builder publishes.  The pool lists, in the order of the zone list, the
    nodes of every zone that carries the name of the local zone and, only when
    [cross_zone] is on, the nodes of the other zones; every node carries in
    [CurrentFactor] the factor at its index, and every weight is 0. *)
Theorem pool_lists_the_included_zones (r r' : ConsulResolver) (u : unit)
    (lz : ServiceZone.t) (ol : OnlineLab) :
  localZone r = Some lz → onlineLab r = Some ol →
  updateCandidatePool r = Normal u r' →
  ∃ p, candidatePool r' = Some p
    ∧ length (CandidatePool.Factors p) = length (poolEntries lz ol r)
    ∧ CandidatePool.Nodes p
      = zip_with ServiceNode.set_CurrentFactor (CandidatePool.Factors p) (poolEntries lz ol r).*2
    ∧ CandidatePool.Weights p = replicate (length (poolEntries lz ol r)) 0.
Proof.
  intros Hlz Hol Hrun.
  destruct (updateCandidatePool_trace _ _ _ lz ol Hlz Hol Hrun)
    as (p & fs & Hlen & (Hn & Hf & Hw & _) & -> & _).
  exists p. simpl in Hn, Hf, Hw. rewrite entries_factors in Hf by done.
  rewrite entries_nodes in Hn by done. rewrite length_zip in Hw.
  split_and!; [done | by rewrite Hf | by rewrite Hf |].
  rewrite Hw. f_equal. lia.
Qed.

Lemma pool_lists_the_included_zones_witness :
  localZone Scenario.spilling = Some Scenario.zoneA
  ∧ onlineLab Scenario.spilling = Some Scenario.lab
  ∧ ∃ p, candidatePool Scenario.serving = Some p
    ∧ length (CandidatePool.Factors p)
      = length (poolEntries Scenario.zoneA Scenario.lab Scenario.spilling)
    ∧ CandidatePool.Nodes p
      = zip_with ServiceNode.set_CurrentFactor (CandidatePool.Factors p)
          (poolEntries Scenario.zoneA Scenario.lab Scenario.spilling).*2
    ∧ CandidatePool.Weights p
      = replicate (length (poolEntries Scenario.zoneA Scenario.lab Scenario.spilling)) 0.
Proof.
  split; [reflexivity|]. split; [reflexivity|].
  apply (pool_lists_the_included_zones Scenario.spilling Scenario.serving tt
           Scenario.zoneA Scenario.lab); [reflexivity | reflexivity | by vm_compute].
Defined.

(** The metric the builder leaves: [candidatePoolSize] is the length of the published
    pool, and the two counters of the selector are the ones of the metric that was
    there, or 0 when there was none. *)
Theorem build_keeps_the_counters (r r' : ConsulResolver) (u : unit)
    (lz : ServiceZone.t) (ol : OnlineLab) :
  localZone r = Some lz → onlineLab r = Some ol →
  updateCandidatePool r = Normal u r' →
  ∃ p cm, candidatePool r' = Some p ∧ metric r' = Some cm
    ∧ candidatePoolSize cm = Z.of_nat (length (CandidatePool.Nodes p))
    ∧ match metric r with
      | Some before => crossZoneNum cm = crossZoneNum before ∧ selectNum cm = selectNum before
      | None => crossZoneNum cm = 0%Z ∧ selectNum cm = 0%Z
      end.
Proof.
  intros Hlz Hol (p & fs & _ & _ & -> & _)%(updateCandidatePool_trace _ _ _ lz ol); [|done..].
  eexists p, _. split_and!; [done..|]. simpl. by destruct (metric r).
Qed.

Lemma build_keeps_the_counters_witness :
  localZone Scenario.spilling = Some Scenario.zoneA
  ∧ onlineLab Scenario.spilling = Some Scenario.lab
  ∧ ∃ p cm, candidatePool Scenario.serving = Some p ∧ metric Scenario.serving = Some cm
    ∧ candidatePoolSize cm = Z.of_nat (length (CandidatePool.Nodes p))
    ∧ match metric Scenario.spilling with
      | Some before => crossZoneNum cm = crossZoneNum before ∧ selectNum cm = selectNum before
      | None => crossZoneNum cm = 0%Z ∧ selectNum cm = 0%Z
      end.
Proof.
  split; [reflexivity|]. split; [reflexivity|].
  apply (build_keeps_the_counters Scenario.spilling Scenario.serving tt
           Scenario.zoneA Scenario.lab); [reflexivity | reflexivity | by vm_compute].
Defined.

Lemma cacheAfter_notin c es id :
  id ∉ (λ e : ServiceZone.t * ServiceNode.t * float64, ServiceNode.InstanceID e.1.2) <$> es →
  cacheAfter c es !! id = c !! id.
Proof.
  revert c. induction es as [|e es IH]; intros c Hid; [done|].
  rewrite fmap_cons in Hid. apply not_elem_of_cons in Hid as [Hne Hid].
  simpl. rewrite IH by done. by rewrite lookup_insert_ne.
Qed.

Lemma cacheAfter_lookup es : ∀ c i e,
  NoDup ((λ e : ServiceZone.t * ServiceNode.t * float64, ServiceNode.InstanceID e.1.2) <$> es) →
  es !! i = Some e →
  cacheAfter c es !! ServiceNode.InstanceID e.1.2 = Some e.2.
Proof.
  induction es as [|e0 es IH]; intros c i e Hnd Hi; [done|].
  rewrite fmap_cons in Hnd. apply NoDup_cons in Hnd as [Hhead Hnd].
  destruct i as [|i]; simpl in Hi.
  - injection Hi as <-. simpl. rewrite cacheAfter_notin by done. by rewrite lookup_insert_eq.
  - simpl. by eapply IH.
Qed.

Lemma entries_ids (vs : list (ServiceZone.t * ServiceNode.t)) : ∀ fs,
  length fs = length vs →
  (λ e : ServiceZone.t * ServiceNode.t * float64, ServiceNode.InstanceID e.1.2) <$> zip vs fs
  = ServiceNode.InstanceID <$> vs.*2.
Proof.
  induction vs as [|v vs IH]; intros [|f fs] Hlen; try done.
  simpl. f_equal. apply IH. simpl in Hlen. lia.
Qed.

Lemma pool_ids fs (nodes : list ServiceNode.t) :
  length fs = length nodes →
  ServiceNode.InstanceID <$> zip_with ServiceNode.set_CurrentFactor fs nodes
  = ServiceNode.InstanceID <$> nodes.
Proof.
  revert fs. induction nodes as [|node nodes IH]; intros [|f fs] Hlen; try done.
  simpl. f_equal. apply IH. simpl in Hlen. lia.
Qed.

(** The factor cache after a build.  A key that is the instance id of no pool node
    keeps what the cache held for it.  When the instance ids of the pool are distinct,
    the cache holds under the id of every pool node the factor the pool publishes for
    it: the next build starts from the published factors. *)
Theorem build_records_the_factors (r r' : ConsulResolver) (u : unit)
    (lz : ServiceZone.t) (ol : OnlineLab) :
  localZone r = Some lz → onlineLab r = Some ol →
  updateCandidatePool r = Normal u r' →
  ∃ p, candidatePool r' = Some p
    ∧ (∀ id, id ∉ ServiceNode.InstanceID <$> CandidatePool.Nodes p →
         balanceFactorCache r' !! id = balanceFactorCache r !! id)
    ∧ (NoDup (ServiceNode.InstanceID <$> CandidatePool.Nodes p) →
       ∀ i node f,
         CandidatePool.Nodes p !! i = Some node → CandidatePool.Factors p !! i = Some f →
         balanceFactorCache r' !! ServiceNode.InstanceID node = Some f).
Proof.
  intros Hlz Hol Hrun.
  destruct (updateCandidatePool_trace _ _ _ lz ol Hlz Hol Hrun)
    as (p & fs & Hlen & (Hn & Hf & _) & -> & _).
  exists p. simpl in Hn, Hf.
  assert (ServiceNode.InstanceID <$> CandidatePool.Nodes p
          = (λ e : ServiceZone.t * ServiceNode.t * float64, ServiceNode.InstanceID e.1.2)
              <$> zip (poolEntries lz ol r) fs) as Hids.
  { rewrite Hn, <- list_fmap_compose. by apply list_fmap_ext. }
  split_and!; [done | |].
  - intros id Hid. simpl. apply cacheAfter_notin. by rewrite <- Hids.
  - intros Hnd i node f Hnode Hfactor. simpl.
    rewrite Hn, list_lookup_fmap in Hnode. rewrite Hf, list_lookup_fmap in Hfactor.
    destruct (zip (poolEntries lz ol r) fs !! i) as [e|] eqn:He; [|done].
    injection Hnode as <-. injection Hfactor as <-. simpl.
    apply (cacheAfter_lookup _ _ i e); [by rewrite <- Hids | done].
Qed.

Lemma build_records_the_factors_witness :
  localZone Scenario.spilling = Some Scenario.zoneA
  ∧ onlineLab Scenario.spilling = Some Scenario.lab
  ∧ ∃ p, candidatePool Scenario.serving = Some p
    ∧ (∀ id, id ∉ ServiceNode.InstanceID <$> CandidatePool.Nodes p →
         balanceFactorCache Scenario.serving !! id
         = balanceFactorCache Scenario.spilling !! id)
    ∧ (NoDup (ServiceNode.InstanceID <$> CandidatePool.Nodes p) →
       ∀ i node f,
         CandidatePool.Nodes p !! i = Some node → CandidatePool.Factors p !! i = Some f →
         balanceFactorCache Scenario.serving !! ServiceNode.InstanceID node = Some f).
Proof.
  split; [reflexivity|]. split; [reflexivity|].
  apply (build_records_the_factors Scenario.spilling Scenario.serving tt
           Scenario.zoneA Scenario.lab); [reflexivity | reflexivity | by vm_compute].
Defined.

Lemma NoDup_before {A} (l : list A) i x :
  NoDup l → l !! i = Some x → x ∉ take i l.
Proof.
  intros Hnd Hi Hin. rewrite <- (take_drop_middle l i x Hi) in Hnd.
  apply NoDup_app in Hnd as (_ & Hdisj & _). apply (Hdisj x Hin). by left.
Qed.





(** ** A whole refresh *)

(** A refresh that completes: the four values it fetched, and the three stages that
    ran on them. *)
Lemma updateAll_pipeline w r r' :
  updateAll w r = Normal None r' →
  ∃ ct zc ol ifa r1 r2,
    answer w (cpuThresholdKey r) (Unmarshal_CPUThreshold w) = Fetched ct
    ∧ answer w (zoneCPUKey r) (Unmarshal_ZoneCPUUtilizationRatio w) = Fetched zc
    ∧ answer w (onlineLabKey r) (Unmarshal_OnlineLab w) = Fetched ol
    ∧ answer w (instanceFactorKey r) (Unmarshal_InstanceFactor w) = Fetched ifa
    ∧ updateServiceZone w (configured ct zc ol ifa r) = Normal None r1
    ∧ expireBalanceFactorCache w r1 = Normal tt r2
    ∧ updateCandidatePool r2 = Normal tt r'.
Proof.
  unfold updateAll.
  intros (? & ? & ->%readonly_log & (e1 & r1 & H1 & H)%bind_Normal)%bind_Normal.
  destruct e1; [done|].
  apply bind_Normal in H as (e2 & r2 & H2 & H). destruct e2; [done|].
  apply bind_Normal in H as (e3 & r3 & H3 & H). destruct e3; [done|].
  apply bind_Normal in H as (e4 & r4 & H4 & H). destruct e4; [done|].
  apply bind_Normal in H as (e5 & r5 & Htopo & H). destruct e5; [done|].
  apply bind_Normal in H as ([] & r6 & Hexp & ([] & r7 & Hpool & (? & ? & Hlog & [= <-]
    )%bind_Normal)%bind_Normal).
  apply readonly_log in Hlog as ->.
  unfold updateCPUThreshold in H1. apply bind_Normal in H1 as (? & ? & [= <- <-] & H1).
  apply fetch_inv in H1 as (ct & Hct & ->).
  unfold updateZoneCPUMap in H2. apply bind_Normal in H2 as (? & ? & [= <- <-] & H2).
  apply fetch_inv in H2 as (zc & Hzc & ->).
  unfold updateOnlineLabFactor in H3. apply bind_Normal in H3 as (? & ? & [= <- <-] & H3).
  apply fetch_inv in H3 as (ol & Hol & ->).
  unfold updateInstanceFactorMap in H4. apply bind_Normal in H4 as (? & ? & [= <- <-] & H4).
  apply fetch_inv in H4 as (ifa & Hifa & ->).
  by exists ct, zc, ol, ifa, r5, r6.
Qed.

(** What a topology refresh that returns no error writes: the wait index, the instance
    factor map, the local zone and the zone list. *)
Lemma updateServiceZone_frame w r r' :
  updateServiceZone w r = Normal None r' →
  r' = set_serviceZones (serviceZones r')
         (set_localZone (localZone r')
            (set_instanceFactorMap (instanceFactorMap r')
               (set_lastIndex (lastIndex r') r))).
Proof.
  intros (res & li & m & r1 & zs & r2 & Hh & Hgroup & Hcollect & ->)%updateServiceZone_exact.
  apply group_loop_spec in Hgroup as (Hr1 & _).
  apply collect_loop_frame in Hcollect.
  unfold lz_only in Hcollect. unfold ifm_only in Hr1.
  rewrite Hcollect, Hr1. by destruct r.
Qed.

(** What the builder writes: the factor cache, the metric and the pool. *)
Lemma updateCandidatePool_frame r u r' :
  updateCandidatePool r = Normal u r' →
  r' = set_candidatePool (candidatePool r')
         (set_metric (metric r') (set_balanceFactorCache (balanceFactorCache r') r)).
Proof.
  intros (p & cm & c & -> & _)%(updateCandidatePool_spec (λ _ _, True)). by destruct r.
Qed.



Lemma updateCandidatePool_nil_local r u r' :
  localZone r = None →
  updateCandidatePool r = Normal u r' →
  serviceZones r = [] ∧ ∃ p, candidatePool r' = Some p ∧ CandidatePool.Nodes p = [].
Proof.
  intros Hlz. unfold updateCandidatePool.
  intros (lz' & r1 & [= <- <-] & (zs & r2 & [= <- <-] & (c & r3 & [= <- <-]
    & ([p avg] & r4 & Hloop & (m & r5 & [= <- <-] & (u' & r6 & Hmetric & [= _ <-])%bind_Normal
    )%bind_Normal)%bind_Normal)%bind_Normal)%bind_Normal)%bind_Normal.
  rewrite zone_loop_nil_localZone in Hloop by done.
  destruct (serviceZones r); [|done]. injection Hloop as <- _ _. split; [done|].
  by exists CandidatePool.new.
Qed.

Lemma visited_all zones : (visited zones).*2 = allNodes zones.
Proof.
  induction zones as [|z zones IH]; [done|].
  rewrite visited_cons, fmap_app, IH. unfold allNodes. simpl. f_equal.
  rewrite <- list_fmap_compose. apply list_fmap_id.
Qed.

Lemma filter_all {A} (P : A → Prop) `{∀ x, Decision (P x)} (l : list A) :
  (∀ x, x ∈ l → P x) → filter P l = l.
Proof.
  induction l as [|x l IH]; intros HP; [done|].
  rewrite filter_cons, decide_True by (apply HP; left).
  f_equal. apply IH. intros y Hy. apply HP. by right.
Qed.

Lemma filter_none {A} (P : A → Prop) `{∀ x, Decision (P x)} (l : list A) :
  (∀ x, x ∈ l → ¬ P x) → filter P l = [].
Proof.
  induction l as [|x l IH]; intros HP; [done|].
  rewrite filter_cons, decide_False by (apply HP; left).
  apply IH. intros y Hy. apply HP. by right.
Qed.

(** With [cross_zone] off and distinct zone names, the builder visits the local zone
    only. *)
Lemma filter_local lz ol zones :
  CrossZone ol = false →
  NoDup (ServiceZone.Zone <$> zones) → lz ∈ zones →
  filter (λ z, included lz ol z = true) zones = [lz].
Proof.
  intros Hoff. unfold included. rewrite Hoff.
  induction zones as [|z zones IH]; intros Hnd Hin; [by apply elem_of_nil in Hin|].
  rewrite fmap_cons in Hnd. apply NoDup_cons in Hnd as [Hz Hnd].
  rewrite filter_cons. apply elem_of_cons in Hin as [<- | Hin].
  - rewrite decide_True by (by rewrite String.eqb_refl). f_equal.
    apply filter_none. intros z' Hz' Hname. rewrite orb_false_r in Hname.
    apply String.eqb_eq in Hname. apply Hz. rewrite Hname.
    apply list_elem_of_fmap. eauto.
  - rewrite decide_False; [by apply IH|].
    rewrite orb_false_r. intros Hname%String.eqb_eq. apply Hz. rewrite <- Hname.
    apply list_elem_of_fmap. eauto.
Qed.

Lemma unweighted_pool fs (nodes : list ServiceNode.t) :
  length fs = length nodes →
  unweighted <$> zip_with ServiceNode.set_CurrentFactor fs nodes = unweighted <$> nodes.
Proof.
  revert fs. induction nodes as [|node nodes IH]; intros [|f fs] Hlen; try done.
  simpl. f_equal. apply IH. simpl in Hlen. lia.
Qed.

Lemma unweighted_entries w (res : list api.ServiceEntry) (l : list ServiceNode.t) :
  (∀ v, v ∈ l → v ∈ entryNode w <$> res) → ServiceNode.set_CurrentFactor 0 <$> l = l.
Proof.
  intros Hl. rewrite <- (list_fmap_id l) at 2. apply list_fmap_ext.
  intros i v Hv%list_elem_of_lookup_2. apply Hl in Hv.
  by apply list_elem_of_fmap in Hv as (e & -> & _).
Qed.

(** What a refresh that completes publishes, against the registry.  With [cross_zone]
    on, the pool nodes are the nodes built from the entries the health query answered,
    each exactly once.  With [cross_zone] off, when the registry lists the resolver's
    own zone, they are the entries of that zone in the order the registry answered
    them. *)
Theorem refresh_publishes_the_registry (w : World) (r r' : ConsulResolver) :
  range_ok w →
  updateAll w r = Normal None r' →
  ∃ res li ol p,
    Health_Service w (service r) (lastIndex r) (timeout r) = inr (res, li)
    ∧ onlineLab r' = Some ol
    ∧ candidatePool r' = Some p
    ∧ if CrossZone ol
      then unweighted <$> CandidatePool.Nodes p ≡ₚ entryNode w <$> res
      else zone r ∈ zoneOfEntry w <$> res →
           unweighted <$> CandidatePool.Nodes p
           = filter (λ v, ServiceNode.Zone v = zone r) (entryNode w <$> res).
Proof.
  intros Hrange (ct & zc & ol & ifa & r1 & r2 & _ & _ & _ & _ & Htopo & Hexp & Hpool
    )%updateAll_pipeline.
  pose proof (updateServiceZone_frame _ _ _ Htopo) as Hr1.
  apply expire_cache_only in Hexp. unfold cache_only in Hexp.
  pose proof (updateCandidatePool_frame _ _ _ Hpool) as Hr'.
  destruct (updateServiceZone_folded _ _ _ Hrange Htopo)
    as (res & li & m & Hh & _ & Hzs & Hinv & Hall & Hat).
  assert (onlineLab r2 = Some ol ∧ serviceZones r2 = serviceZones r1
          ∧ localZone r2 = localZone r1) as (Hol2 & Hzs2 & Hlz2).
  { rewrite Hexp, Hr1. done. }
  assert (onlineLab r' = Some ol) as Hol'.
  { rewrite Hr'. done. }
  exists res, li, ol.
  destruct (localZone r2) as [lz|] eqn:Hlz.
  - destruct (updateCandidatePool_trace _ _ _ lz ol Hlz Hol2 Hpool)
      as (p & fs & Hlen & (Hn & _) & -> & _).
    exists p. split_and!; [done..|].
    simpl in Hn. rewrite entries_nodes in Hn by done.
    assert (unweighted <$> CandidatePool.Nodes p = unweighted <$> (poolEntries lz ol r2).*2)
      as ->.
    { rewrite Hn. apply unweighted_pool. by rewrite length_fmap. }
    unfold poolEntries. rewrite Hzs2, Hzs.
    destruct (CrossZone ol) eqn:Hcross.
    + rewrite filter_all, visited_all.
      * unfold allNodes in *. rewrite (Hrange _).
        change unweighted
          with (ServiceNode.set_CurrentFactor 0 ∘ ServiceNode.set_WorkLoad 0).
        rewrite list_fmap_compose, Hall.
        by rewrite (unweighted_entries w res).
      * intros z _. unfold included. by rewrite Hcross, orb_true_r.
    + intros Hlisted.
      destruct (updateServiceZone_local_listed _ _ _ res li Hrange Htopo Hh Hlisted)
        as (z0 & Hz0 & Hin0 & Hname0).
      rewrite Hz0 in Hlz2. injection Hlz2 as ->.
      rewrite Hzs in Hin0.
      rewrite (filter_local z0 ol) by (done || by eapply grouped_NoDup).
      rewrite visited_cons, app_nil_r.
      replace (((λ node, (z0, node)) <$> ServiceZone.Nodes z0).*2)
        with (ServiceZone.Nodes z0)
        by (rewrite <- list_fmap_compose; symmetry; apply list_fmap_id).
      apply list_elem_of_fmap in Hin0 as ([k z'] & -> & Hin). simpl in *.
      rewrite (Hrange _) in Hin. apply elem_of_map_to_list in Hin.
      destruct (Hinv _ _ Hin) as (Hk & _).
      change unweighted
        with (ServiceNode.set_CurrentFactor 0 ∘ ServiceNode.set_WorkLoad 0).
      rewrite list_fmap_compose.
      replace (ServiceZone.Nodes z') with (nodesAt m k)
        by (unfold nodesAt; by rewrite Hin).
      rewrite Hat. rewrite <- Hname0, Hk.
      apply (unweighted_entries w res). intros v Hv.
      by apply list_elem_of_filter in Hv as [_ Hv].
  - destruct (updateCandidatePool_nil_local _ _ _ Hlz Hpool) as (Hnil & p & Hp & Hn).
    exists p. split_and!; [done..|].
    rewrite Hzs2, Hzs in Hnil. apply fmap_nil_inv in Hnil.
    assert (map_to_list m = []) as Hm.
    { apply Permutation_nil_r. by rewrite <- (Hrange _), Hnil. }
    rewrite Hm in Hall. simpl in Hall. apply Permutation_nil_l in Hall.
    rewrite Hn, <- Hall. by destruct (CrossZone ol).
Qed.

Lemma refresh_publishes_the_registry_witness :
  range_ok Scenario.healthy
  ∧ updateAll Scenario.healthy Scenario.fresh
    = Normal None (Scenario.after (updateAll Scenario.healthy Scenario.fresh))
  ∧ ∃ res li ol p,
      Health_Service Scenario.healthy (service Scenario.fresh) (lastIndex Scenario.fresh)
        (timeout Scenario.fresh) = inr (res, li)
      ∧ onlineLab (Scenario.after (updateAll Scenario.healthy Scenario.fresh)) = Some ol
      ∧ candidatePool (Scenario.after (updateAll Scenario.healthy Scenario.fresh)) = Some p
      ∧ if CrossZone ol
        then unweighted <$> CandidatePool.Nodes p ≡ₚ entryNode Scenario.healthy <$> res
        else zone Scenario.fresh ∈ zoneOfEntry Scenario.healthy <$> res →
             unweighted <$> CandidatePool.Nodes p
             = filter (λ v, ServiceNode.Zone v = zone Scenario.fresh)
                 (entryNode Scenario.healthy <$> res).
Proof.
  split; [apply range_ok_world|]. split; [by vm_compute|].
  apply (refresh_publishes_the_registry Scenario.healthy Scenario.fresh);
    [apply range_ok_world | by vm_compute].
Defined.







(** ** What no call changes *)

Section keeps.
Context {B : Type} (proj : ConsulResolver → B).

Lemma keeps_ret {A} (a : A) : keeps proj (mret a).
Proof. by intros r a' r' [= _ <-]. Qed.

Lemma keeps_panic {A} : keeps proj (@panic A).
Proof. by intros r a r'. Qed.

Lemma keeps_gets {A} (f : ConsulResolver → A) : keeps proj (gets f).
Proof. by intros r a r' [= _ <-]. Qed.

Lemma keeps_deref {A} (p : option A) : keeps proj (deref p).
Proof. destruct p; [apply keeps_ret | apply keeps_panic]. Qed.

Lemma keeps_modify f : (∀ r, proj (f r) = proj r) → keeps proj (modify f).
Proof. intros Hf r a r' [= _ <-]. apply Hf. Qed.

Lemma keeps_bind {A C} (m : M A) (k : A → M C) :
  keeps proj m → (∀ a, keeps proj (k a)) → keeps proj (m ≫= k).
Proof.
  intros Hm Hk r b r2 (a & r1 & H1 & H2)%bind_Normal.
  apply Hm in H1. apply Hk in H2. congruence.
Qed.

Lemma keeps_readonly {A} (m : M A) : readonly m → keeps proj m.
Proof. intros Hm r a r' ->%Hm. done. Qed.

Lemma keeps_forM {A S} (f : S → A → M S) (l : list A) :
  (∀ s x, keeps proj (f s x)) → ∀ s, keeps proj (forM f l s).
Proof.
  intros Hf. induction l as [|x l IH]; intros s; [apply keeps_ret|].
  simpl. apply keeps_bind; [apply Hf | apply IH].
Qed.
End keeps.

Ltac keeps_step :=
  first
    [ apply keeps_ret | apply keeps_panic | apply keeps_gets | apply keeps_deref
    | apply keeps_modify; intros ?; reflexivity
    | apply keeps_readonly; solve [auto with readonly]
    | apply keeps_forM; intros ? ?
    | apply keeps_bind; [|intros ?]
    | match goal with
      | |- keeps _ (match ?x with _ => _ end) => destruct x
      | |- keeps _ (let '_ := ?x in _) => destruct x
      end ].

Lemma keeps_log {B} (proj : ConsulResolver → B) : keeps proj log.
Proof. apply keeps_readonly, readonly_log. Qed.

Lemma keeps_fetch {A} w key (unmarshal : string → error + A) f :
  (∀ a r, fixedPart (f a r) = fixedPart r) →
  keeps fixedPart (fetch w key unmarshal (λ x, modify (f x))).
Proof. intros Hf r e r'. by apply fetch_preserves. Qed.

Lemma keeps_updateServiceZone w : keeps fixedPart (updateServiceZone w).
Proof.
  unfold updateServiceZone, groupNode, collectZone. repeat keeps_step; apply keeps_log.
Qed.

Lemma keeps_expire w : keeps fixedPart (expireBalanceFactorCache w).
Proof.
  intros r u r' Hcache%expire_cache_only. unfold cache_only in Hcache. by rewrite Hcache.
Qed.

Lemma keeps_updateCandidatePool : keeps fixedPart updateCandidatePool.
Proof. intros r u r' Hr'%updateCandidatePool_frame. by rewrite Hr'. Qed.

Lemma keeps_updateAll w : keeps fixedPart (updateAll w).
Proof.
  unfold updateAll, updateCPUThreshold, updateZoneCPUMap, updateOnlineLabFactor,
    updateInstanceFactorMap.
  repeat first
    [ apply keeps_log | apply keeps_fetch; done | apply keeps_updateServiceZone
    | apply keeps_expire | apply keeps_updateCandidatePool | keeps_step ].
Qed.

Lemma keeps_SelectNode : keeps fixedPart SelectNode.
Proof. unfold SelectNode, selectTurn. repeat first [apply keeps_log | keeps_step]. Qed.

Lemma keeps_perform c : keeps fixedPart (perform c).
Proof.
  destruct c; simpl; unfold SetLogger, SetZone, Start, backgroundCycle;
    repeat first [ apply keeps_log | apply keeps_updateAll | apply keeps_SelectNode
                 | keeps_step ].
Qed.

(** What no call changes.  Whatever setters, refreshes (completed or failed) and
    selections were called on a resolver since [NewConsulResolver] returned it, the
    address, the service name, the four keys, the interval and the timeout are those
    the constructor was given, and [zoneCPUUpdated] is still off: the nudges the
    builder guards with that flag are never applied. *)
Theorem configuration_is_fixed (NewClient : option error) (zn a s k1 k2 k3 k4 : string)
    (i t : Z) (calls : list call) (r0 r : ConsulResolver) :
  NewConsulResolver NewClient zn a s k1 k2 k3 k4 i t = inr r0 →
  session calls r0 = Normal tt r →
  address r = a ∧ service r = s
  ∧ cpuThresholdKey r = k1 ∧ zoneCPUKey r = k2 ∧ instanceFactorKey r = k3
  ∧ onlineLabKey r = k4
  ∧ interval r = i ∧ timeout r = t
  ∧ zoneCPUUpdated r = false.
Proof.
  intros Hnew Hrun.
  assert (fixedPart r = fixedPart r0) as Hfixed.
  { revert Hrun. unfold session. apply keeps_forM. intros _ c. apply keeps_perform. }
  unfold NewConsulResolver in Hnew. destruct NewClient; [done|].
  injection Hnew as <-. by injection Hfixed as -> -> -> -> -> -> -> -> ->.
Qed.

Lemma configuration_is_fixed_witness :
  NewConsulResolver None "A" "consul:8500" "svc" "cpu" "zonecpu" "instance" "lab" 10 5
    = inr Scenario.constructed
  ∧ session [CallSetLogger (Some TheLogger); CallStart Scenario.healthy; CallSelectNode;
             CallSetZone "B"; CallTick Scenario.brokenZoneCPU; CallSelectNode]
      Scenario.constructed
    = Normal tt
        (Scenario.after
           (session [CallSetLogger (Some TheLogger); CallStart Scenario.healthy;
                     CallSelectNode; CallSetZone "B"; CallTick Scenario.brokenZoneCPU;
                     CallSelectNode]
              Scenario.constructed))
  ∧ address (Scenario.after
       (session [CallSetLogger (Some TheLogger); CallStart Scenario.healthy;
                 CallSelectNode; CallSetZone "B"; CallTick Scenario.brokenZoneCPU;
                 CallSelectNode] Scenario.constructed)) = "consul:8500"%string
  ∧ zoneCPUUpdated (Scenario.after
       (session [CallSetLogger (Some TheLogger); CallStart Scenario.healthy;
                 CallSelectNode; CallSetZone "B"; CallTick Scenario.brokenZoneCPU;
                 CallSelectNode] Scenario.constructed)) = false.
Proof.
  split; [reflexivity|]. split; [by vm_compute|].
  destruct (configuration_is_fixed None "A" "consul:8500" "svc" "cpu" "zonecpu" "instance"
              "lab" 10 5
              [CallSetLogger (Some TheLogger); CallStart Scenario.healthy; CallSelectNode;
               CallSetZone "B"; CallTick Scenario.brokenZoneCPU; CallSelectNode]
              Scenario.constructed _ eq_refl ltac:(by vm_compute))
    as (Ha & _ & _ & _ & _ & _ & _ & _ & Hflag).
  by split.
Defined.

(** ** Runs of the selector *)

Lemma resolver_eta r p cm :
  candidatePool r = Some p → metric r = Some cm →
  set_metric (Some cm) (set_candidatePool (Some p) r) = r.
Proof. destruct r. simpl. by intros -> ->. Qed.

(** [n] selections in a row on a pool that is fit for selection: what they answer and
    the resolver they leave. *)
Lemma selectMany_run n :
  ∀ r p lg cm,
    candidatePool r = Some p → logger r = Some lg → metric r = Some cm →
    selectable p → CandidatePool.Nodes p ≠ [] →
    selectMany n r
    = Normal ((λ k, CandidatePool.Nodes p !! k) <$> picks n p)
        (set_metric
           (Some (metricAfter (zone r) ((λ k, CandidatePool.Nodes p !! k) <$> picks n p) cm))
           (set_candidatePool (Some (poolAfter n p)) r))
    ∧ Forall (λ k, (k < length (CandidatePool.Nodes p))%nat) (picks n p)
    ∧ selectable (poolAfter n p)
    ∧ CandidatePool.Nodes (poolAfter n p) = CandidatePool.Nodes p
    ∧ CandidatePool.Factors (poolAfter n p) = CandidatePool.Factors p
    ∧ CandidatePool.FactorSum (poolAfter n p) = CandidatePool.FactorSum p.
Proof.
  induction n as [|n IH]; intros r p lg cm Hp Hlog Hm Hsel Hne.
  { simpl. split_and!; try done. by rewrite resolver_eta. }
  simpl. set (ws := zip_with Qplus (CandidatePool.Weights p) (CandidatePool.Factors p)).
  set (k := (firstMax ws 0 0 0).1).
  destruct (firstMax_first_maximum p Hsel Hne) as [(Hk & _) _]. fold ws k in Hk.
  rewrite Hk. simpl.
  assert (k < length (CandidatePool.Nodes p))%nat as Hlt.
  { apply lookup_lt_Some in Hk. unfold ws in Hk. rewrite length_zip_with in Hk.
    destruct Hsel as [Hn Hw _ _ _]. lia. }
  destruct (lookup_lt_is_Some_2 _ _ Hlt) as [node Hnode].
  pose proof (sel_weights _ Hsel) as Hw.
  unfold mbind at 1, M_bind at 1.
  rewrite (SelectNode_run r p lg cm k _ node Hp Hlog Hm Hw Hne eq_refl Hk Hnode).
  destruct (IH (set_metric (Some (counted (zone r) node cm))
                  (set_candidatePool (Some (selected p k (firstMax ws 0 0 0).2)) r))
               (selected p k (firstMax ws 0 0 0).2) lg (counted (zone r) node cm))
    as (Hrun & Hall & Hsel' & Hn' & Hf' & Hs');
    [done | done | done | by apply selected_selectable | done |].
  simpl in Hrun, Hall, Hn', Hf', Hs'.
  split_and!; try done.
  - unfold mbind, M_bind. rewrite Hrun. by rewrite Hnode.
  - by constructor.
Qed.




Lemma wrap_int_range z : is_int (wrap_int z).
Proof.
  unfold is_int, wrap_int.
  pose proof (Z.mod_pos_bound (z + 2 ^ 63) (2 ^ 64) ltac:(lia)). lia.
Qed.

Lemma crossings_cons zone node answers :
  crossings zone (Some node :: answers)
  = ((if negb (String.eqb (ServiceNode.Zone node) zone) then 1 else 0)
     + crossings zone answers)%nat.
Proof.
  unfold crossings. simpl. rewrite filter_cons.
  destruct (String.eqb_spec (ServiceNode.Zone node) zone) as [Heq|Hne].
  - by rewrite decide_False by (by intros []).
  - by rewrite decide_True.
Qed.

Lemma metricAfter_counters zone answers :
  ∀ cm,
    Forall is_Some answers → is_int (selectNum cm) → is_int (crossZoneNum cm) →
    candidatePoolSize (metricAfter zone answers cm) = candidatePoolSize cm
    ∧ selectNum (metricAfter zone answers cm)
      = wrap_int (selectNum cm + Z.of_nat (length answers))
    ∧ crossZoneNum (metricAfter zone answers cm)
      = wrap_int (crossZoneNum cm + Z.of_nat (crossings zone answers)).
Proof.
  induction answers as [|answer answers IH]; intros cm Hall Hs Hc.
  { simpl. rewrite !Z.add_0_r, !wrap_int_id by done. done. }
  apply Forall_cons in Hall as [[node ->] Hall].
  change (metricAfter zone (Some node :: answers) cm)
    with (metricAfter zone answers (counted zone node cm)).
  destruct (IH (counted zone node cm) Hall) as (Hsize & Hsel & Hcross).
  - apply wrap_int_range.
  - simpl. destruct (negb _); [apply wrap_int_range | done].
  - rewrite Hsize, Hsel, Hcross, crossings_cons. simpl candidatePoolSize.
    split_and!; [done | |].
    + simpl selectNum. rewrite wrap_int_add_l. f_equal.
      change (length (Some node :: answers)) with (S (length answers)). lia.
    + simpl crossZoneNum. destruct (negb _).
      * rewrite wrap_int_add_l. f_equal. lia.
      * f_equal.
Qed.

(** The counters of the metric over [n] selections on a pool that is fit for
    selection, from counters that are machine integers: [selectNum] goes up by [n],
    [crossZoneNum] by the number of answers that are nodes of a zone other than the
    resolver's own, both wrapping around like a Go [int]; [candidatePoolSize] does not
    change. *)
Theorem selection_counters (r : ConsulResolver) (p : CandidatePool.t) (lg : Logger)
    (cm : ConsulResolverMetric) (n : nat) :
  candidatePool r = Some p → logger r = Some lg → metric r = Some cm →
  selectable p → CandidatePool.Nodes p ≠ [] →
  is_int (selectNum cm) → is_int (crossZoneNum cm) →
  ∃ answers r' cm',
    selectMany n r = Normal answers r'
    ∧ metric r' = Some cm'
    ∧ candidatePoolSize cm' = candidatePoolSize cm
    ∧ selectNum cm' = wrap_int (selectNum cm + Z.of_nat n)
    ∧ crossZoneNum cm' = wrap_int (crossZoneNum cm + Z.of_nat (crossings (zone r) answers)).
Proof.
  intros Hp Hlog Hm Hsel Hne Hs Hc.
  destruct (selectMany_run n r p lg cm Hp Hlog Hm Hsel Hne) as (Hrun & Hall & _).
  eexists _, _, _. split; [exact Hrun|]. split; [done|].
  destruct (metricAfter_counters (zone r) ((λ k, CandidatePool.Nodes p !! k) <$> picks n p) cm)
    as (Hsize & Hnum & Hcross); [|done..|].
  - apply Forall_fmap. eapply Forall_impl; [exact Hall|].
    intros k Hk. by apply lookup_lt_is_Some_2.
  - rewrite length_fmap, length_picks in Hnum. done.
Qed.

Lemma selection_counters_witness :
  candidatePool Scenario.serving
    = Some Scenario.servingPool
  ∧ logger Scenario.serving = Some TheLogger
  ∧ metric Scenario.serving
    = Some Scenario.servingMetric
  ∧ selectable Scenario.servingPool
  ∧ CandidatePool.Nodes Scenario.servingPool ≠ []
  ∧ is_int (selectNum Scenario.servingMetric)
  ∧ is_int (crossZoneNum Scenario.servingMetric)
  ∧ ∃ answers r' cm',
      selectMany 6 Scenario.serving
      = Normal answers r'
      ∧ metric r' = Some cm'
      ∧ candidatePoolSize cm' = candidatePoolSize Scenario.servingMetric
      ∧ selectNum cm' = wrap_int (selectNum Scenario.servingMetric + Z.of_nat 6)
      ∧ crossZoneNum cm'
        = wrap_int (crossZoneNum Scenario.servingMetric
                    + Z.of_nat (crossings
                        (zone Scenario.serving)
                        answers)).
Proof.
  assert (CandidatePool.Nodes Scenario.servingPool ≠ []) as Hne by (by vm_compute).
  assert (is_int 0) as Hint by (by vm_compute).
  split; [by vm_compute|]. split; [reflexivity|]. split; [reflexivity|].
  split; [apply servingPool_selectable|]. split; [exact Hne|].
  split; [exact Hint|]. split; [exact Hint|].
  apply (selection_counters Scenario.serving
           Scenario.servingPool TheLogger Scenario.servingMetric 6);
    [by vm_compute | reflexivity | reflexivity | apply servingPool_selectable
    | exact Hne | exact Hint | exact Hint].
Defined.

(** *** The cycle repeats *)













(** The selector needs a completed refresh.  On the resolver [NewConsulResolver]
    returns [SelectNode] panics, the pool being nil; and it still panics after a
    logger was set and [Start] returned an error, because a failed refresh publishes
    no pool. *)
Theorem SelectNode_needs_a_completed_refresh (NewClient : option error)
    (zn a s k1 k2 k3 k4 : string) (i t : Z) (r0 : ConsulResolver) :
  NewConsulResolver NewClient zn a s k1 k2 k3 k4 i t = inr r0 →
  SelectNode r0 = Panic
  ∧ ∀ logger w err r1 r2,
      SetLogger logger r0 = Normal tt r1 →
      Start w r1 = Normal (Some err) r2 →
      candidatePool r2 = None ∧ SelectNode r2 = Panic.
Proof.
  intros Hnew.
  assert (candidatePool r0 = None) as Hnil.
  { unfold NewConsulResolver in Hnew. destruct NewClient; [done|]. by injection Hnew as <-. }
  assert (∀ r, candidatePool r = None → SelectNode r = Panic) as Hpanic.
  { intros r Hr. unfold SelectNode, mbind, M_bind, gets. by rewrite Hr. }
  split; [by apply Hpanic|].
  intros logger w err r1 r2 [= <-] Hstart.
  assert (candidatePool r2 = None) as Hr2; [|by auto].
  unfold Start in Hstart. apply bind_Normal in Hstart as (e & r' & Hrun & Hret).
  destruct e as [e|]; [|done]. injection Hret as _ <-.
  apply updateAll_failed in Hrun. by injection Hrun as -> _ _ _ _ _.
Qed.

Lemma SelectNode_needs_a_completed_refresh_witness :
  NewConsulResolver None "A" "consul:8500" "svc" "cpu" "zonecpu" "instance" "lab" 10 5
    = inr Scenario.constructed
  ∧ SelectNode Scenario.constructed = Panic
  ∧ ∀ logger w err r1 r2,
      SetLogger logger Scenario.constructed = Normal tt r1 →
      Start w r1 = Normal (Some err) r2 →
      candidatePool r2 = None ∧ SelectNode r2 = Panic.
Proof.
  split; [reflexivity|].
  by apply (SelectNode_needs_a_completed_refresh None "A" "consul:8500" "svc" "cpu"
              "zonecpu" "instance" "lab" 10 5 Scenario.constructed).
Defined.

(** ** When a refresh completes *)

Lemma groupNode_total m v r ifm lg :
  instanceFactorMap r = Some ifm → logger r = Some lg →
  groupNode m v r
  = Normal (groupStep (zoneCPUMap r) (m, ifm) v).1
      (set_instanceFactorMap (Some (groupStep (zoneCPUMap r) (m, ifm) v).2) r).
Proof.
  intros Hifm Hlog. unfold groupNode, mbind, M_bind, gets. rewrite Hifm. simpl.
  fold (arrived ifm v). rewrite arrived_Zone, arrived_InstanceID. unfold modify, groupStep.
  simpl. destruct (m !! ServiceNode.Zone v) as [sz|]; simpl.
  - by rewrite (log_ok _ lg).
  - rewrite (log_ok _ lg) by done. by rewrite arrived_Zone.
Qed.

Lemma group_loop_total nodes lg :
  ∀ m r ifm,
    instanceFactorMap r = Some ifm → logger r = Some lg →
    ∃ m' ifm', forM groupNode nodes m r
               = Normal m' (set_instanceFactorMap (Some ifm') r).
Proof.
  induction nodes as [|v nodes IH]; intros m r ifm Hifm Hlog.
  - exists m, ifm. simpl. by rewrite set_instanceFactorMap_same.
  - simpl. unfold mbind, M_bind. rewrite (groupNode_total m v r ifm lg) by done.
    edestruct (IH (groupStep (zoneCPUMap r) (m, ifm) v).1
                 (set_instanceFactorMap (Some (groupStep (zoneCPUMap r) (m, ifm) v).2) r))
      as (m' & ifm' & Hrest); [done | done |].
    exists m', ifm'. rewrite Hrest. by destruct r.
Qed.

Lemma collectZone_run acc kv r :
  collectZone acc kv r
  = Normal (acc ++ [kv.2])
      (if String.eqb (ServiceZone.Zone kv.2) (zone r)
       then set_localZone (Some kv.2) r else r).
Proof.
  unfold collectZone, mbind, M_bind, gets. by destruct (String.eqb _ _).
Qed.

Lemma collect_loop_total l :
  ∀ acc r, ∃ zs lz, forM collectZone l acc r = Normal zs (set_localZone lz r).
Proof.
  induction l as [|kv l IH]; intros acc r.
  - exists acc, (localZone r). simpl. by destruct r.
  - simpl. unfold mbind, M_bind. rewrite collectZone_run.
    destruct (String.eqb _ _).
    + destruct (IH (acc ++ [kv.2]) (set_localZone (Some kv.2) r)) as (zs & lz & ->).
      by exists zs, lz.
    + apply IH.
Qed.

Lemma updateServiceZone_total w r res li ifm lg :
  Health_Service w (service r) (lastIndex r) (timeout r) = inr (res, li) →
  instanceFactorMap r = Some ifm → logger r = Some lg →
  ∃ r', updateServiceZone w r = Normal None r'.
Proof.
  intros Hh Hifm Hlog. unfold updateServiceZone, mbind, M_bind, gets. rewrite Hh.
  simpl.
  destruct (group_loop_total (entryNode w <$> res) lg ∅ (set_lastIndex li r) ifm)
    as (m & ifm' & ->); [done..|].
  destruct (collect_loop_total (range_map w (map_to_list m)) []
              (set_instanceFactorMap (Some ifm') (set_lastIndex li r))) as (zs & lz & ->).
  by eexists.
Qed.

(** When a refresh completes.  With a logger set, the four keys present and decodable,
    a [factorCacheExpire] of at least 1, a health query that answers, and an entry of
    the resolver's own zone among the answers, [updateAll] returns nil: none of the
    nil dereferences and none of the error returns is reached. *)
Theorem refresh_completes (w : World) (r : ConsulResolver) (lg : Logger)
    (ct : CPUThreshold) (zc : ZoneCPUUtilizationRatio.t) (ol : OnlineLab)
    (ifa : InstanceFactor.t) (res : list api.ServiceEntry) (li : Z) :
  logger r = Some lg →
  answer w (cpuThresholdKey r) (Unmarshal_CPUThreshold w) = Fetched ct →
  answer w (zoneCPUKey r) (Unmarshal_ZoneCPUUtilizationRatio w) = Fetched zc →
  answer w (onlineLabKey r) (Unmarshal_OnlineLab w) = Fetched ol →
  answer w (instanceFactorKey r) (Unmarshal_InstanceFactor w) = Fetched ifa →
  (1 <= FactorCacheExpire ol < 2 ^ 63)%Z →
  Health_Service w (service r) (lastIndex r) (timeout r) = inr (res, li) →
  range_ok w →
  zone r ∈ zoneOfEntry w <$> res →
  ∃ r' p, updateAll w r = Normal None r' ∧ candidatePool r' = Some p.
Proof.
  intros Hlog Hct Hzc Hol Hifa Hexpire Hh Hrange Hlisted.
  destruct (updateServiceZone_total w (configured ct zc ol ifa r) res li
              (instanceFactorMapOf ifa) lg Hh eq_refl Hlog) as [r1 Htopo].
  pose proof (updateServiceZone_frame _ _ _ Htopo) as Hr1.
  destruct (updateServiceZone_local_listed _ _ _ res li Hrange Htopo Hh Hlisted)
    as (lz & Hlz & _).
  assert (logger r1 = Some lg ∧ onlineLab r1 = Some ol) as [Hlog1 Hol1].
  { rewrite Hr1. done. }
  assert (∃ r2, expireBalanceFactorCache w r1 = Normal tt r2 ∧ cache_only r1 r2)
    as (r2 & Hexp & Hr2).
  { rewrite (expire_run w r1 ol lg) by (done || lia).
    destruct (FactorCacheExpire ol <=? 0)%Z eqn:Hle; [lia|].
    destruct (1 =? _)%Z; eexists; (split; [done|]);
      [apply cache_only_set | apply cache_only_refl]. }
  destruct (updateCandidatePool_total lg ol lz r2) as (r' & p & Hpool & Hp).
  { unfold cache_only in Hr2. rewrite Hr2. by split_and!. }
  pose proof (updateCandidatePool_frame _ _ _ Hpool) as Hr'.
  exists r', p. split; [|done].
  unfold updateAll. unfold mbind at 1, M_bind at 1. rewrite (log_ok _ lg) by done.
  unfold updateCPUThreshold, mbind at 1, M_bind at 1, gets.
  unfold mbind at 1, M_bind at 1.
  rewrite (fetch_fetched w _ _ (λ ct, set_cpuThreshold (CThreshold ct)) ct r lg)
    by done.
  unfold updateZoneCPUMap. unfold mbind at 1, M_bind at 1, mbind at 1, M_bind at 1, gets.
  rewrite (fetch_fetched w _ _ (λ zc, set_zoneCPUMap (zoneCPUMapOf zc)) zc _ lg) by done.
  unfold updateOnlineLabFactor.
  unfold mbind at 1, M_bind at 1, mbind at 1, M_bind at 1, gets.
  rewrite (fetch_fetched w _ _ (λ ol, set_onlineLab (Some ol)) ol _ lg) by done.
  unfold updateInstanceFactorMap.
  unfold mbind at 1, M_bind at 1, mbind at 1, M_bind at 1, gets.
  rewrite (fetch_fetched w _ _ (λ i, set_instanceFactorMap (Some (instanceFactorMapOf i)))
             ifa _ lg) by done.
  unfold mbind at 1, M_bind at 1. fold (configured ct zc ol ifa r). rewrite Htopo.
  unfold mbind at 1, M_bind at 1. rewrite Hexp.
  unfold mbind at 1, M_bind at 1. rewrite Hpool.
  unfold mbind, M_bind. rewrite (log_ok _ lg); [done|].
  rewrite Hr'. unfold cache_only in Hr2. rewrite Hr2. done.
Qed.

Lemma refresh_completes_witness :
  ∃ r' p, updateAll Scenario.healthy Scenario.fresh = Normal None r'
          ∧ candidatePool r' = Some p.
Proof.
  apply (refresh_completes Scenario.healthy Scenario.fresh TheLogger
           {| CThreshold := 70 |} Scenario.zoneCPU Scenario.lab Scenario.instances
           [Scenario.entry "a1" "A" "1000"; Scenario.entry "b1" "B" "1000"] 8).
  - reflexivity.
  - reflexivity.
  - reflexivity.
  - reflexivity.
  - reflexivity.
  - by vm_compute.
  - reflexivity.
  - apply range_ok_world.
  - apply (bool_decide_unpack _). by vm_compute.
Defined.

(** ** New nodes of the local zone *)

Lemma zone_entries (z : ServiceZone.t) (nodes : list ServiceNode.t) (fs : list float64) i e :
  zip ((λ node, (z, node)) <$> nodes) fs !! i = Some e → e.1.1 = z.
Proof.
  intros (v & f & -> & Hv & _)%lookup_zip_with_Some.
  rewrite list_lookup_fmap in Hv. by destruct (nodes !! i); [injection Hv as <-|].
Qed.

Lemma justified_impl_in
    (Q1 Q2 : ServiceZone.t → ConsulResolver → ServiceNode.t → float64 → Prop) r entries :
  (∀ i e, entries !! i = Some e → ∀ r, Q1 e.1.1 r e.1.2 e.2 → Q2 e.1.1 r e.1.2 e.2) →
  justified Q1 r entries → justified Q2 r entries.
Proof. intros HQ H1 i e He. apply (HQ i e He), (H1 i e He). Qed.

(** Over zones with pairwise distinct names, [localAvgFactor] is still 0 whenever a
    node of the local zone is started. *)
Lemma zone_loop_cold_trace lz ol fc zones :
  ∀ p avg r p' avg' r',
    localZone r = Some lz → onlineLab r = Some ol →
    NoDup (ServiceZone.Zone <$> zones) →
    (avg = 0 ∨ ∀ z, z ∈ zones →
                 String.eqb (ServiceZone.Zone lz) (ServiceZone.Zone z) = false) →
    forM (zoneStep (Some lz) fc) zones (p, avg) r = Normal (p', avg') r' →
    ∃ fs,
      let vs := visited (filter (λ z, included lz ol z = true) zones) in
      length fs = length vs
      ∧ built p p' (zip vs fs)
      ∧ justified (seeded lz ol fc 0) r (zip vs fs).
Proof.
  induction zones as [|z zones IH]; intros p avg r p' avg' r' Hlz Hol Hnd Havg Hrun.
  - injection Hrun as <- _ <-. exists []. simpl.
    split_and!; [done | apply built_nil | apply justified_nil].
  - simpl in Hrun. apply bind_Normal in Hrun as ([p1 avg1] & r1 & Hstep & Hrest).
    rewrite fmap_cons in Hnd. apply NoDup_cons in Hnd as [Hz Hnd].
    apply (zoneStep_trace lz ol) in Hstep as (fs1 & Hlen1 & Hb1 & -> & Hj1 & Hkeep);
      [|done..].
    assert (justified (seeded lz ol fc 0)
              r (zip (if included lz ol z
                      then (λ node, (z, node)) <$> ServiceZone.Nodes z else []) fs1)
            ∧ (avg1 = 0 ∨ ∀ z', z' ∈ zones →
                 String.eqb (ServiceZone.Zone lz) (ServiceZone.Zone z') = false))
      as [Hcold Havg1].
    { destruct (String.eqb (ServiceZone.Zone lz) (ServiceZone.Zone z)) eqn:Hlocal.
      - split.
        + destruct Havg as [-> | Hno].
          * eapply justified_impl; [|exact Hj1]. by intros ???? [].
          * rewrite Hno in Hlocal by left. done.
        + right. intros z' Hz'. apply String.eqb_neq. intros Heq.
          apply String.eqb_eq in Hlocal. apply Hz. apply list_elem_of_fmap.
          exists z'. split; [congruence | done].
      - split.
        + eapply justified_impl_in; [|exact Hj1]. intros i e He r0 _ _ Hloc.
          assert (e.1.1 = z) as Hez.
          { destruct (included lz ol z); [by eapply zone_entries|].
            simpl in He. by rewrite lookup_nil in He. }
          rewrite Hez, Hlocal in Hloc. done.
        + rewrite (Hkeep eq_refl). destruct Havg as [-> | Hno]; [by left|].
          right. intros z' Hz'. apply Hno. by right. }
    apply IH in Hrest as (fs2 & Hlen2 & Hb2 & Hj2); [|done..].
    exists (fs1 ++ fs2). cbv zeta in *. rewrite filter_cons.
    destruct (included lz ol z) eqn:Hin.
    + rewrite decide_True by done. rewrite visited_cons.
      rewrite zip_app_same by done. split_and!.
      * rewrite !length_app. by rewrite Hlen1, Hlen2.
      * by eapply built_app.
      * by apply justified_app.
    + rewrite decide_False by done. simpl in Hlen1.
      destruct fs1; [|done]. simpl in *.
      rewrite set_balanceFactorCache_same in Hj2. split_and!; try done.
      apply (built_app _ _ _ [] _ Hb1 Hb2).
Qed.

(** The builder, when it returns: the zone loop it ran. *)
Lemma updateCandidatePool_loop r u r' :
  updateCandidatePool r = Normal u r' →
  ∃ p avg r1,
    forM (zoneStep (localZone r) (bool_decide (0 < size (balanceFactorCache r))%nat))
      (serviceZones r) (CandidatePool.new, 0) r = Normal (p, avg) r1
    ∧ candidatePool r' = Some p.
Proof.
  unfold updateCandidatePool.
  intros (lz' & r1 & [= <- <-] & (zs & r2 & [= <- <-] & (c & r3 & [= <- <-]
    & ([p avg] & r4 & Hloop & (m & r5 & [= <- <-] & (u' & r6 & Hmetric & [= _ <-])%bind_Normal
    )%bind_Normal)%bind_Normal)%bind_Normal)%bind_Normal)%bind_Normal.
  by exists p, avg, r4.
Qed.

Lemma seeded_entry lz ol fc r (vs : list (ServiceZone.t * ServiceNode.t)) fs i z node f :
  NoDup (ServiceNode.InstanceID <$> vs.*2) → length fs = length vs →
  justified (seeded lz ol fc 0) r (zip vs fs) →
  vs !! i = Some (z, node) → fs !! i = Some f →
  seeded lz ol fc 0 z r node f.
Proof.
  intros Hnd Hlen Hj Hv Hf.
  assert (zip vs fs !! i = Some (z, node, f)) as He.
  { apply lookup_zip_with_Some. eauto. }
  specialize (Hj i _ He). unfold seeded in *. simpl in Hj.
  assert (cacheAfter (balanceFactorCache r) (take i (zip vs fs)) !! ServiceNode.InstanceID node
          = balanceFactorCache r !! ServiceNode.InstanceID node) as Hlive.
  { apply cacheAfter_notin. rewrite fmap_take. apply (NoDup_before _ i).
    - by rewrite entries_ids.
    - by rewrite list_lookup_fmap, He. }
  by rewrite Hlive in Hj.
Qed.

(** New nodes of the local zone are never warm-started.  While [zoneCPUUpdated] is
    off, over zones with pairwise distinct names (as the topology refresh lists them)
    and nodes with distinct instance ids, a node of the local zone that the non-empty
    cache has no entry for gets its declared factor times [FactorStartRate], clamped to
    [200, 3000]: [localAvgFactor] is assigned after the loop over the local zone only,
    so the branch that would start the node from the local average is never taken. *)
Theorem new_local_nodes_are_cold_started (r r' : ConsulResolver) (u : unit)
    (lz : ServiceZone.t) (ol : OnlineLab) :
  localZone r = Some lz → onlineLab r = Some ol → zoneCPUUpdated r = false →
  NoDup (ServiceZone.Zone <$> serviceZones r) →
  NoDup (ServiceNode.InstanceID <$> (poolEntries lz ol r).*2) →
  updateCandidatePool r = Normal u r' →
  ∃ p, candidatePool r' = Some p
    ∧ ∀ i z node f,
        poolEntries lz ol r !! i = Some (z, node) →
        CandidatePool.Factors p !! i = Some f →
        String.eqb (ServiceZone.Zone lz) (ServiceZone.Zone z) = true →
        balanceFactorCache r ≠ ∅ →
        balanceFactorCache r !! ServiceNode.InstanceID node = None →
        f = clampL (ServiceNode.BalanceFactor node * FactorStartRate ol).
Proof.
  intros Hlz Hol Hoff Hzones Hids (p & avg & r1 & Hloop & Hp)%updateCandidatePool_loop.
  rewrite Hlz in Hloop.
  apply (zone_loop_cold_trace lz ol) in Hloop as (fs & Hlen & (_ & Hf & _) & Hj);
    [|done | done | done | by left].
  exists p. split; [done|]. intros i z node f Hv Hfactor Hlocal Hcache Hmiss.
  simpl in Hf. rewrite entries_factors in Hf by done. rewrite Hf in Hfactor.
  pose proof (seeded_entry _ _ _ _ _ _ _ _ _ _ Hids Hlen Hj Hv Hfactor Hoff Hlocal)
    as Hseed.
  rewrite Hseed; [done | | done].
  apply bool_decide_eq_true. apply map_size_non_empty_iff in Hcache. lia.
Qed.

Lemma new_local_nodes_are_cold_started_witness :
  localZone Scenario.joining = Some Scenario.zoneS5
  ∧ onlineLab Scenario.joining = Some Scenario.lab
  ∧ zoneCPUUpdated Scenario.joining = false
  ∧ updateCandidatePool Scenario.joining
    = Normal tt (Scenario.after (updateCandidatePool Scenario.joining))
  ∧ ∃ p, candidatePool (Scenario.after (updateCandidatePool Scenario.joining)) = Some p
    ∧ ∀ i z node f,
        poolEntries Scenario.zoneS5 Scenario.lab Scenario.joining !! i = Some (z, node) →
        CandidatePool.Factors p !! i = Some f →
        String.eqb (ServiceZone.Zone Scenario.zoneS5) (ServiceZone.Zone z) = true →
        balanceFactorCache Scenario.joining ≠ ∅ →
        balanceFactorCache Scenario.joining !! ServiceNode.InstanceID node = None →
        f = clampL (ServiceNode.BalanceFactor node * FactorStartRate Scenario.lab).
Proof.
  split; [reflexivity|]. split; [reflexivity|]. split; [reflexivity|].
  split; [by vm_compute|].
  apply (new_local_nodes_are_cold_started Scenario.joining _ tt Scenario.zoneS5 Scenario.lab).
  - reflexivity.
  - reflexivity.
  - reflexivity.
  - apply (bool_decide_unpack _). by vm_compute.
  - apply (bool_decide_unpack _). by vm_compute.
  - by vm_compute.
Defined.

(** ** Building twice *)



